(** * Social 7 order automation: the order parser, the guest form, the
      confirmation scraper and the order pipeline of [order-automation.js]

    JavaScript strings are modelled as [string] whose characters are the code
    units U+0000..U+00FF (Latin-1).  On that range [toLowerCase] keeps the
    length of a string, white space ([trim], [\s]) is TAB, LF, VT, FF, CR,
    SPACE and NBSP, and the line terminators are LF and CR. *)

From Stdlib Require Import List String Ascii NArith ZArith Bool Arith Lia.
Import ListNotations.
Open Scope string_scope.

(** ** Characters *)

Definition code (c : ascii) : N := N_of_ascii c.

Definition in_range (lo hi : N) (c : ascii) : bool :=
  ((lo <=? code c) && (code c <=? hi))%N.

(** [\d] *)
Definition is_digit (c : ascii) : bool := in_range 48 57 c.
(** [[A-Z]] and [[a-z]] *)
Definition is_upper (c : ascii) : bool := in_range 65 90 c.
Definition is_lower (c : ascii) : bool := in_range 97 122 c.
(** [\w], the characters that make up a word for [\b] *)
Definition is_word (c : ascii) : bool :=
  is_upper c || is_lower c || is_digit c || (code c =? 95)%N.
(** Line terminators: what [.] does not match and what [$] looks for under
    the [m] flag. *)
Definition is_line_terminator (c : ascii) : bool :=
  ((code c =? 10) || (code c =? 13))%N.
(** [\s], and the characters removed by [trim]. *)
Definition is_space (c : ascii) : bool :=
  (in_range 9 13 c || (code c =? 32) || (code c =? 160))%N.
(** [.] *)
Definition is_dot (c : ascii) : bool := negb (is_line_terminator c).

(** One code unit of [String.prototype.toLowerCase]: A-Z, and the Latin-1
    capitals U+00C0..U+00DE except the multiplication sign U+00D7. *)
Definition lower_char (c : ascii) : ascii :=
  if is_upper c || (in_range 192 222 c && negb (code c =? 215)%N)
  then ascii_of_N (code c + 32)
  else c.

(** ** String primitives *)

Fixpoint toLowerCase (s : string) : string :=
  match s with
  | "" => ""
  | String c s' => String (lower_char c) (toLowerCase s')
  end.

Fixpoint trimStart (s : string) : string :=
  match s with
  | "" => ""
  | String c s' => if is_space c then trimStart s' else s
  end.

Fixpoint trimEnd (s : string) : string :=
  match s with
  | "" => ""
  | String c s' =>
      match trimEnd s' with
      | "" => if is_space c then "" else String c ""
      | t => String c t
      end
  end.

Definition trim (s : string) : string := trimEnd (trimStart s).

(** [s.split(sep)] for a separator of one character.  The result is never
    empty: a string without the separator is its own single segment. *)
Fixpoint split_char (sep : ascii) (s : string) : list string :=
  match s with
  | "" => [""]
  | String c s' =>
      if Ascii.eqb c sep then "" :: split_char sep s'
      else match split_char sep s' with
           | seg :: segs => String c seg :: segs
           | [] => [String c ""]
           end
  end.

(** [s.indexOf(needle)], with -1 for "not found". *)
Fixpoint indexOf_from (needle s : string) (i : Z) : Z :=
  if prefix needle s then i
  else match s with
       | "" => (-1)%Z
       | String _ s' => indexOf_from needle s' (i + 1)%Z
       end.

Definition indexOf (needle s : string) : Z := indexOf_from needle s 0%Z.

(** [s.includes(needle)] *)
Fixpoint includes (needle s : string) : bool :=
  prefix needle s ||
  match s with
  | "" => false
  | String _ s' => includes needle s'
  end.

Fixpoint str_take (n : nat) (s : string) : string :=
  match n, s with
  | S n', String c s' => String c (str_take n' s')
  | _, _ => ""
  end.

Fixpoint str_drop (n : nat) (s : string) : string :=
  match n, s with
  | S n', String _ s' => str_drop n' s'
  | _, _ => s
  end.

(** [s.substring(a, b)] for [0 <= a <= b], and [s.substring(a)]; both clamp
    at the end of the string. *)
Definition substring2 (a b : Z) (s : string) : string :=
  str_take (Z.to_nat b - Z.to_nat a) (str_drop (Z.to_nat a) s).

Definition substring1 (a : Z) (s : string) : string :=
  str_drop (Z.to_nat a) s.

Fixpoint str_filter (p : ascii -> bool) (s : string) : string :=
  match s with
  | "" => ""
  | String c s' => if p c then String c (str_filter p s') else str_filter p s'
  end.

Fixpoint str_forall (p : ascii -> bool) (s : string) : bool :=
  match s with
  | "" => true
  | String c s' => p c && str_forall p s'
  end.

Fixpoint take_while (p : ascii -> bool) (s : string) : string :=
  match s with
  | "" => ""
  | String c s' => if p c then String c (take_while p s') else ""
  end.

Fixpoint drop_while (p : ascii -> bool) (s : string) : string :=
  match s with
  | "" => ""
  | String c s' => if p c then drop_while p s' else s
  end.

(** The value of a run of decimal digits, most significant first. *)
Fixpoint digits_value (acc : N) (s : string) : N :=
  match s with
  | "" => acc
  | String c s' =>
      if is_digit c then digits_value (acc * 10 + (code c - 48)) s' else acc
  end.

(** ** Numbers

    The numbers of the parser and of the quantity loop: the doubles that are
    non-negative integers, and [Infinity]. *)
Inductive number : Type :=
| Finite (n : N)
| Infinity.
Bind Scope N_scope with number.
Coercion Finite : N >-> number.

(** [a < b] and [a <= b] on these numbers. *)
Definition num_ltb (a b : number) : bool :=
  match a, b with
  | Finite x, Finite y => (x <? y)%N
  | Finite _, Infinity => true
  | Infinity, _ => false
  end.

Definition num_leb (a b : number) : bool :=
  match a, b with
  | Finite x, Finite y => (x <=? y)%N
  | _, Infinity => true
  | Infinity, Finite _ => false
  end.

(** The double nearest to a natural number, ties to even.  Below 2^53 every
    natural number is a double.  From 2^53 on a double keeps the 53 leading
    bits [q] of the number and drops [e] bits [r]; it is rounded up when [r]
    is more than half of 2^e, or half of it with [q] odd.  What rounds to
    2^1024 is [Infinity]. *)
Definition round_double (n : N) : number :=
  if (n <? 2 ^ 53)%N then Finite n
  else
    let e := (N.log2 n - 52)%N in
    let q := N.shiftr n e in
    let r := N.land n (N.ones e) in
    let half := N.shiftl 1 (e - 1) in
    let q' := if (half <? r)%N || ((r =? half)%N && N.odd q)
              then (q + 1)%N else q in
    let v := N.shiftl q' e in
    if (2 ^ 1024 <=? v)%N then Infinity else Finite v.

(** [parseInt] on a string that starts with a decimal digit: the value of
    its leading digit run, as a double.  The parser applies it to the
    capture of [(\d+)] only.  Node's engine rounds the exact value of the
    digits; the language also lets an engine replace the digits after the
    20th by zeros first. *)
Definition parseInt (s : string) : number := round_double (digits_value 0 s).

(** ** Regular expressions

    A backtracking matcher with the priorities of the JavaScript one:
    [Or] tries its left branch first, [Star] is greedy and refuses an
    iteration that consumes nothing.  No pattern of the program has a
    capture group under a quantifier. *)

Inductive regex : Type :=
| Eps
| Chr (p : ascii -> bool)
| Cat (r1 r2 : regex)
| Or (r1 r2 : regex)
| Star (r : regex)
| Group (n : nat) (r : regex)
| AssertStart
| AssertEndLine
| WordBoundary.

Definition Plus (r : regex) : regex := Cat r (Star r).
Definition Opt (r : regex) : regex := Or r Eps.

(** A literal character, and the same under the [i] flag. *)
Definition Lit (c : ascii) : regex := Chr (Ascii.eqb c).
Definition LitI (c : ascii) : regex :=
  Chr (fun x => Ascii.eqb (lower_char x) (lower_char c)).

Fixpoint Word (lit : ascii -> regex) (s : string) : regex :=
  match s with
  | "" => Eps
  | String c s' => Cat (lit c) (Word lit s')
  end.

(** A position in the subject: the character just before it (none at index
    0) and the text from it on. *)
Record cursor : Type := mkCursor { behind : option ascii; ahead : string }.

Definition captures : Type := list (nat * string).

Definition word_before (c : cursor) : bool :=
  match behind c with Some a => is_word a | None => false end.
Definition word_after (c : cursor) : bool :=
  match ahead c with String a _ => is_word a | "" => false end.

Definition answer : Type := option (cursor * captures).
Definition cont : Type := cursor -> captures -> answer.

(** The loop of a greedy star: one more iteration of [body] that consumes
    something, as long as that leads to a match, and the rest of the pattern
    ([k]) otherwise.  An iteration consumes at least one character, so the
    number of characters ahead bounds the number of iterations. *)
Fixpoint star_iter (body : cont -> cont) (k : cont) (fuel : nat)
    (c : cursor) (cs : captures) : answer :=
  match fuel with
  | O => k c cs
  | S fuel' =>
      match body (fun c1 cs1 =>
                    if Nat.ltb (length (ahead c1)) (length (ahead c))
                    then star_iter body k fuel' c1 cs1 else None) c cs with
      | Some res => Some res
      | None => k c cs
      end
  end.

Fixpoint rmatch (r : regex) (k : cont) (c : cursor) (cs : captures)
    {struct r} : answer :=
  match r with
  | Eps => k c cs
  | Chr p =>
      match ahead c with
      | String a rest => if p a then k (mkCursor (Some a) rest) cs else None
      | "" => None
      end
  | Cat r1 r2 => rmatch r1 (fun c1 cs1 => rmatch r2 k c1 cs1) c cs
  | Or r1 r2 =>
      match rmatch r1 k c cs with
      | Some res => Some res
      | None => rmatch r2 k c cs
      end
  | Star r1 => star_iter (rmatch r1) k (length (ahead c)) c cs
  | Group n r1 =>
      rmatch r1
        (fun c1 cs1 =>
           k c1 ((n, str_take (length (ahead c) - length (ahead c1)) (ahead c))
                   :: cs1)) c cs
  | AssertStart =>
      match behind c with None => k c cs | Some _ => None end
  | AssertEndLine =>
      match ahead c with
      | "" => k c cs
      | String a _ => if is_line_terminator a then k c cs else None
      end
  | WordBoundary =>
      if xorb (word_before c) (word_after c) then k c cs else None
  end.

(** A match attempt at one position. *)
Definition match_at (r : regex) (c : cursor) : answer :=
  rmatch r (fun c' cs' => Some (c', cs')) c [].

(** The match object: [index], the captures, and the text after the match. *)
Record rmatch_result : Type :=
  mkMatch { m_index : nat; m_caps : captures; m_rest : string }.

(** [re.exec(s)] without the [g] flag: the first position, from the left,
    where the pattern matches. *)
Fixpoint exec_from (r : regex) (b : option ascii) (s : string) (i : nat)
  : option rmatch_result :=
  match match_at r (mkCursor b s) with
  | Some (c', cs) => Some (mkMatch i cs (ahead c'))
  | None =>
      match s with
      | "" => None
      | String a s' => exec_from r (Some a) s' (S i)
      end
  end.

Definition exec (r : regex) (s : string) : option rmatch_result :=
  exec_from r None s 0.

(** [match[n]]: the text of capture group [n], when the group took part. *)
Fixpoint cap_lookup (n : nat) (cs : captures) : option string :=
  match cs with
  | [] => None
  | (m, v) :: cs' => if Nat.eqb m n then Some v else cap_lookup n cs'
  end.

Definition group (n : nat) (m : rmatch_result) : option string :=
  cap_lookup n (m_caps m).

(** [s.split(re)] for a pattern without capture groups (the split loop of
    the language: [p] is the start of the current piece, [q] the position
    tried).  [piece] is the text from [p] to [q]; after a match that consumed
    [n > 0] characters the next [n] characters are skipped ([skip]) and a new
    piece starts; a match that ends at [p] (nothing consumed while the piece
    is empty) only advances [q]. *)
Fixpoint split_scan (r : regex) (b : option ascii) (s : string)
    (skip : nat) (piece : string) : list string :=
  match s with
  | "" => [piece]
  | String a s' =>
      match skip with
      | S skip' => split_scan r (Some a) s' skip' piece
      | O =>
          match match_at r (mkCursor b s) with
          | None => split_scan r (Some a) s' 0 (piece ++ String a "")
          | Some (c', _) =>
              match length s - length (ahead c') with
              | O =>
                  match piece with
                  | "" => split_scan r (Some a) s' 0 (String a "")
                  | _ => piece :: split_scan r (Some a) s' 0 (String a "")
                  end
              | S n => piece :: split_scan r (Some a) s' n ""
              end
          end
      end
  end.

Definition split_regex (r : regex) (s : string) : list string :=
  match s with
  | "" => match match_at r (mkCursor None "") with
          | Some _ => []
          | None => [""]
          end
  | _ => split_scan r None s 0 ""
  end.

(** ** The order parser ([parseOrderItems]) *)

Record ParsedLineItem : Type := mkItem {
  raw : string;
  name : string;
  quantity : number;
  modifications : list string
}.

(** [/^(\d+)\s+(.+)/] *)
Definition quantityPattern : regex :=
  Cat AssertStart
    (Cat (Group 1 (Plus (Chr is_digit)))
       (Cat (Plus (Chr is_space)) (Group 2 (Plus (Chr is_dot))))).

(** [/\s+and\s+|\s*,\s*/] *)
Definition modsSeparator : regex :=
  Or (Cat (Plus (Chr is_space)) (Cat (Word Lit "and") (Plus (Chr is_space))))
     (Cat (Star (Chr is_space)) (Cat (Lit ",") (Star (Chr is_space)))).

(** A capture that did not take part reads as [undefined]; the two groups
    of [quantityPattern] always take part in a match. *)
Definition group_or_empty (n : nat) (m : rmatch_result) : string :=
  match group n m with Some v => v | None => "" end.

(** "Extract quantity if specified": the quantity and the text that is left. *)
Definition extractQuantity (item : string) : number * string :=
  match exec quantityPattern item with
  | Some qtyMatch =>
      (parseInt (group_or_empty 1 qtyMatch), group_or_empty 2 qtyMatch)
  | None => (Finite 1, item)
  end.

(** "Extract main item name (before any "with" or modifications)": the
    candidate name and the modifications. *)
Definition splitWith (item : string) : string * list string :=
  let withIndex := indexOf " with " (toLowerCase item) in
  if (-1 <? withIndex)%Z then
    let modsText := trim (substring1 (withIndex + 6) item) in
    (trim (substring2 0 withIndex item),
     map trim (split_regex modsSeparator modsText))
  else (trim item, []).

(** "Normalize common item names" *)
Definition normalizeName (name : string) : string :=
  let nameLower := toLowerCase name in
  if includes "bruschetta" nameLower then "Bruschetta"
  else if includes "wing" nameLower then
         (if includes "1lb" nameLower || includes "one lb" nameLower
          then "1lb Wings" else "2lb Wings")
  else if includes "quesadilla" nameLower then "Quesadilla"
  else if includes "burger" nameLower then "Angus Burger"
  else if includes "caesar" nameLower then "Caesar Salad"
  else if includes "garlic bread" nameLower then "Garlic Bread W/cheese"
  else name.

(** The candidate name of a segment, before normalisation. *)
Definition candidateName (item : string) : string :=
  fst (splitWith (snd (extractQuantity item))).

(** The body of the second [map] of [parseOrderItems]. *)
Definition parseItem (item : string) : ParsedLineItem :=
  let (qty, rest) := extractQuantity item in
  let (candidate, mods) := splitWith rest in
  {| raw := item;
     name := normalizeName candidate;
     quantity := qty;
     modifications := mods |}.

(** The first [map]: the trimmed comma-separated segments. *)
Definition segments (orderItemsString : string) : list string :=
  map trim (split_char "," orderItemsString).

Definition parseOrderItems (orderItemsString : string) : list ParsedLineItem :=
  map parseItem (segments orderItemsString).

(** ** The guest form values ([fillGuestInfo], before the [try]) *)

Record Config : Type := mkConfig {
  restaurantURL : string;
  botEmail : string;
  botLastName : string;
  headless : bool;
  timeout : N;
  screenshotOnError : bool;
  defaultWaitTime : N
}.

Definition CONFIG : Config :=
  {| restaurantURL := "https://order.tbdine.com/pickup/48684/menu";
     botEmail := "yousef.alyeldin5@gmial.com";
     botLastName := "PAM";
     headless := true;
     timeout := 30000;
     screenshotOnError := true;
     defaultWaitTime := 2000 |}.

(** [s.replace(re, '')] with the [g] flag: every match is removed, scanning
    from the left; [skip] counts the characters of the current match that are
    still to be dropped. *)
Fixpoint remove_matches (r : regex) (b : option ascii) (s : string)
    (skip : nat) : string :=
  match s with
  | "" => ""
  | String a s' =>
      match skip with
      | S skip' => remove_matches r (Some a) s' skip'
      | O =>
          match match_at r (mkCursor b s) with
          | Some (c', _) =>
              match length s - length (ahead c') with
              | O => String a (remove_matches r (Some a) s' 0)
              | S n => remove_matches r (Some a) s' n
              end
          | None => String a (remove_matches r (Some a) s' 0)
          end
      end
  end.

(** [/\D/g] *)
Definition nonDigit : regex := Chr (fun c => negb (is_digit c)).

(** [customerName.split(' ')[0]] *)
Definition guestFirstName (customerName : string) : string :=
  nth 0 (split_char " " customerName) "".

Definition guestLastName : string := botLastName CONFIG.

(** [customerPhone.replace(/\D/g, '')] *)
Definition guestPhone (customerPhone : string) : string :=
  remove_matches nonDigit None customerPhone 0.

(** ** The confirmation scraper ([extractConfirmationDetails]) *)

Definition is_alnum (c : ascii) : bool := is_upper c || is_lower c || is_digit c.
(** [[A-Za-z0-9\-]] *)
Definition is_alnum_dash (c : ascii) : bool := is_alnum c || Ascii.eqb c "-".

(** [/Order Number:\s*([A-Za-z0-9\-]+)/i] *)
Definition orderNumberLabel : regex :=
  Cat (Word LitI "Order Number:")
    (Cat (Star (Chr is_space)) (Group 1 (Plus (Chr is_alnum_dash)))).

(** [/Order\s*#?\s*:?\s*([A-Za-z0-9\-]+)/i] *)
Definition orderLabel : regex :=
  Cat (Word LitI "Order")
    (Cat (Star (Chr is_space))
       (Cat (Opt (Lit "#"))
          (Cat (Star (Chr is_space))
             (Cat (Opt (Lit ":"))
                (Cat (Star (Chr is_space))
                   (Group 1 (Plus (Chr is_alnum_dash)))))))).

(** [/#([A-Za-z0-9]{5,})/] *)
Definition hashCode : regex :=
  Cat (Lit "#")
    (Group 1
       (Cat (Chr is_alnum)
          (Cat (Chr is_alnum)
             (Cat (Chr is_alnum)
                (Cat (Chr is_alnum) (Plus (Chr is_alnum))))))).

(** [/\b([A-Z][a-z]+)\b/], "Pattern like "Twelfth", "Third", etc." *)
Definition capitalizedWord : regex :=
  Cat WordBoundary
    (Cat (Group 1 (Cat (Chr is_upper) (Plus (Chr is_lower)))) WordBoundary).

Definition orderNumberPatterns : list regex :=
  [orderNumberLabel; orderLabel; hashCode; capitalizedWord].

(** [\d+[-\s]?\d*\s*minutes?] under the [i] flag *)
Definition minutesText : regex :=
  Cat (Plus (Chr is_digit))
    (Cat (Opt (Chr (fun c => Ascii.eqb c "-" || is_space c)))
       (Cat (Star (Chr is_digit))
          (Cat (Star (Chr is_space))
             (Cat (Word LitI "minute") (Opt (LitI "s")))))).

Definition pickupPatterns : list regex :=
  [ (* /(\d+[-\s]?\d*\s*minutes?)/i *)
    Group 1 minutesText;
    (* /Approximately\s+(\d+[-\s]?\d*\s*minutes?)/i *)
    Cat (Word LitI "Approximately")
      (Cat (Plus (Chr is_space)) (Group 1 minutesText));
    (* /(\d+:\d+\s*[AP]M)/i *)
    Group 1
      (Cat (Plus (Chr is_digit))
         (Cat (Lit ":")
            (Cat (Plus (Chr is_digit))
               (Cat (Star (Chr is_space))
                  (Cat (Chr (fun c =>
                               Ascii.eqb (lower_char c) "a"
                               || Ascii.eqb (lower_char c) "p"))
                     (LitI "M"))))))
  ].

Definition totalPatterns : list regex :=
  [ (* /Total[:\s]+\$?([\d,]+\.?\d{0,})/i, the source writes the last
       quantifier as a star *)
    Cat (Word LitI "Total")
      (Cat (Plus (Chr (fun c => Ascii.eqb c ":" || is_space c)))
         (Cat (Opt (Lit "$"))
            (Group 1
               (Cat (Plus (Chr (fun c => is_digit c || Ascii.eqb c ",")))
                  (Cat (Opt (Lit ".")) (Star (Chr is_digit)))))));
    (* /\$(\d+\.\d{2})\s*$/m *)
    Cat (Lit "$")
      (Cat (Group 1
              (Cat (Plus (Chr is_digit))
                 (Cat (Lit ".") (Cat (Chr is_digit) (Chr is_digit)))))
         (Cat (Star (Chr is_space)) AssertEndLine))
  ].

(** The [for ... of] loop with [break]: the match of the first pattern, in
    list order, that matches the text. *)
Fixpoint first_match (patterns : list regex) (text : string)
  : option rmatch_result :=
  match patterns with
  | [] => None
  | pattern :: rest =>
      match exec pattern text with
      | Some m => Some m
      | None => first_match rest text
      end
  end.

Record Snapshot : Type := mkSnapshot {
  snap_name : string;
  snap_data : string;
  snap_timestamp : string
}.

(** [orderResult].  The [stack] field, a copy of the engine's stack trace
    kept for debugging, is left out. *)
Record OrderResult : Type := mkResult {
  success : bool;
  confirmationNumber : option string;
  estimatedPickupTime : option string;
  totalAmount : option string;
  error : option string;
  screenshots : list Snapshot;
  errorPageHTML : option string
}.

Definition initialResult : OrderResult :=
  {| success := false; confirmationNumber := None;
     estimatedPickupTime := None; totalAmount := None; error := None;
     screenshots := []; errorPageHTML := None |}.

Definition set_success (b : bool) (r : OrderResult) : OrderResult :=
  mkResult b (confirmationNumber r) (estimatedPickupTime r) (totalAmount r)
    (error r) (screenshots r) (errorPageHTML r).
Definition set_confirmationNumber (v : option string) (r : OrderResult) :=
  mkResult (success r) v (estimatedPickupTime r) (totalAmount r)
    (error r) (screenshots r) (errorPageHTML r).
Definition set_estimatedPickupTime (v : option string) (r : OrderResult) :=
  mkResult (success r) (confirmationNumber r) v (totalAmount r)
    (error r) (screenshots r) (errorPageHTML r).
Definition set_totalAmount (v : option string) (r : OrderResult) :=
  mkResult (success r) (confirmationNumber r) (estimatedPickupTime r) v
    (error r) (screenshots r) (errorPageHTML r).
Definition set_error (v : option string) (r : OrderResult) :=
  mkResult (success r) (confirmationNumber r) (estimatedPickupTime r)
    (totalAmount r) v (screenshots r) (errorPageHTML r).
Definition push_screenshot (x : Snapshot) (r : OrderResult) :=
  mkResult (success r) (confirmationNumber r) (estimatedPickupTime r)
    (totalAmount r) (error r) (screenshots r ++ [x]) (errorPageHTML r).
Definition set_errorPageHTML (v : option string) (r : OrderResult) :=
  mkResult (success r) (confirmationNumber r) (estimatedPickupTime r)
    (totalAmount r) (error r) (screenshots r) v.

(** [!x] for a field that holds a string, [null] or [undefined]. *)
Definition falsy (v : option string) : bool :=
  match v with
  | None => true
  | Some "" => true
  | Some _ => false
  end.

(** A value inside a template literal. *)
Definition interpolate (v : option string) : string :=
  match v with Some t => t | None => "undefined" end.

Definition ORDER_PLACED_NO_NUMBER : string := "ORDER_PLACED_NO_NUMBER".
Definition DEFAULT_PICKUP_TIME : string := "30-40 minutes".

(** The three extraction blocks of [extractConfirmationDetails], run on the
    text of the page. *)
Definition extractOrderNumber (pageText : string) (r : OrderResult) :=
  let r1 := match first_match orderNumberPatterns pageText with
            | Some m => set_confirmationNumber (group 1 m) r
            | None => r
            end in
  if falsy (confirmationNumber r1)
  then set_confirmationNumber (Some ORDER_PLACED_NO_NUMBER) r1 else r1.

Definition extractPickupTime (pageText : string) (r : OrderResult) :=
  let r1 := match first_match pickupPatterns pageText with
            | Some m => set_estimatedPickupTime (group 1 m) r
            | None => r
            end in
  if falsy (estimatedPickupTime r1)
  then set_estimatedPickupTime (Some DEFAULT_PICKUP_TIME) r1 else r1.

Definition extractTotal (pageText : string) (r : OrderResult) :=
  match first_match totalPatterns pageText with
  | Some m => set_totalAmount (Some ("$" ++ interpolate (group 1 m))) r
  | None => r
  end.

Definition extractFields (pageText : string) (r : OrderResult) : OrderResult :=
  extractTotal pageText (extractPickupTime pageText (extractOrderNumber pageText r)).

(** ** The browser

    Every [await] on the browser is a call whose outcome the browser decides:
    a value, or a thrown error (its message).  The page functions given to
    [page.evaluate] and the selectors given to [page.$] and [page.click] are
    named by what the source makes them do; [Timestamp] is the reading of
    the clock in [takeScreenshot].  Console output is not modelled. *)

Definition Handle : Type := nat.

(** Page functions that click something (or throw when it is not there). *)
Inductive ClickScript : Type :=
| ClickItemContaining (itemName : string)  (* findAndClickItem, method 2 *)
| ClickModifier (modText : string)         (* handleItemModal *)
| ClickPlus                                (* handleItemModal, quantity *)
| ClickAddToCartText                       (* clickAddToCart, method 1 *)
| ClickCheckoutButton                      (* clickCheckout *)
| ClickContinueAsGuest                     (* continueAsGuest *)
| ClickSubmitGuest                         (* submitGuestForm *)
| SelectCash                               (* verifyPaymentMethod *)
| ClickPlaceOrder.                         (* placeOrderFinal *)

Inductive HandleScript : Type :=
| FindItemExact (itemName : string)        (* findAndClickItem, method 1 *)
| FindRegularButton.                       (* handleItemModal *)

Inductive BoolScript : Type :=
| HasRequiredSelection                     (* handleItemModal *)
| CashSelected.                            (* verifyPaymentMethod *)

(** The selectors of [page.$]: the four placeholder selectors of the guest
    form and the selector of the pickup notes. *)
Inductive Selector : Type :=
| FirstNameInput | LastNameInput | EmailInput | PhoneInput | NotesField.

(** [addButtonSelectors], in the order of the array. *)
Inductive AddButtonSelector : Type :=
| ClassAddToCart | ClassAddToCartCamel | DotAddButton | ButtonTeal
| ButtonSubmit.

Definition addButtonSelectors : list AddButtonSelector :=
  [ClassAddToCart; ClassAddToCartCamel; DotAddButton; ButtonTeal; ButtonSubmit].

Inductive WaitCondition : Type :=
| CheckoutPageMarker      (* 'Checkout' or 'Payment Details' in the body *)
| ConfirmationMarker.     (* 'Order Placed' or 'Order Confirmed' *)

Inductive Call : Type -> Type :=
| Launch : Call unit
| NewPage : Call unit
| SetViewport (width height : N) : Call unit
| SetUserAgent (userAgent : string) : Call unit
| Goto (url : string) (timeout : N) : Call unit
| WaitForTimeout (ms : N) : Call unit
| Evaluate (script : ClickScript) : Call unit
| EvaluateBool (script : BoolScript) : Call bool
| EvaluateHandle (script : HandleScript) : Call Handle
| BodyText : Call string
| XPath (xpath : string) : Call (list Handle)
| Query (selector : Selector) : Call (option Handle)
| ClickHandle (h : Handle) : Call unit
| TypeInto (h : Handle) (text : string) (delay : N) : Call unit
| ClickSelector (selector : AddButtonSelector) : Call unit
| WaitForFunction (condition : WaitCondition) (timeout : N) : Call unit
| Screenshot : Call string
| Timestamp : Call string
| Pages : Call nat
| Content : Call string
| Close : Call unit.

(** What a computation comes to: a value, a thrown error or, where [X] has
    an element, neither of them. *)
Inductive outcome_of (X A : Type) : Type :=
| Ok (a : A)
| Throw (message : string)
| Neither (x : X).
Arguments Ok {X A} a.
Arguments Throw {X A} message.
Arguments Neither {X A} x.

(** An [await] on the browser settles: it gives a value or throws. *)
Abbreviation outcome := (outcome_of Empty_set).

(** A run of the pipeline may do neither: the quantity loop of
    [handleItemModal] has no bound when the quantity is above 2^53, and
    [Running] says that this loop was still going when the run was left. *)
Inductive Endless : Type := StillRunning.
Abbreviation progress := (outcome_of Endless).
Abbreviation Running := (Neither StillRunning).

Definition settled {A} (answer : outcome A) : progress A :=
  match answer with
  | Ok a => Ok a
  | Throw message => Throw message
  | Neither x => match x with end
  end.

(** A call together with what the browser answered. *)
Inductive Entry : Type :=
| Did {T : Type} (call : Call T) (answer : outcome T).

(** The state threaded through the pipeline: the browser, the calls made so
    far (most recent first) and the [orderResult] object that every stage
    receives by reference. *)
Record State (W : Type) : Type := mkState {
  world : W;
  log : list Entry;
  result : OrderResult
}.
Arguments mkState {W} world log result.
Arguments world {W} s.
Arguments log {W} s.
Arguments result {W} s.

(** Computations that may throw; the state survives a throw.  Nothing
    follows a computation that is still running, and no [catch] sees it. *)
Definition M (W A : Type) : Type := State W -> progress A * State W.

Definition ret {W A} (a : A) : M W A := fun st => (Ok a, st).
Definition throw {W A} (message : string) : M W A := fun st => (Throw message, st).
Definition bind {W A B} (m : M W A) (f : A -> M W B) : M W B :=
  fun st =>
    match m st with
    | (Ok a, st') => f a st'
    | (Throw message, st') => (Throw message, st')
    | (Neither x, st') => (Neither x, st')
    end.
Definition try_catch {W A} (m : M W A) (handler : string -> M W A) : M W A :=
  fun st =>
    match m st with
    | (Ok a, st') => (Ok a, st')
    | (Throw message, st') => handler message st'
    | (Neither x, st') => (Neither x, st')
    end.
Definition modify_result {W} (f : OrderResult -> OrderResult) : M W unit :=
  fun st => (Ok tt, mkState (world st) (log st) (f (result st))).
Definition get_result {W} : M W OrderResult :=
  fun st => (Ok (result st), st).

Notation "x <- m ;; k" := (bind m (fun x => k))
  (at level 61, m at next level, right associativity).
Notation "m ;; k" := (bind m (fun _ => k))
  (at level 61, right associativity).

Fixpoint for_each {W A} (body : A -> M W unit) (l : list A) : M W unit :=
  match l with
  | [] => ret tt
  | x :: l' => body x ;; for_each body l'
  end.

Section Pipeline.

Context {W : Type}.
(** The browser: how it answers a call, and what it becomes. *)
Variable browser : forall T, Call T -> W -> outcome T * W.

Definition call {T} (c : Call T) : M W T :=
  fun st =>
    let (answer, w') := browser T c (world st) in
    (settled answer, mkState w' (Did c answer :: log st) (result st)).

(** [takeScreenshot] *)
Definition takeScreenshot (name : string) : M W unit :=
  if negb (screenshotOnError CONFIG) then ret tt
  else
    try_catch
      (screenshot <- call Screenshot ;;
       timestamp <- call Timestamp ;;
       modify_result (push_screenshot (mkSnapshot name screenshot timestamp)))
      (fun _ => ret tt).

(** [findAndClickItem]: three methods, the failure of one leads to the
    next.  A handle returned by [evaluateHandle] is an object, so the test
    [if (itemButton)] of the source always passes. *)
Definition findAndClickItem (item : ParsedLineItem) : M W unit :=
  found1 <- try_catch
              (itemButton <- call (EvaluateHandle (FindItemExact (name item))) ;;
               call (ClickHandle itemButton) ;;
               ret true)
              (fun _ => ret false) ;;
  if found1 then ret tt else
  found2 <- try_catch
              (call (Evaluate (ClickItemContaining (name item))) ;; ret true)
              (fun _ => ret false) ;;
  if found2 then ret tt else
  found3 <- try_catch
              (elements <- call (XPath
                 ("//*[contains(translate(text(), 'ABCDEFGHIJKLMNOPQRSTUVWXYZ', 'abcdefghijklmnopqrstuvwxyz'), '"
                  ++ toLowerCase (name item) ++ "')]")) ;;
               match elements with
               | first :: _ => call (ClickHandle first) ;; ret true
               | [] => ret false
               end)
              (fun _ => ret false) ;;
  if found3 then ret tt else
  throw ("Could not find menu item: " ++ name item).

(** The quantity loop of [handleItemModal],
    [for (let i = 1; i < item.quantity; i++)], with [n] iterations to go:
    a click on "+" and a wait, given up at the first one that throws. *)
Fixpoint increaseQuantity (n : nat) : M W unit :=
  match n with
  | O => ret tt
  | S n' =>
      continue <- try_catch
                    (call (Evaluate ClickPlus) ;;
                     call (WaitForTimeout 500) ;;
                     ret true)
                    (fun _ => ret false) ;;
      if continue then increaseQuantity n' else ret tt
  end.

(** The number of iterations that the test [i < quantity] of this loop
    allows.  The counter [i] is a double: it goes up by one as far as 2^53
    and stays there, since 2^53 + 1 is rounded back to 2^53.  So a quantity
    up to 2^53 allows (quantity - 1) iterations, and a quantity above 2^53
    any number of them. *)
Definition loopBound (q : number) : option nat :=
  match q with
  | Finite n => if (n <=? 2 ^ 53)%N then Some (N.to_nat (n - 1)) else None
  | Infinity => None
  end.

(** How long a loop without a bound is followed: [fuel] iterations. *)
Variable fuel : nat.

(** The same loop when the test always holds: only a throw ends it; after
    [n] iterations it is left running. *)
Fixpoint increaseForEver (n : nat) : M W unit :=
  match n with
  | O => fun st => (Running, st)
  | S n' =>
      continue <- try_catch
                    (call (Evaluate ClickPlus) ;;
                     call (WaitForTimeout 500) ;;
                     ret true)
                    (fun _ => ret false) ;;
      if continue then increaseForEver n' else ret tt
  end.

(** [handleItemModal] *)
Definition handleItemModal (item : ParsedLineItem) : M W unit :=
  hasRequiredSelection <- call (EvaluateBool HasRequiredSelection) ;;
  (if hasRequiredSelection then
     try_catch
       (regularButton <- call (EvaluateHandle FindRegularButton) ;;
        call (ClickHandle regularButton) ;;
        call (WaitForTimeout 500))
       (fun _ => ret tt)
   else ret tt) ;;
  for_each
    (fun modText =>
       try_catch
         (call (Evaluate (ClickModifier modText)) ;; call (WaitForTimeout 500))
         (fun _ => ret tt))
    (modifications item) ;;
  (if num_ltb 1 (quantity item)
   then match loopBound (quantity item) with
        | Some n => increaseQuantity n
        | None => increaseForEver fuel
        end
   else ret tt).

(** The selector loop of [clickAddToCart]: the first selector whose click
    works ends the function. *)
Fixpoint clickFirstSelector (selectors : list AddButtonSelector) : M W unit :=
  match selectors with
  | [] => throw "Could not find Add to Cart button"
  | selector :: rest =>
      clicked <- try_catch (call (ClickSelector selector) ;; ret true)
                   (fun _ => ret false) ;;
      if clicked then ret tt else clickFirstSelector rest
  end.

(** [clickAddToCart] *)
Definition clickAddToCart : M W unit :=
  try_catch (call (Evaluate ClickAddToCartText))
    (fun _ => clickFirstSelector addButtonSelectors).

(** The [try] block of the loop body of [addItemsToCart]. *)
Definition addItemSteps (item : ParsedLineItem) : M W unit :=
  findAndClickItem item ;;
  call (WaitForTimeout 2000) ;;
  handleItemModal item ;;
  clickAddToCart ;;
  call (WaitForTimeout 1500).

(** The loop body of [addItemsToCart] with its [catch]. *)
Definition addItem (item : ParsedLineItem) : M W unit :=
  try_catch (addItemSteps item)
    (fun message =>
       throw ("Failed to add " ++ name item ++ " to cart: " ++ message)).

(** The [for] loop of [addItemsToCart]. *)
Definition addItems (items : list ParsedLineItem) : M W unit :=
  for_each addItem items.

(** [addItemsToCart] *)
Definition addItemsToCart (orderItems : string) : M W unit :=
  addItems (parseOrderItems orderItems).

(** [clickCheckout] *)
Definition clickCheckout : M W unit :=
  call (WaitForTimeout 1000) ;;
  try_catch
    (call (Evaluate ClickCheckoutButton) ;; call (WaitForTimeout 2000))
    (fun message => throw ("Failed to click checkout: " ++ message)).

(** [continueAsGuest] *)
Definition continueAsGuest : M W unit :=
  call (WaitForTimeout 1000) ;;
  try_catch
    (call (Evaluate ClickContinueAsGuest) ;; call (WaitForTimeout 2000))
    (fun message => throw ("Failed to continue as guest: " ++ message)).

(** One field of the guest form: find it, click it, type into it. *)
Definition fillField (selector : Selector) (missing text : string) : M W unit :=
  input <- call (Query selector) ;;
  match input with
  | None => throw missing
  | Some h => call (ClickHandle h) ;; call (TypeInto h text 50)
  end.

(** [fillGuestInfo] *)
Definition fillGuestInfo (customerName customerPhone : string) : M W unit :=
  let firstName := guestFirstName customerName in
  let lastName := guestLastName in
  let cleanPhone := guestPhone customerPhone in
  try_catch
    (fillField FirstNameInput "First name field not found" firstName ;;
     fillField LastNameInput "Last name field not found" lastName ;;
     fillField EmailInput "Email field not found" (botEmail CONFIG) ;;
     fillField PhoneInput "Phone field not found" cleanPhone)
    (fun message => throw ("Failed to fill guest info: " ++ message)).

(** [submitGuestForm] *)
Definition submitGuestForm : M W unit :=
  call (WaitForTimeout 1000) ;;
  try_catch
    (call (Evaluate ClickSubmitGuest) ;;
     call (WaitForTimeout 3000) ;;
     call (WaitForFunction CheckoutPageMarker 10000))
    (fun message => throw ("Failed to submit guest form: " ++ message)).

(** [addPickupNotes] *)
Definition addPickupNotes (instructions : string) : M W unit :=
  try_catch
    (notesField <- call (Query NotesField) ;;
     match notesField with
     | Some h => call (ClickHandle h) ;; call (TypeInto h instructions 50)
     | None => ret tt
     end)
    (fun _ => ret tt).

(** [verifyPaymentMethod] *)
Definition verifyPaymentMethod : M W unit :=
  try_catch
    (cashSelected <- call (EvaluateBool CashSelected) ;;
     if negb cashSelected
     then call (Evaluate SelectCash) ;; call (WaitForTimeout 500)
     else ret tt)
    (fun _ => ret tt).

(** [placeOrderFinal] *)
Definition placeOrderFinal : M W unit :=
  try_catch
    (call (Evaluate ClickPlaceOrder) ;;
     call (WaitForFunction ConfirmationMarker 15000))
    (fun message => throw ("Failed to place order: " ++ message)).

(** [extractConfirmationDetails] *)
Definition extractConfirmationDetails : M W unit :=
  try_catch
    (pageText <- call BodyText ;;
     modify_result (extractFields pageText))
    (fun _ => ret tt).

Record OrderData : Type := mkOrder {
  order_items : string;
  customer_name : string;
  customer_phone : string;
  pickup_time : string;
  special_instructions : option string
}.

(** Step 7: the notes are added when
    [special_instructions && special_instructions.trim() !== ''] holds. *)
Definition addNotesIfAny (instructions : option string) : M W unit :=
  match instructions with
  | Some text =>
      if negb (falsy (Some text)) && negb (String.eqb (trim text) "")
      then addPickupNotes text
      else ret tt
  | None => ret tt
  end.

Definition userAgent : string :=
  "Mozilla/5.0 (Macintosh; Intel Mac OS X 10_15_7) AppleWebKit/537.36 (KHTML, like Gecko) Chrome/120.0.0.0 Safari/537.36".

(** Steps 1 to 9 of [placeOrder], from [browser.newPage()] to the screenshot
    of the confirmation page. *)
Definition stagesBeforeExtraction (orderData : OrderData) : M W unit :=
  call NewPage ;;
  call (SetViewport 1920 1080) ;;
  call (SetUserAgent userAgent) ;;
  call (Goto (restaurantURL CONFIG) (timeout CONFIG)) ;;
  call (WaitForTimeout 3000) ;;
  takeScreenshot "01-homepage" ;;
  addItemsToCart (order_items orderData) ;;
  takeScreenshot "02-cart-filled" ;;
  clickCheckout ;;
  takeScreenshot "03-checkout-modal" ;;
  continueAsGuest ;;
  takeScreenshot "04-guest-form" ;;
  fillGuestInfo (customer_name orderData) (customer_phone orderData) ;;
  takeScreenshot "05-guest-info-filled" ;;
  submitGuestForm ;;
  takeScreenshot "06-final-checkout" ;;
  addNotesIfAny (special_instructions orderData) ;;
  verifyPaymentMethod ;;
  takeScreenshot "07-before-submit" ;;
  placeOrderFinal ;;
  call (WaitForTimeout 3000) ;;
  takeScreenshot "08-confirmation".

(** The [try] block of [placeOrder] after the launch of the browser. *)
Definition afterLaunch (orderData : OrderData) : M W unit :=
  stagesBeforeExtraction orderData ;;
  extractConfirmationDetails ;;
  modify_result (set_success true).

(** The [catch] block of [placeOrder]; [launched] tells whether [browser]
    was assigned. *)
Definition onError (launched : bool) (message : string) : M W unit :=
  modify_result (set_error (Some message)) ;;
  if launched && screenshotOnError CONFIG then
    try_catch
      (pages <- call Pages ;;
       if (0 <? pages)%nat then
         takeScreenshot "99-error-state" ;;
         html <- call Content ;;
         modify_result (set_errorPageHTML (Some (substring2 0 5000 html)))
       else ret tt)
      (fun _ => ret tt)
  else ret tt.

(** [placeOrder]: the [try] block is the launch followed by [afterLaunch];
    the [finally] block closes the browser when it was launched, and an error
    thrown there leaves [placeOrder] without a result. *)
Definition placeOrder (orderData : OrderData) : M W OrderResult :=
  modify_result (fun _ => initialResult) ;;
  launched <- try_catch (call Launch ;; ret true)
                (fun message => onError false message ;; ret false) ;;
  (if launched
   then try_catch (afterLaunch orderData) (onError true) ;; call Close
   else ret tt) ;;
  get_result.

End Pipeline.

(** A browser in which every call succeeds: no element is missing, every
    text is empty. *)
Definition default_answer (T : Type) (c : Call T) : T :=
  match c in Call T0 return T0 with
  | Launch | NewPage | SetViewport _ _ | SetUserAgent _ | Goto _ _
  | WaitForTimeout _ | Evaluate _ | ClickHandle _ | TypeInto _ _ _
  | ClickSelector _ | WaitForFunction _ _ | Close => tt
  | EvaluateBool _ => true
  | EvaluateHandle _ => 0
  | BodyText | Screenshot | Timestamp | Content => ""
  | XPath _ => [0]
  | Query _ => Some 0
  | Pages => 1
  end.

Definition smoothBrowser (T : Type) (c : Call T) (w : unit) : outcome T * unit :=
  (Ok (default_answer T c), w).

(** The state before a run: nothing logged yet. *)
Definition start {W} (w : W) : State W := mkState w [] initialResult.

(** [testOrder], the example order at the end of the source file. *)
Definition testOrder : OrderData :=
  {| order_items := "bruschetta";
     customer_name := "John Smith";
     customer_phone := "4165551234";
     pickup_time := "ASAP";
     special_instructions := Some "Extra napkins please" |}.


(** ** Vocabulary of the statements *)

(** What a greedy star over one character class does: the longest run
    first, then one character less at a time. *)
Fixpoint greedy (p : ascii -> bool) (k : cont) (b : option ascii) (s : string)
    (cs : captures) : answer :=
  match s with
  | String a s' =>
      if p a then
        match greedy p k (Some a) s' cs with
        | Some res => Some res
        | None => k (mkCursor b s) cs
        end
      else k (mkCursor b s) cs
  | "" => k (mkCursor b "") cs
  end.

(** The character before the position reached by skipping a run. *)
Fixpoint behind_after (p : ascii -> bool) (b : option ascii) (s : string)
  : option ascii :=
  match s with
  | String a s' => if p a then behind_after p (Some a) s' else b
  | "" => b
  end.

(** The number of occurrences of a character in a string. *)
Fixpoint count_char (c : ascii) (s : string) : nat :=
  match s with
  | "" => 0
  | String a s' => (if Ascii.eqb a c then 1 else 0) + count_char c s'
  end.

(** The value of the integer token a segment starts with, when white
    space follows the token. *)
Definition leading_count (s : string) : option N :=
  match take_while is_digit s, drop_while is_digit s with
  | String d ds, String w _ =>
      if is_space w then Some (digits_value 0 (String d ds)) else None
  | _, _ => None
  end.

(** [n] times the character [c]. *)
Fixpoint str_repeat (c : ascii) (n : nat) : string :=
  match n with
  | O => ""
  | S n' => String c (str_repeat c n')
  end.

(** The canonical item names. *)
Definition canonicalVocabulary : list string :=
  ["Bruschetta"; "1lb Wings"; "2lb Wings"; "Quesadilla"; "Angus Burger";
   "Caesar Salad"; "Garlic Bread W/cheese"].

(** The first token of a string when white space delimits tokens. *)
Definition first_token (s : string) : string :=
  take_while (fun c => negb (is_space c)) (drop_while is_space s).

(** The words of a text, in order: its maximal runs of word characters
    (letters, digits and the underscore, as for [\b]); [cur] is the word
    being read. *)
Fixpoint words_from (cur : string) (s : string) : list string :=
  match s with
  | "" => match cur with "" => [] | _ => [cur] end
  | String a s' =>
      if is_word a then words_from (cur ++ String a "") s'
      else match cur with
           | "" => words_from "" s'
           | _ => cur :: words_from "" s'
           end
  end.

Definition words (s : string) : list string := words_from "" s.

(** An uppercase letter followed by lowercase letters, at least one. *)
Definition capitalized (w : string) : bool :=
  match w with
  | String a (String b rest) =>
      is_upper a && is_lower b && str_forall is_lower rest
  | _ => false
  end.

Definition first_capitalized_word (s : string) : option string :=
  find capitalized (words s).

(** The item names looked up by the first method of [findAndClickItem], in
    a list of log entries. *)
Definition attempted_name (e : Entry) : list string :=
  match e with
  | Did c _ =>
      match c with
      | EvaluateHandle (FindItemExact itemName) => [itemName]
      | _ => []
      end
  end.

Definition attempted_names (entries : list Entry) : list string :=
  flat_map attempted_name entries.

(** The page text returned by the most recent [BodyText] call of a log
    (most recent first), when that call returned one. *)
Definition body_text_of (e : Entry) : option (option string) :=
  match e with
  | Did c answer =>
      match c in Call T return outcome T -> option (option string) with
      | BodyText =>
          fun a => Some (match a with Ok text => Some text | _ => None end)
      | _ => fun _ => None
      end answer
  end.

Fixpoint page_text (entries : list Entry) : option string :=
  match entries with
  | [] => None
  | e :: rest =>
      match body_text_of e with
      | Some answer => answer
      | None => page_text rest
      end
  end.

Definition is_body_text {T} (c : Call T) : bool :=
  match c with BodyText => true | _ => false end.

(** A browser in which every call succeeds and the page has the given text. *)
Definition pageBrowser (text : string) (T : Type) (c : Call T) (w : unit)
  : outcome T * unit :=
  match c in Call T0 return outcome T0 * unit with
  | BodyText => (Ok text, w)
  | c0 => smoothBrowser _ c0 w
  end.

(** A browser in which every call succeeds except the reading of the page
    text. *)
Definition unreadablePage (T : Type) (c : Call T) (w : unit)
  : outcome T * unit :=
  if is_body_text c then (Throw "Execution context was destroyed", w)
  else smoothBrowser T c w.

(** The item name (or the XPath built from it) carried by a call of
    [findAndClickItem]. *)
Definition is_item_call {T} (c : Call T) : option string :=
  match c with
  | EvaluateHandle (FindItemExact n) => Some n
  | Evaluate (ClickItemContaining n) => Some n
  | XPath x => Some x
  | _ => None
  end.

(** A browser in which no menu item whose name has "pizza" in it can be
    found, and everything else succeeds. *)
Definition noPizzaBrowser (T : Type) (c : Call T) (w : unit)
  : outcome T * unit :=
  match is_item_call c with
  | Some n =>
      if includes "pizza" (toLowerCase n) then (Throw "Item not found", w)
      else smoothBrowser T c w
  | None => smoothBrowser T c w
  end.

(** [keeps f m]: running [m] does not change what [f] reads in the result
    object. *)
Definition keeps {W X A} (f : OrderResult -> X) (m : M W A) : Prop :=
  forall st, f (result (snd (m st))) = f (result st).

(** [quiet m]: running [m] adds log entries, none of which is a look-up of
    a menu item by its exact name. *)
Definition quiet {W A} (m : M W A) : Prop :=
  forall st, exists new,
    log (snd (m st)) = (new ++ log st)%list /\ attempted_names new = [].

(** [attempts names m]: the menu items that [m] looks up by exact name are
    [names], most recent first. *)
Definition attempts {W A} (names : list string) (m : M W A) : Prop :=
  forall st, exists new,
    log (snd (m st)) = (new ++ log st)%list /\ attempted_names new = names.

(** ** The HTTP wrapper ([server.js], the [/place-order] handler) *)

(** The JSON body of a request; a field that is present holds a string. *)
Record RequestBody : Type := mkBody {
  body_order_items : option string;
  body_customer_name : option string;
  body_customer_phone : option string;
  body_pickup_time : option string;
  body_special_instructions : option string
}.

(** What [res.json] sends: the order result, or
    [{ success: false, error: ... }]. *)
Inductive ResponseBody : Type :=
| ResultBody (r : OrderResult)
| FailureBody (error : string).

Record Response : Type := mkResponse { status : N; payload : ResponseBody }.

(** [v || fallback] *)
Definition or_default (v : option string) (fallback : string) : string :=
  match v with
  | Some (String a s) => String a s
  | _ => fallback
  end.

Definition MISSING_FIELDS : string :=
  "Missing required fields: order_items, customer_name, customer_phone".

Section Server.

Context {W : Type}.
Variable browser : forall T, Call T -> W -> outcome T * W.
Variable fuel : nat.

(** The handler of [POST /place-order]: the fields are read with their
    defaults, the three required ones are checked, and the answer is the
    result of [placeOrder] (status 200), or the message of what it threw
    (status 500; the [stack] sent with it is left out, as in
    [OrderResult]). *)
Definition handlePlaceOrder (body : RequestBody) : M W Response :=
  let pickup := or_default (body_pickup_time body) "ASAP" in
  let instructions := or_default (body_special_instructions body) "" in
  match body_order_items body, body_customer_name body,
        body_customer_phone body with
  | Some items, Some customer, Some phone =>
      if falsy (Some items) || falsy (Some customer) || falsy (Some phone)
      then ret (mkResponse 400 (FailureBody MISSING_FIELDS))
      else
        try_catch
          (r <- placeOrder browser fuel
                  (mkOrder items customer phone pickup (Some instructions)) ;;
           ret (mkResponse 200 (ResultBody r)))
          (fun message => ret (mkResponse 500 (FailureBody message)))
  | _, _, _ => ret (mkResponse 400 (FailureBody MISSING_FIELDS))
  end.

End Server.

(** One of the three required fields is absent or empty, and the order
    that the handler hands to [placeOrder] otherwise. *)
Definition required_missing (body : RequestBody) : bool :=
  falsy (body_order_items body) || falsy (body_customer_name body)
  || falsy (body_customer_phone body).

Definition orderDataOf (body : RequestBody) : OrderData :=
  {| order_items := or_default (body_order_items body) "";
     customer_name := or_default (body_customer_name body) "";
     customer_phone := or_default (body_customer_phone body) "";
     pickup_time := or_default (body_pickup_time body) "ASAP";
     special_instructions :=
       Some (or_default (body_special_instructions body) "") |}.

Definition with_pickup_time (t : option string) (body : RequestBody)
  : RequestBody :=
  {| body_order_items := body_order_items body;
     body_customer_name := body_customer_name body;
     body_customer_phone := body_customer_phone body;
     body_pickup_time := t;
     body_special_instructions := body_special_instructions body |}.

(** ** More vocabulary *)

(** [safe m]: [m] never throws. *)
Definition safe {W A} (m : M W A) : Prop :=
  forall st, exists a, fst (m st) = Ok a.

(** [settles m]: [m] is never left running: it gives a value or throws. *)
Definition settles {W A} (m : M W A) : Prop :=
  forall st x, fst (m st) <> Neither x.

(** [silent proj m]: running [m] adds log entries, none of which [proj]
    picks. *)
Definition silent {W A X} (proj : Entry -> list X) (m : M W A) : Prop :=
  forall st, exists new,
    log (snd (m st)) = (new ++ log st)%list /\ flat_map proj new = [].

(** The clicks on "+" (with whether they worked), the calls of
    [browser.close()] and the queries of the notes field in a log. *)
Definition plus_click (e : Entry) : list bool :=
  match e with
  | Did c answer =>
      match c in Call T return outcome T -> list bool with
      | Evaluate ClickPlus =>
          fun a => [match a with Ok _ => true | _ => false end]
      | _ => fun _ => []
      end answer
  end.

(** The ways in which [clickAddToCart] looks for the button: by its text
    ([None]), then by the selectors of [addButtonSelectors]. *)
Definition cartMethods : list (option AddButtonSelector) :=
  None :: map Some addButtonSelectors.

(** The clicks of [clickAddToCart] in a log: the method, and whether the
    click worked. *)
Definition cart_click (e : Entry) : list (option AddButtonSelector * bool) :=
  match e with
  | Did c answer =>
      match c in Call T
            return outcome T -> list (option AddButtonSelector * bool) with
      | Evaluate ClickAddToCartText =>
          fun a => [(None, match a with Ok _ => true | _ => false end)]
      | ClickSelector s =>
          fun a => [(Some s, match a with Ok _ => true | _ => false end)]
      | _ => fun _ => []
      end answer
  end.

Definition failed (method : option AddButtonSelector)
  : option AddButtonSelector * bool := (method, false).

Definition close_call (e : Entry) : list unit :=
  match e with
  | Did c _ => match c with Close => [tt] | _ => [] end
  end.

Definition notes_query (e : Entry) : list unit :=
  match e with
  | Did c _ => match c with Query NotesField => [tt] | _ => [] end
  end.


(** The modifiers clicked, as given to the page function. *)
Definition modifier_click (e : Entry) : list string :=
  match e with
  | Did c _ => match c with Evaluate (ClickModifier m) => [m] | _ => [] end
  end.

(** [clicks_at_most n m]: the clicks on "+" that [m] makes are [k <= n]
    clicks that work, followed, when fewer than [n] have worked, by at most
    one click that fails. *)
Definition clicks_at_most {W A} (n : nat) (m : M W A) : Prop :=
  forall st, exists new k,
    log (snd (m st)) = (new ++ log st)%list /\
    k <= n /\
    (rev (flat_map plus_click new) = repeat true k \/
     (rev (flat_map plus_click new) = (repeat true k ++ [false])%list /\
      k < n)).

(** [still_clicking n m st]: started in [st], [m] is left running, and the
    clicks on "+" it has made are [n] clicks that worked. *)
Definition still_clicking {W A} (n : nat) (m : M W A) (st : State W) : Prop :=
  fst (m st) = Running /\
  exists new,
    log (snd (m st)) = (new ++ log st)%list /\
    flat_map plus_click new = repeat true n.

(** [l1] is [l2] with some elements left out. *)
Inductive Subseq {A : Type} : list A -> list A -> Prop :=
| Subseq_nil : forall l, Subseq [] l
| Subseq_take : forall x l1 l2, Subseq l1 l2 -> Subseq (x :: l1) (x :: l2)
| Subseq_skip : forall x l1 l2, Subseq l1 l2 -> Subseq l1 (x :: l2).

(** [snaps labels m]: the screenshots that [m] adds to the result come after
    the ones already there, and their names are among [labels], in that
    order. *)
Definition snaps {W A} (labels : list string) (m : M W A) : Prop :=
  forall st, exists added,
    screenshots (result (snd (m st)))
    = (screenshots (result st) ++ added)%list /\
    Subseq (map snap_name added) labels.

Definition stageLabels : list string :=
  ["01-homepage"; "02-cart-filled"; "03-checkout-modal"; "04-guest-form";
   "05-guest-info-filled"; "06-final-checkout"; "07-before-submit";
   "08-confirmation"].

(** [special_instructions] is absent, empty or blank: step 7 is skipped. *)
Definition noInstructions (v : option string) : bool :=
  match v with
  | Some text => falsy (Some text) || String.eqb (trim text) ""
  | None => true
  end.



(** The texts typed, each with the element it was typed into, and the
    elements that [page.$] found, each with its selector, in a log. *)
Definition typed_into (e : Entry) : list (Handle * string) :=
  match e with
  | Did c _ => match c with TypeInto h text _ => [(h, text)] | _ => [] end
  end.

Definition found_field (e : Entry) : list (Selector * Handle) :=
  match e with
  | Did c answer =>
      match c in Call T return outcome T -> list (Selector * Handle) with
      | Query s =>
          fun a => match a with Ok (Some h) => [(s, h)] | _ => [] end
      | _ => fun _ => []
      end answer
  end.

(** A name in which white space is the space character only, and which
    does not start with one. *)
Definition spaced_by_spaces (s : string) : bool :=
  str_forall (fun c => negb (is_space c) || Ascii.eqb c " ") s
  && match s with String c _ => negb (is_space c) | "" => true end.



(** A browser whose page has no "Checkout" button, and one whose page has
    no last-name field; everything else succeeds. *)
Definition noCheckoutBrowser (T : Type) (c : Call T) (w : unit)
  : outcome T * unit :=
  match c in Call T0 return outcome T0 * unit with
  | Evaluate ClickCheckoutButton => (Throw "Checkout button not found", w)
  | c0 => smoothBrowser _ c0 w
  end.



(** What a pattern can match: the characters it can consume, the least
    number of characters a match of it consumes, and whether a match of it
    is sure to go through capture group [n]. *)
Fixpoint chars_of (r : regex) (a : ascii) : bool :=
  match r with
  | Chr p => p a
  | Cat r1 r2 => chars_of r1 a || chars_of r2 a
  | Or r1 r2 => chars_of r1 a || chars_of r2 a
  | Star r1 => chars_of r1 a
  | Group _ r1 => chars_of r1 a
  | _ => false
  end.

Fixpoint min_len (r : regex) : nat :=
  match r with
  | Chr _ => 1
  | Cat r1 r2 => min_len r1 + min_len r2
  | Or r1 r2 => Nat.min (min_len r1) (min_len r2)
  | Group _ r1 => min_len r1
  | _ => 0
  end.

Fixpoint binds (n : nat) (r : regex) : bool :=
  match r with
  | Cat r1 r2 => binds n r1 || binds n r2
  | Or r1 r2 => binds n r1 && binds n r2
  | Group m r1 => Nat.eqb m n || binds n r1
  | _ => false
  end.

(** The text between two positions of a match of [r]. *)
Definition spans (r : regex) (c c' : cursor) : Prop :=
  exists u, ahead c = u ++ ahead c' /\
            str_forall (chars_of r) u = true /\ min_len r <= length u.

(** [groups_ok Q r]: whatever a capture group [n] of [r] can match
    satisfies [Q n]. *)
Fixpoint groups_ok (Q : nat -> string -> Prop) (r : regex) : Prop :=
  match r with
  | Cat r1 r2 => groups_ok Q r1 /\ groups_ok Q r2
  | Or r1 r2 => groups_ok Q r1 /\ groups_ok Q r2
  | Star r1 => groups_ok Q r1
  | Group n r1 =>
      groups_ok Q r1 /\
      forall u, str_forall (chars_of r1) u = true -> min_len r1 <= length u ->
                Q n u
  | _ => True
  end.

Definition captured (Q : nat -> string -> Prop) (cs : captures) : Prop :=
  Forall (fun mv => Q (fst mv) (snd mv)) cs.

(** [/[\d,.]/], the characters of a captured amount *)
Definition is_amount_char (c : ascii) : bool :=
  is_digit c || Ascii.eqb c "," || Ascii.eqb c ".".

(** The captured order numbers and amounts: not empty, and made of
    letters, digits and dashes, or of digits, commas and periods. *)
Definition is_code (v : string) : Prop :=
  v <> "" /\ str_forall is_alnum_dash v = true.

Definition is_amount (v : string) : Prop :=
  v <> "" /\ str_forall is_amount_char v = true.

Fixpoint has_group (r : regex) : bool :=
  match r with
  | Cat r1 r2 => has_group r1 || has_group r2
  | Or r1 r2 => has_group r1 || has_group r2
  | Star r1 => has_group r1
  | Group _ _ => true
  | _ => false
  end.

(** An order for something the menu of [noPizzaBrowser] does not have. *)
Definition pizzaOrder : OrderData :=
  {| order_items := "2 pizzas";
     customer_name := "John Smith";
     customer_phone := "4165551234";
     pickup_time := "ASAP";
     special_instructions := Some "  " |}.
(** ** Numbers *)

Lemma round_double_exact (n : N) :
  (n <= 2 ^ 53)%N -> round_double n = Finite n.
Proof.
  intros Hn. unfold round_double.
  destruct (n <? 2 ^ 53)%N eqn:Hlt; [reflexivity|].
  apply N.ltb_ge in Hlt.
  assert (n = 2 ^ 53)%N as -> by lia.
  vm_compute. reflexivity.
Qed.

Lemma round_double_zero (n : N) : round_double n = Finite 0 -> n = 0%N.
Proof.
  unfold round_double.
  destruct (n <? 2 ^ 53)%N eqn:Hlt; [now intros [= ->]|].
  apply N.ltb_ge in Hlt.
  set (e := (N.log2 n - 52)%N).
  set (q := N.shiftr n e).
  cbv zeta.
  destruct (2 ^ 1024 <=? _)%N; [discriminate|].
  intros [= Hv]. exfalso.
  assert (Hpos : (0 < n)%N)
    by (assert (0 < 2 ^ 53)%N by reflexivity; lia).
  assert (Hq : (1 <= q)%N).
  { unfold q. rewrite N.shiftr_div_pow2.
    apply N.div_le_lower_bound; [apply N.pow_nonzero; lia|].
    rewrite N.mul_1_r.
    transitivity (2 ^ N.log2 n)%N; [|apply N.log2_spec; exact Hpos].
    apply N.pow_le_mono_r; [lia | unfold e; lia]. }
  rewrite N.shiftl_mul_pow2 in Hv.
  apply N.eq_mul_0 in Hv as [Hv | Hv].
  - destruct (_ || _) in Hv; lia.
  - revert Hv. apply N.pow_nonzero. lia.
Qed.

Lemma round_double_positive (n : N) :
  (1 <= n)%N -> num_leb 1 (round_double n) = true.
Proof.
  intros Hn. destruct (round_double n) as [v|] eqn:Hr; [|reflexivity].
  cbn [num_leb]. apply N.leb_le.
  destruct (N.eq_dec v 0) as [-> | Hv]; [|lia].
  apply round_double_zero in Hr. lia.
Qed.

(** ** Characters and strings *)

Ltac by_cases_on_char a :=
  destruct a as [[] [] [] [] [] [] [] []]; vm_compute;
  intros; try reflexivity; try discriminate; auto.

Lemma digit_not_space (a : ascii) : is_digit a = true -> is_space a = false.
Proof. by_cases_on_char a. Qed.

Lemma take_drop_while (p : ascii -> bool) (s : string) :
  take_while p s ++ drop_while p s = s.
Proof.
  induction s as [|a s IH]; simpl; [reflexivity|].
  destruct (p a); simpl; [now rewrite IH | reflexivity].
Qed.

Lemma length_drop_while_le (p : ascii -> bool) (s : string) :
  length (drop_while p s) <= length s.
Proof.
  induction s as [|a s IH]; simpl; [lia|].
  destruct (p a); simpl; lia.
Qed.

Lemma str_take_consumed (p : ascii -> bool) (s : string) :
  str_take (length s - length (drop_while p s)) s = take_while p s.
Proof.
  induction s as [|a s IH]; [reflexivity|].
  cbn [take_while drop_while]. destruct (p a) eqn:Hp.
  - pose proof (length_drop_while_le p s) as Hle.
    cbn [length].
    replace (S (length s) - length (drop_while p s))
      with (S (length s - length (drop_while p s))) by lia.
    cbn [str_take]. now rewrite IH.
  - now rewrite Nat.sub_diag.
Qed.

Lemma append_empty (s : string) : s ++ "" = s.
Proof. induction s as [|a s IH]; cbn; [reflexivity | now rewrite IH]. Qed.

Lemma append_assoc (s1 s2 s3 : string) : (s1 ++ s2) ++ s3 = s1 ++ (s2 ++ s3).
Proof. induction s1 as [|a s1 IH]; cbn; [reflexivity | now rewrite IH]. Qed.

Lemma str_take_drop (n : nat) (s : string) : str_take n s ++ str_drop n s = s.
Proof.
  revert s; induction n as [|n IH]; intros [|a s]; cbn; try reflexivity.
  now rewrite IH.
Qed.

Lemma toLowerCase_app (s t : string) :
  toLowerCase (s ++ t) = toLowerCase s ++ toLowerCase t.
Proof. induction s as [|a s IH]; cbn; [reflexivity | now rewrite IH]. Qed.

Lemma prefix_app (needle s t : string) :
  prefix needle s = true -> prefix needle (s ++ t) = true.
Proof.
  revert s; induction needle as [|x needle IH]; intros s.
  - intros _. now destruct (s ++ t).
  - destruct s as [|a s]; cbn; [discriminate|].
    destruct (ascii_dec x a); [apply IH | discriminate].
Qed.

Lemma includes_app_l (needle s t : string) :
  includes needle s = true -> includes needle (s ++ t) = true.
Proof.
  induction s as [|a s IH]; cbn [includes append].
  - rewrite orb_false_r. intros H.
    apply (prefix_app needle "" t) in H. cbn [append] in H.
    destruct t; cbn [includes]; now rewrite H.
  - destruct (prefix needle (String a s)) eqn:Hp.
    + intros _. apply (prefix_app needle _ t) in Hp. cbn [append] in Hp.
      now rewrite Hp.
    + cbn [orb]. intros H. rewrite (IH H). apply orb_true_r.
Qed.

Lemma includes_app_r (needle s t : string) :
  includes needle t = true -> includes needle (s ++ t) = true.
Proof.
  intros H. induction s as [|a s IH]; cbn [includes append]; [exact H|].
  rewrite IH. apply orb_true_r.
Qed.

(** A text that has the needle in one of its parts has it. *)
Lemma includes_part (needle pre v post : string) :
  includes needle (toLowerCase v) = true ->
  includes needle (toLowerCase (pre ++ v ++ post)) = true.
Proof.
  intros H. rewrite !toLowerCase_app.
  apply includes_app_r, includes_app_l, H.
Qed.

Lemma digits_value_take_while (s : string) (acc : N) :
  digits_value acc (take_while is_digit s) = digits_value acc s.
Proof.
  revert acc; induction s as [|a s IH]; intros acc; simpl; [reflexivity|].
  destruct (is_digit a) eqn:Hd; simpl; [|reflexivity].
  now rewrite Hd, IH.
Qed.

Lemma length_split_char (sep : ascii) (s : string) :
  List.length (split_char sep s) = S (count_char sep s).
Proof.
  induction s as [|a s IH]; simpl; [reflexivity|].
  destruct (Ascii.eqb a sep); simpl; [now rewrite IH|].
  destruct (split_char sep s); simpl in *; [discriminate | lia].
Qed.

Lemma split_char_head (sep : ascii) (s : string) :
  nth 0 (split_char sep s) "" = take_while (fun c => negb (Ascii.eqb c sep)) s.
Proof.
  induction s as [|a s IH]; simpl; [reflexivity|].
  destruct (Ascii.eqb a sep); simpl; [reflexivity|].
  destruct (split_char sep s) as [|seg segs]; simpl in *; now rewrite <- IH.
Qed.

Lemma indexOf_from_includes (needle s : string) (i : Z) :
  (0 <= i)%Z ->
  includes needle s = false -> indexOf_from needle s i = (-1)%Z.
Proof.
  revert i; induction s as [|a s IH]; intros i Hi;
    cbn [includes indexOf_from].
  - destruct (prefix needle ""); cbn [orb]; intros H;
      [discriminate H | reflexivity].
  - destruct (prefix needle (String a s)); cbn [orb]; intros H;
      [discriminate H|].
    apply IH; [lia | exact H].
Qed.

(** ** The matcher on a character class under a star *)

Lemma star_iter_chr (p : ascii -> bool) (k : cont) (s : string) :
  forall fuel b cs,
    length s <= fuel ->
    star_iter (rmatch (Chr p)) k fuel (mkCursor b s) cs = greedy p k b s cs.
Proof.
  induction s as [|a s IH]; intros fuel b cs Hfuel.
  - destruct fuel; reflexivity.
  - destruct fuel as [|fuel]; [simpl in Hfuel; lia|].
    simpl. destruct (p a); [|reflexivity].
    replace (length s <? S (length s))%nat with true
      by (symmetry; apply Nat.ltb_lt; lia).
    rewrite IH by (simpl in Hfuel; lia). reflexivity.
Qed.

Lemma rmatch_star_chr (p : ascii -> bool) (k : cont) (c : cursor)
    (cs : captures) :
  rmatch (Star (Chr p)) k c cs = greedy p k (behind c) (ahead c) cs.
Proof.
  destruct c as [b s]. simpl. apply star_iter_chr. lia.
Qed.

(** When the rest of the pattern cannot start with a character of the class,
    only the longest run can lead to a match. *)
Lemma greedy_longest (p : ascii -> bool) (k : cont)
    (Q : option ascii -> Prop) :
  (forall x, p x = true -> Q (Some x)) ->
  (forall b a s cs, Q b -> p a = true -> k (mkCursor b (String a s)) cs = None) ->
  forall s b cs,
    Q b ->
    greedy p k b s cs
    = k (mkCursor (behind_after p b s) (drop_while p s)) cs.
Proof.
  intros HQ Hk. induction s as [|a s IH]; intros b cs Hb; simpl.
  - reflexivity.
  - destruct (p a) eqn:Hp; [|reflexivity].
    rewrite IH by auto.
    destruct (k _ cs) eqn:Hres; [reflexivity|].
    now apply Hk.
Qed.

(** Whatever a star does, a match goes through the rest of the pattern, at
    a later position of the same text. *)
Lemma greedy_some (p : ascii -> bool) (k : cont) (s : string) :
  forall b cs res,
    greedy p k b s cs = Some res ->
    exists b' pre s', s = pre ++ s' /\ k (mkCursor b' s') cs = Some res.
Proof.
  induction s as [|a s IH]; intros b cs res; cbn [greedy].
  - intros H. now exists b, "", "".
  - destruct (p a); [|intros H; now exists b, "", (String a s)].
    destruct (greedy p k (Some a) s cs) eqn:Hg.
    + intros H; injection H as <-.
      apply IH in Hg as (b' & pre & s' & -> & Hk).
      now exists b', (String a pre), s'.
    + intros H. now exists b, "", (String a s).
Qed.

Lemma star_iter_class (p : ascii -> bool) (k : cont) (s : string)
    (fuel : nat) (b : option ascii) (cs : captures) :
  length s <= fuel ->
  star_iter
    (fun (k0 : cont) (c : cursor) (cs0 : captures) =>
       match ahead c with
       | "" => None
       | String a rest =>
           if p a then k0 {| behind := Some a; ahead := rest |} cs0 else None
       end) k fuel (mkCursor b s) cs
  = greedy p k b s cs.
Proof. apply star_iter_chr. Qed.

Lemma quantityPattern_anchored (s : string) :
  forall a i, exec_from quantityPattern (Some a) s i = None.
Proof.
  induction s as [|x s IH]; intros a i; simpl; [reflexivity | apply IH].
Qed.

Lemma quantityPattern_capture (s : string) (c' : cursor) (cs : captures) :
  match_at quantityPattern (mkCursor None s) = Some (c', cs) ->
  cap_lookup 1 cs = Some (take_while is_digit s) /\
  take_while is_digit s <> "" /\
  exists v pre post, cap_lookup 2 cs = Some v /\ s = pre ++ v ++ post.
Proof.
  unfold match_at, quantityPattern, Plus.
  cbn [rmatch behind ahead].
  destruct s as [|a rest]; [discriminate|].
  destruct (is_digit a) eqn:Ha; [|discriminate].
  rewrite star_iter_class by lia.
  rewrite greedy_longest with (Q := fun _ => True); auto.
  2:{ intros b x s cs0 _ Hx. cbn [ahead].
      now rewrite (digit_not_space x Hx). }
  cbn [ahead behind].
  destruct (drop_while is_digit rest) as [|x rest1] eqn:Hrest; [discriminate|].
  destruct (is_space x); [|discriminate].
  rewrite star_iter_class by lia.
  intros H. apply greedy_some in H as (b1 & pre1 & s1 & Hpre1 & H).
  cbn [ahead] in H.
  destruct s1 as [|y rest2]; [discriminate|].
  destruct (is_dot y); [|discriminate].
  rewrite star_iter_class in H by lia.
  apply greedy_some in H as (b2 & pre2 & s2 & Hpre2 & H).
  injection H as _ <-.
  cbn [cap_lookup Nat.eqb].
  assert (Hd : drop_while is_digit (String a rest) = String x rest1)
    by (cbn [drop_while]; now rewrite Ha).
  split; [|split].
  - f_equal.
    rewrite <- (str_take_consumed is_digit (String a rest)), Hd.
    reflexivity.
  - cbn [take_while]. now rewrite Ha.
  - cbn [ahead].
    set (n := length (String y rest2) - length s2).
    exists (str_take n (String y rest2)),
      (take_while is_digit (String a rest) ++ String x pre1),
      (str_drop n (String y rest2)).
    split; [reflexivity|].
    rewrite str_take_drop, append_assoc. cbn [append].
    rewrite <- Hpre1, <- Hd. symmetry. apply take_drop_while.
Qed.

Lemma quantityPattern_space (s : string) (c' : cursor) (cs : captures) :
  match_at quantityPattern (mkCursor None s) = Some (c', cs) ->
  exists x rest, drop_while is_digit s = String x rest /\ is_space x = true.
Proof.
  unfold match_at, quantityPattern, Plus.
  cbn [rmatch behind ahead].
  destruct s as [|a rest]; [discriminate|].
  destruct (is_digit a) eqn:Ha; [|discriminate].
  rewrite star_iter_class by lia.
  rewrite greedy_longest with (Q := fun _ => True); auto.
  2:{ intros b x s cs0 _ Hx. cbn [ahead].
      now rewrite (digit_not_space x Hx). }
  cbn [ahead behind drop_while]. rewrite Ha.
  destruct (drop_while is_digit rest) as [|x rest1]; [discriminate|].
  destruct (is_space x) eqn:Hx; [|discriminate].
  intros _. now exists x, rest1.
Qed.

(** The text left after the quantity is a part of the segment. *)
Lemma extractQuantity_rest (item : string) :
  exists pre post, item = pre ++ snd (extractQuantity item) ++ post.
Proof.
  unfold extractQuantity, exec.
  destruct item as [|a rest]; [now exists "", ""|].
  cbn [exec_from]. rewrite quantityPattern_anchored.
  destruct (match_at quantityPattern _) as [[c' cs]|] eqn:Hm.
  - apply quantityPattern_capture in Hm as (_ & _ & v & pre & post & H2 & Hs).
    unfold group_or_empty, group. cbn [snd m_caps]. rewrite H2.
    now exists pre, post.
  - exists "", "". cbn [snd append]. now rewrite append_empty.
Qed.

Lemma extractQuantity_cases (item : string) :
  extractQuantity item = (Finite 1, item) \/
  (take_while is_digit item <> "" /\
   fst (extractQuantity item) = parseInt (take_while is_digit item)).
Proof.
  unfold extractQuantity, exec.
  destruct item as [|a rest]; [left; reflexivity|].
  cbn [exec_from]. rewrite quantityPattern_anchored.
  destruct (match_at quantityPattern _) as [[c' cs]|] eqn:Hm;
    [right | left; reflexivity].
  apply quantityPattern_capture in Hm as (H1 & Hne & _).
  split; [exact Hne|].
  unfold group_or_empty, group. cbn [fst m_caps].
  rewrite H1. reflexivity.
Qed.

(** ** The order parser *)

Lemma parseItem_raw (item : string) : raw (parseItem item) = item.
Proof.
  unfold parseItem. destruct (extractQuantity item), (splitWith _). reflexivity.
Qed.

Lemma parseItem_name (item : string) :
  name (parseItem item) = normalizeName (candidateName item).
Proof.
  unfold parseItem, candidateName.
  destruct (extractQuantity item) as [qty rest]; cbn [snd].
  destruct (splitWith rest); reflexivity.
Qed.

Lemma parseItem_quantity (item : string) :
  quantity (parseItem item) = fst (extractQuantity item).
Proof.
  unfold parseItem.
  destruct (extractQuantity item) as [qty rest], (splitWith rest).
  reflexivity.
Qed.

Lemma parseItem_modifications (item : string) :
  modifications (parseItem item) = snd (splitWith (snd (extractQuantity item))).
Proof.
  unfold parseItem.
  destruct (extractQuantity item) as [qty rest]; cbn [snd].
  destruct (splitWith rest); reflexivity.
Qed.

Lemma in_parseOrderItems (s : string) (it : ParsedLineItem) :
  In it (parseOrderItems s) -> it = parseItem (raw it).
Proof.
  unfold parseOrderItems. intros H.
  apply in_map_iff in H as (seg & <- & _).
  now rewrite parseItem_raw.
Qed.

(** C1. The parser returns one item per comma-separated segment, in the
    order of the segments: as many items as segments (one more than the
    number of commas), the item at each index is the parse of the trimmed
    segment at that index, and its [raw] field is that trimmed segment. *)
Theorem parseOrderItems_one_item_per_segment (s : string) :
  List.length (parseOrderItems s) = List.length (split_char "," s) /\
  List.length (parseOrderItems s) = S (count_char "," s) /\
  map raw (parseOrderItems s) = map trim (split_char "," s) /\
  forall i,
    nth_error (parseOrderItems s) i
    = option_map (fun seg => parseItem (trim seg))
        (nth_error (split_char "," s) i).
Proof.
  unfold parseOrderItems, segments.
  repeat split.
  - now rewrite !length_map.
  - now rewrite !length_map, length_split_char.
  - rewrite map_map.
    generalize (map trim (split_char "," s)) as segs.
    induction segs as [|seg segs IH]; simpl; [reflexivity|].
    now rewrite parseItem_raw, IH.
  - intros i. rewrite map_map. apply nth_error_map.
Qed.

(** C6. Scenario B: "2 burgers with no onion and extra sauce" parses to one
    item named "Angus Burger", of quantity 2, with the modifications
    "no onion" and "extra sauce". *)
Theorem scenario_B_two_burgers :
  parseOrderItems "2 burgers with no onion and extra sauce"
  = [ {| raw := "2 burgers with no onion and extra sauce";
         name := "Angus Burger";
         quantity := 2;
         modifications := ["no onion"; "extra sauce"] |} ].
Proof. vm_compute. reflexivity. Qed.

Lemma normalizeName_cases (n : string) :
  normalizeName n = n \/ In (normalizeName n) canonicalVocabulary.
Proof.
  unfold normalizeName.
  repeat match goal with
         | |- context [if ?b then _ else _] => destruct b
         end;
    solve [left; reflexivity | right; cbn; tauto].
Qed.

(** C8. Canonicalisation is stable: each of the seven canonical names is
    mapped to itself, a segment that is a canonical name parses to that
    name, and normalising twice is normalising once. *)
Theorem normalizeName_idempotent :
  Forall (fun n => normalizeName n = n) canonicalVocabulary /\
  Forall (fun n => map name (parseOrderItems n) = [n]) canonicalVocabulary /\
  forall n, normalizeName (normalizeName n) = normalizeName n.
Proof.
  split; [|split].
  - repeat constructor.
  - repeat constructor.
  - intros n.
    destruct (normalizeName_cases n) as [H | H]; [now rewrite H|].
    cbn [In canonicalVocabulary] in H.
    repeat (destruct H as [<- | H]; [reflexivity|]).
    contradiction.
Qed.

(** C10, as stated, fails: the test for "bruschetta" comes first, so a name
    with "wing" in it that also has "bruschetta" in it becomes "Bruschetta". *)
Lemma bruschetta_wings_counterexample :
  let it := parseItem "bruschetta wings" in
  let nameLower := toLowerCase (candidateName (raw it)) in
  In it (parseOrderItems "bruschetta wings") /\
  includes "wing" nameLower = true /\
  includes "1lb" nameLower = false /\
  includes "one lb" nameLower = false /\
  name it = "Bruschetta" /\
  name it <> "2lb Wings".
Proof.
  cbv zeta. repeat split; try reflexivity.
  - left. reflexivity.
  - vm_compute. discriminate.
Qed.

(** C10 (amended). A segment whose name has "wing" in it (in any case), and
    neither "bruschetta" nor "1lb" nor "one lb", is given the name
    "2lb Wings"; the bare "wings" is such a segment. *)
Theorem wings_default_to_two_pounds :
  (forall s it,
     In it (parseOrderItems s) ->
     includes "wing" (toLowerCase (candidateName (raw it))) = true ->
     includes "bruschetta" (toLowerCase (candidateName (raw it))) = false ->
     includes "1lb" (toLowerCase (candidateName (raw it))) = false ->
     includes "one lb" (toLowerCase (candidateName (raw it))) = false ->
     name it = "2lb Wings") /\
  parseOrderItems "wings" = [mkItem "wings" "2lb Wings" 1 []].
Proof.
  split; [|reflexivity].
  intros s it Hin Hw Hb H1 H2.
  apply in_parseOrderItems in Hin. rewrite Hin, parseItem_name.
  unfold normalizeName. now rewrite Hb, Hw, H1, H2.
Qed.

Lemma wings_default_to_two_pounds_witness :
  let s := "fries, 3 Hot WINGS with ranch" in
  let it := mkItem "3 Hot WINGS with ranch" "2lb Wings" 3 ["ranch"] in
  In it (parseOrderItems s) /\
  includes "wing" (toLowerCase (candidateName (raw it))) = true /\
  includes "bruschetta" (toLowerCase (candidateName (raw it))) = false /\
  includes "1lb" (toLowerCase (candidateName (raw it))) = false /\
  includes "one lb" (toLowerCase (candidateName (raw it))) = false /\
  name it = "2lb Wings".
Proof.
  intros s it.
  assert (Hin : In it (parseOrderItems s)) by (right; left; reflexivity).
  split; [exact Hin|].
  do 4 (split; [reflexivity|]).
  exact (proj1 wings_default_to_two_pounds s it Hin
           eq_refl eq_refl eq_refl eq_refl).
Defined.

(** ** The guest form *)

Lemma match_at_nonDigit (b : option ascii) (a : ascii) (s : string) :
  match_at nonDigit (mkCursor b (String a s))
  = if is_digit a then None else Some (mkCursor (Some a) s, []).
Proof. unfold match_at, nonDigit. cbn. now destruct (is_digit a). Qed.

Lemma guestPhone_keeps_digits (s : string) :
  forall b, remove_matches nonDigit b s 0 = str_filter is_digit s.
Proof.
  induction s as [|a s IH]; intros b; [reflexivity|].
  cbn [remove_matches str_filter]. rewrite match_at_nonDigit.
  destruct (is_digit a).
  - now rewrite IH.
  - cbn [ahead length].
    replace (S (length s) - length s) with 1 by lia.
    apply IH.
Qed.

(** Splits a log [x1 :: ... :: xn :: base] into its new entries and [base]. *)
Ltac new_entries :=
  match goal with
  | |- ?l = (?new ++ ?base)%list =>
      let rec go l :=
        lazymatch l with
        | base => constr:(@nil Entry)
        | ?x :: ?l' => let r := go l' in constr:(x :: r)
        end in
      let p := go l in
      unify new p; reflexivity
  end.

(** C4. The claim fails on the code.  The comment in [fillGuestInfo] says
    that the first word of the name is taken as first name, and the code
    cuts the name at its first space character: a leading space makes the
    first name empty, and a tab does not end it.  The values below are what
    the form is typed with, field by field, when every call works. *)
Lemma first_name_counterexample :
  let tabbed := "Mary" ++ String "009" "Ann Smith" in
  let typed := fun customerName =>
    rev (flat_map typed_into
           (log (snd (fillGuestInfo smoothBrowser customerName "416-555-1234"
                        (start tt))))) in
  first_token " John Smith" = "John" /\
  guestFirstName " John Smith" = "" /\
  typed " John Smith"
  = [(0, ""); (0, "PAM"); (0, "yousef.alyeldin5@gmial.com");
     (0, "4165551234")] /\
  first_token tabbed = "Mary" /\
  guestFirstName tabbed = "Mary" ++ String "009" "Ann" /\
  guestFirstName tabbed <> first_token tabbed /\
  typed tabbed
  = [(0, "Mary" ++ String "009" "Ann"); (0, "PAM");
     (0, "yousef.alyeldin5@gmial.com"); (0, "4165551234")].
Proof.
  cbv zeta. repeat split; try reflexivity.
  vm_compute. discriminate.
Qed.

(** ** Computations that may throw *)

Lemma bind_ok {W A B} (m : M W A) (f : A -> M W B) (st st' : State W) (b : B) :
  bind m f st = (Ok b, st') ->
  exists a st1, m st = (Ok a, st1) /\ f a st1 = (Ok b, st').
Proof.
  unfold bind.
  destruct (m st) as [[a|e|x] st1]; [eauto | discriminate | discriminate].
Qed.

Lemma bind_throw {W A B} (m : M W A) (f : A -> M W B) (st st' : State W)
    (e : string) :
  bind m f st = (Throw e, st') ->
  m st = (Throw e, st') \/
  exists a st1, m st = (Ok a, st1) /\ f a st1 = (Throw e, st').
Proof.
  unfold bind. destruct (m st) as [[a|e1|x] st1]; [eauto| |discriminate].
  intros H; injection H as -> ->. now left.
Qed.

Lemma bind_run_ok {W A B} (m : M W A) (f : A -> M W B) (st : State W) (a : A)
    (st1 : State W) :
  m st = (Ok a, st1) -> bind m f st = f a st1.
Proof. unfold bind. now intros ->. Qed.

Lemma bind_run_throw {W A B} (m : M W A) (f : A -> M W B) (st : State W)
    (e : string) (st1 : State W) :
  m st = (Throw e, st1) -> bind m f st = (Throw e, st1).
Proof. unfold bind. now intros ->. Qed.

Lemma bind_run_running {W A B} (m : M W A) (f : A -> M W B) (st : State W)
    (st1 : State W) :
  m st = (Running, st1) -> bind m f st = (Running, st1).
Proof. unfold bind. now intros ->. Qed.

Lemma settles_run {W A} (m : M W A) (st st' : State W) :
  settles m -> m st <> (Running, st').
Proof. intros Hm H. apply (Hm st StillRunning). now rewrite H. Qed.

Create HintDb stages.

Section Combinators.

Context {W X : Type} (f : OrderResult -> X).

Lemma keeps_ret {A} (a : A) : keeps f (@ret W A a).
Proof. intros st. reflexivity. Qed.

Lemma keeps_throw {A} (e : string) : keeps f (@throw W A e).
Proof. intros st. reflexivity. Qed.

Lemma keeps_bind {A B} (m : M W A) (g : A -> M W B) :
  keeps f m -> (forall a, keeps f (g a)) -> keeps f (bind m g).
Proof.
  intros Hm Hg st. unfold bind. specialize (Hm st).
  destruct (m st) as [[a|e|x] st1]; cbn [snd] in *;
    [|exact Hm|exact Hm].
  now rewrite Hg.
Qed.

Lemma keeps_try_catch {A} (m : M W A) (h : string -> M W A) :
  keeps f m -> (forall e, keeps f (h e)) -> keeps f (try_catch m h).
Proof.
  intros Hm Hh st. unfold try_catch. specialize (Hm st).
  destruct (m st) as [[a|e|x] st1]; cbn [snd] in *;
    [exact Hm| |exact Hm].
  now rewrite Hh.
Qed.

Lemma keeps_modify (g : OrderResult -> OrderResult) :
  (forall r, f (g r) = f r) -> keeps f (@modify_result W g).
Proof. intros Hg st. apply Hg. Qed.

Lemma keeps_for_each {A} (body : A -> M W unit) (l : list A) :
  (forall x, keeps f (body x)) -> keeps f (for_each body l).
Proof.
  intros Hbody. induction l as [|x l IH]; cbn [for_each].
  - apply keeps_ret.
  - apply keeps_bind; auto.
Qed.

Lemma quiet_ret {A} (a : A) : quiet (@ret W A a).
Proof. intros st. now exists []. Qed.

Lemma quiet_throw {A} (e : string) : quiet (@throw W A e).
Proof. intros st. now exists []. Qed.

Lemma quiet_modify (g : OrderResult -> OrderResult) :
  quiet (@modify_result W g).
Proof. intros st. now exists []. Qed.

Lemma quiet_bind {A B} (m : M W A) (g : A -> M W B) :
  quiet m -> (forall a, quiet (g a)) -> quiet (bind m g).
Proof.
  intros Hm Hg st. unfold bind. destruct (Hm st) as (n1 & L1 & Q1).
  destruct (m st) as [[a|e|x] st1]; cbn [snd] in *; [|eauto|eauto].
  destruct (Hg a st1) as (n2 & L2 & Q2).
  exists (n2 ++ n1)%list. split.
  - now rewrite L2, L1, app_assoc.
  - unfold attempted_names in *. now rewrite flat_map_app, Q1, Q2.
Qed.

Lemma quiet_try_catch {A} (m : M W A) (h : string -> M W A) :
  quiet m -> (forall e, quiet (h e)) -> quiet (try_catch m h).
Proof.
  intros Hm Hh st. unfold try_catch. destruct (Hm st) as (n1 & L1 & Q1).
  destruct (m st) as [[a|e|x] st1]; cbn [snd] in *; [eauto| |eauto].
  destruct (Hh e st1) as (n2 & L2 & Q2).
  exists (n2 ++ n1)%list. split.
  - now rewrite L2, L1, app_assoc.
  - unfold attempted_names in *. now rewrite flat_map_app, Q1, Q2.
Qed.

Lemma quiet_for_each {A} (body : A -> M W unit) (l : list A) :
  (forall x, quiet (body x)) -> quiet (for_each body l).
Proof.
  intros Hbody. induction l as [|x l IH]; cbn [for_each].
  - apply quiet_ret.
  - apply quiet_bind; auto.
Qed.

End Combinators.

Ltac stage_step :=
  first
    [ solve [auto with stages]
    | apply keeps_ret | apply keeps_throw
    | apply keeps_bind; [|intros ?]
    | apply keeps_try_catch; [|intros ?]
    | apply keeps_for_each; intros ?
    | apply quiet_ret | apply quiet_throw | apply quiet_modify
    | apply quiet_bind; [|intros ?]
    | apply quiet_try_catch; [|intros ?]
    | apply quiet_for_each; intros ?
    | match goal with
      | |- keeps _ (if ?b then _ else _) => destruct b
      | |- keeps _ (match ?x with _ => _ end) => destruct x
      | |- quiet (if ?b then _ else _) => destruct b
      | |- quiet (match ?x with _ => _ end) => destruct x
      end ].

Ltac stage := repeat stage_step.

Section Stages.

Context {W X : Type}.
Variable browser : forall T, Call T -> W -> outcome T * W.
Variable fuel : nat.
Variable f : OrderResult -> X.
Hypothesis f_push : forall x r, f (push_screenshot x r) = f r.

Lemma keeps_call {T} (c : Call T) : keeps f (call browser c).
Proof.
  intros st. unfold call. now destruct (browser T c (world st)).
Qed.

Lemma quiet_call {T} (c : Call T) :
  (forall a, attempted_name (Did c a) = []) -> quiet (call browser c).
Proof.
  intros Hc st. unfold call. destruct (browser T c (world st)) as [a w1].
  exists [Did c a]. split; [reflexivity|].
  cbn [attempted_names flat_map]. now rewrite Hc.
Qed.

Hint Resolve keeps_call : stages.
Hint Extern 1 (quiet (call _ _)) =>
  (apply quiet_call; intros ?; reflexivity) : stages.

Lemma keeps_takeScreenshot (label : string) :
  keeps f (takeScreenshot browser label).
Proof.
  unfold takeScreenshot. stage. now apply keeps_modify.
Qed.

Lemma quiet_takeScreenshot (label : string) :
  quiet (takeScreenshot browser label).
Proof. unfold takeScreenshot. stage. Qed.

Lemma keeps_findAndClickItem (item : ParsedLineItem) :
  keeps f (findAndClickItem browser item).
Proof. unfold findAndClickItem. stage. Qed.

Lemma keeps_increaseQuantity (n : nat) : keeps f (increaseQuantity browser n).
Proof. induction n as [|n IH]; cbn [increaseQuantity]; stage. Qed.

Lemma quiet_increaseQuantity (n : nat) : quiet (increaseQuantity browser n).
Proof. induction n as [|n IH]; cbn [increaseQuantity]; stage. Qed.

Lemma keeps_increaseForEver (n : nat) : keeps f (increaseForEver browser n).
Proof.
  induction n as [|n IH]; cbn [increaseForEver]; [intros st; reflexivity|].
  stage.
Qed.

Lemma quiet_increaseForEver (n : nat) : quiet (increaseForEver browser n).
Proof.
  induction n as [|n IH]; cbn [increaseForEver]; [intros st; now exists []|].
  stage.
Qed.

Hint Resolve keeps_increaseQuantity quiet_increaseQuantity
  keeps_increaseForEver quiet_increaseForEver : stages.

Lemma keeps_handleItemModal (item : ParsedLineItem) :
  keeps f (handleItemModal browser fuel item).
Proof. unfold handleItemModal. stage. Qed.

Lemma quiet_handleItemModal (item : ParsedLineItem) :
  quiet (handleItemModal browser fuel item).
Proof. unfold handleItemModal. stage. Qed.

Lemma keeps_clickFirstSelector (l : list AddButtonSelector) :
  keeps f (clickFirstSelector browser l).
Proof. induction l as [|x l IH]; cbn [clickFirstSelector]; stage. Qed.

Lemma quiet_clickFirstSelector (l : list AddButtonSelector) :
  quiet (clickFirstSelector browser l).
Proof. induction l as [|x l IH]; cbn [clickFirstSelector]; stage. Qed.

Hint Resolve keeps_clickFirstSelector quiet_clickFirstSelector : stages.

Lemma keeps_clickAddToCart : keeps f (clickAddToCart browser).
Proof. unfold clickAddToCart. stage. Qed.

Lemma quiet_clickAddToCart : quiet (clickAddToCart browser).
Proof. unfold clickAddToCart. stage. Qed.

Hint Resolve keeps_takeScreenshot keeps_findAndClickItem
  keeps_handleItemModal keeps_clickAddToCart quiet_handleItemModal
  quiet_clickAddToCart quiet_takeScreenshot : stages.

Lemma keeps_addItem (item : ParsedLineItem) :
  keeps f (addItem browser fuel item).
Proof. unfold addItem, addItemSteps. stage. Qed.

Lemma keeps_addItemsToCart (orderItems : string) :
  keeps f (addItemsToCart browser fuel orderItems).
Proof.
  unfold addItemsToCart, addItems, addItem, addItemSteps. stage.
Qed.

Lemma keeps_fillGuestInfo (customerName customerPhone : string) :
  keeps f (fillGuestInfo browser customerName customerPhone).
Proof. unfold fillGuestInfo, fillField. stage. Qed.

Hint Resolve keeps_addItemsToCart keeps_fillGuestInfo : stages.

Lemma keeps_stagesBeforeExtraction (orderData : OrderData) :
  keeps f (stagesBeforeExtraction browser fuel orderData).
Proof.
  unfold stagesBeforeExtraction, clickCheckout, continueAsGuest,
    submitGuestForm, addNotesIfAny, addPickupNotes, verifyPaymentMethod,
    placeOrderFinal.
  stage.
Qed.

End Stages.

#[global] Hint Resolve keeps_call keeps_takeScreenshot keeps_findAndClickItem
  keeps_increaseQuantity keeps_increaseForEver keeps_handleItemModal
  keeps_clickFirstSelector keeps_clickAddToCart keeps_addItemsToCart
  keeps_fillGuestInfo keeps_stagesBeforeExtraction quiet_takeScreenshot
  quiet_increaseQuantity quiet_increaseForEver quiet_handleItemModal
  quiet_clickFirstSelector quiet_clickAddToCart
  : stages.
#[global] Hint Extern 1 (quiet (call _ _)) =>
  (apply quiet_call; intros ?; reflexivity) : stages.

(** ** Computations that end *)

Section Safety.

Context {W : Type}.

Lemma safe_ret {A} (a : A) : safe (@ret W A a).
Proof. intros st. now exists a. Qed.

Lemma safe_modify (g : OrderResult -> OrderResult) :
  safe (@modify_result W g).
Proof. intros st. now exists tt. Qed.

Lemma safe_bind {A B} (m : M W A) (g : A -> M W B) :
  safe m -> (forall a, safe (g a)) -> safe (bind m g).
Proof.
  intros Hm Hg st. unfold bind. destruct (Hm st) as (a & Ha).
  destruct (m st) as [o st1]. cbn [fst] in Ha. subst o. apply Hg.
Qed.

Lemma safe_try_catch {A} (m : M W A) (h : string -> M W A) :
  settles m -> (forall e, safe (h e)) -> safe (try_catch m h).
Proof.
  intros Hm Hh st. unfold try_catch. specialize (Hm st).
  destruct (m st) as [[a|e|x] st1];
    [now exists a | apply Hh | now destruct (Hm x)].
Qed.

Lemma safe_run {A} (m : M W A) (st : State W) :
  safe m -> exists a st1, m st = (Ok a, st1).
Proof.
  intros Hm. destruct (Hm st) as (a & Ha). exists a, (snd (m st)).
  rewrite <- Ha. now destruct (m st).
Qed.

Lemma safe_settles {A} (m : M W A) : safe m -> settles m.
Proof. intros Hm st x H. destruct (Hm st) as (a & Ha). congruence. Qed.

Lemma settles_ret {A} (a : A) : settles (@ret W A a).
Proof. intros st x. discriminate. Qed.

Lemma settles_throw {A} (e : string) : settles (@throw W A e).
Proof. intros st x. discriminate. Qed.

Lemma settles_modify (g : OrderResult -> OrderResult) :
  settles (@modify_result W g).
Proof. intros st x. discriminate. Qed.

Lemma settles_get : settles (@get_result W).
Proof. intros st x. discriminate. Qed.

Lemma settles_bind {A B} (m : M W A) (g : A -> M W B) :
  settles m -> (forall a, settles (g a)) -> settles (bind m g).
Proof.
  intros Hm Hg st x. unfold bind. specialize (Hm st).
  destruct (m st) as [[a|e|y] st1]; cbn [fst] in *;
    [apply Hg | discriminate | now destruct (Hm y)].
Qed.

Lemma settles_try_catch {A} (m : M W A) (h : string -> M W A) :
  settles m -> (forall e, settles (h e)) -> settles (try_catch m h).
Proof.
  intros Hm Hh st x. unfold try_catch. specialize (Hm st).
  destruct (m st) as [[a|e|y] st1]; cbn [fst] in *;
    [discriminate | apply Hh | now destruct (Hm y)].
Qed.

Lemma settles_for_each {A} (body : A -> M W unit) (l : list A) :
  (forall x, settles (body x)) -> settles (for_each body l).
Proof.
  intros Hbody. induction l as [|x l IH]; cbn [for_each].
  - apply settles_ret.
  - apply settles_bind; auto.
Qed.

Lemma safe_for_each {A} (body : A -> M W unit) (l : list A) :
  (forall x, safe (body x)) -> safe (for_each body l).
Proof.
  intros Hbody. induction l as [|x l IH]; cbn [for_each].
  - apply safe_ret.
  - apply safe_bind; auto.
Qed.

Context {X : Type} (proj : Entry -> list X).

Lemma silent_ret {A} (a : A) : silent proj (@ret W A a).
Proof. intros st. now exists []. Qed.

Lemma silent_throw {A} (e : string) : silent proj (@throw W A e).
Proof. intros st. now exists []. Qed.

Lemma silent_modify (g : OrderResult -> OrderResult) :
  silent proj (@modify_result W g).
Proof. intros st. now exists []. Qed.

Lemma silent_get : silent proj (@get_result W).
Proof. intros st. now exists []. Qed.

Lemma silent_bind {A B} (m : M W A) (g : A -> M W B) :
  silent proj m -> (forall a, silent proj (g a)) -> silent proj (bind m g).
Proof.
  intros Hm Hg st. unfold bind. destruct (Hm st) as (n1 & L1 & Q1).
  destruct (m st) as [[a|e|x] st1]; cbn [snd] in *; [|eauto|eauto].
  destruct (Hg a st1) as (n2 & L2 & Q2).
  exists (n2 ++ n1)%list. split.
  - now rewrite L2, L1, app_assoc.
  - now rewrite flat_map_app, Q1, Q2.
Qed.

Lemma silent_try_catch {A} (m : M W A) (h : string -> M W A) :
  silent proj m -> (forall e, silent proj (h e)) ->
  silent proj (try_catch m h).
Proof.
  intros Hm Hh st. unfold try_catch. destruct (Hm st) as (n1 & L1 & Q1).
  destruct (m st) as [[a|e|x] st1]; cbn [snd] in *; [eauto| |eauto].
  destruct (Hh e st1) as (n2 & L2 & Q2).
  exists (n2 ++ n1)%list. split.
  - now rewrite L2, L1, app_assoc.
  - now rewrite flat_map_app, Q1, Q2.
Qed.

Lemma silent_for_each {A} (body : A -> M W unit) (l : list A) :
  (forall x, silent proj (body x)) -> silent proj (for_each body l).
Proof.
  intros Hbody. induction l as [|x l IH]; cbn [for_each].
  - apply silent_ret.
  - apply silent_bind; auto.
Qed.

Variable browser : forall T, Call T -> W -> outcome T * W.

Lemma settles_call {T} (c : Call T) : settles (call browser c).
Proof.
  intros st x. unfold call.
  now destruct (browser T c (world st)) as [[a|e|[]] w1].
Qed.

Lemma silent_call {T} (c : Call T) :
  (forall a, proj (Did c a) = []) -> silent proj (call browser c).
Proof.
  intros Hc st. unfold call. destruct (browser T c (world st)) as [a w1].
  exists [Did c a]. split; [reflexivity|].
  cbn [flat_map]. now rewrite Hc.
Qed.

End Safety.

Create HintDb careful.

#[global] Hint Resolve settles_call : careful.
#[global] Hint Extern 1 (silent _ (call _ _)) =>
  (apply silent_call; intros ?; reflexivity) : careful.

Ltac careful_step :=
  first
    [ solve [auto with careful]
    | apply safe_ret | apply safe_modify
    | apply safe_try_catch; [|intros ?]
    | apply safe_bind; [|intros ?]
    | apply safe_for_each; intros ?
    | apply settles_ret | apply settles_throw | apply settles_modify
    | apply settles_get
    | apply settles_bind; [|intros ?]
    | apply settles_try_catch; [|intros ?]
    | apply settles_for_each; intros ?
    | apply silent_ret | apply silent_throw | apply silent_modify
    | apply silent_get
    | apply silent_bind; [|intros ?]
    | apply silent_try_catch; [|intros ?]
    | apply silent_for_each; intros ?
    | match goal with
      | |- safe (if ?b then _ else _) => destruct b
      | |- safe (match ?x with _ => _ end) => destruct x
      | |- settles (if ?b then _ else _) => destruct b
      | |- settles (match ?x with _ => _ end) => destruct x
      | |- silent _ (if ?b then _ else _) => destruct b
      | |- silent _ (match ?x with _ => _ end) => destruct x
      end ].

Ltac careful := repeat careful_step.

Section Ends.

Context {W : Type}.
Variable browser : forall T, Call T -> W -> outcome T * W.

Lemma safe_increaseQuantity (n : nat) : safe (increaseQuantity browser n).
Proof. induction n as [|n IH]; cbn [increaseQuantity]; careful. Qed.

Lemma safe_takeScreenshot (label : string) :
  safe (takeScreenshot browser label).
Proof. unfold takeScreenshot. careful. Qed.

Lemma settles_clickFirstSelector (l : list AddButtonSelector) :
  settles (clickFirstSelector browser l).
Proof. induction l as [|x l IH]; cbn [clickFirstSelector]; careful. Qed.

Lemma safe_onError (launched : bool) (e : string) :
  safe (onError browser launched e).
Proof.
  unfold onError. careful.
Qed.

Lemma increaseForEver_outcome (n : nat) (st : State W) :
  fst (increaseForEver browser n st) = Ok tt \/
  fst (increaseForEver browser n st) = Running.
Proof.
  revert st. induction n as [|n IH]; intros st; cbn [increaseForEver];
    [now right|].
  match goal with
  | |- context [bind ?m ?f st] =>
      assert (Hm : safe m) by careful;
      destruct (safe_run m st Hm) as (continue & st1 & Hrun);
      rewrite (bind_run_ok m f st continue st1 Hrun)
  end.
  destruct continue; [apply IH | now left].
Qed.

Lemma settles_increaseQuantity (n : nat) :
  settles (increaseQuantity browser n).
Proof. apply safe_settles, safe_increaseQuantity. Qed.

Lemma settles_takeScreenshot (label : string) :
  settles (takeScreenshot browser label).
Proof. apply safe_settles, safe_takeScreenshot. Qed.

Lemma settles_onError (launched : bool) (e : string) :
  settles (onError browser launched e).
Proof. apply safe_settles, safe_onError. Qed.

End Ends.

#[global] Hint Resolve safe_increaseQuantity safe_takeScreenshot
  safe_onError settles_clickFirstSelector settles_increaseQuantity
  settles_takeScreenshot settles_onError : careful.

(** ** The cart builder *)

Lemma firstn_succ {A} (l : list A) :
  forall k x, nth_error l k = Some x ->
              firstn (S k) l = (firstn k l ++ [x])%list.
Proof.
  induction l as [|y l IH]; intros [|k] x H; cbn in H; try discriminate.
  - now injection H as ->.
  - cbn [firstn app]. f_equal. now apply IH.
Qed.

Section CartBuilder.

Context {W : Type}.
Variable browser : forall T, Call T -> W -> outcome T * W.
Variable fuel : nat.

Lemma attempts_bind_quiet {A B} (names : list string) (m : M W A)
    (g : A -> M W B) :
  attempts names m -> (forall a, quiet (g a)) -> attempts names (bind m g).
Proof.
  intros Hm Hg st. unfold bind. destruct (Hm st) as (n1 & L1 & Q1).
  destruct (m st) as [[a|e|x] st1]; cbn [snd] in *; [|eauto|eauto].
  destruct (Hg a st1) as (n2 & L2 & Q2).
  exists (n2 ++ n1)%list. split.
  - now rewrite L2, L1, app_assoc.
  - unfold attempted_names in *. now rewrite flat_map_app, Q1, Q2.
Qed.

Lemma attempts_try_catch_quiet {A} (names : list string) (m : M W A)
    (h : string -> M W A) :
  attempts names m -> (forall e, quiet (h e)) ->
  attempts names (try_catch m h).
Proof.
  intros Hm Hh st. unfold try_catch. destruct (Hm st) as (n1 & L1 & Q1).
  destruct (m st) as [[a|e|x] st1]; cbn [snd] in *; [eauto| |eauto].
  destruct (Hh e st1) as (n2 & L2 & Q2).
  exists (n2 ++ n1)%list. split.
  - now rewrite L2, L1, app_assoc.
  - unfold attempted_names in *. now rewrite flat_map_app, Q1, Q2.
Qed.

Lemma attempts_find (itemName : string) :
  attempts [itemName]
    (call browser (EvaluateHandle (FindItemExact itemName))).
Proof.
  intros st. unfold call.
  destruct (browser _ (EvaluateHandle (FindItemExact itemName)) (world st))
    as [a w1].
  now exists [Did (EvaluateHandle (FindItemExact itemName)) a].
Qed.

Lemma attempts_findAndClickItem (item : ParsedLineItem) :
  attempts [name item] (findAndClickItem browser item).
Proof.
  unfold findAndClickItem.
  apply attempts_bind_quiet; [|intros ?; stage].
  apply attempts_try_catch_quiet; [|intros ?; stage].
  apply attempts_bind_quiet; [apply attempts_find | intros ?; stage].
Qed.

Lemma attempts_addItemSteps (item : ParsedLineItem) :
  attempts [name item] (addItemSteps browser fuel item).
Proof.
  unfold addItemSteps.
  apply attempts_bind_quiet; [apply attempts_findAndClickItem|].
  intros ?; stage.
Qed.

Lemma attempts_addItem (item : ParsedLineItem) :
  attempts [name item] (addItem browser fuel item).
Proof.
  unfold addItem.
  apply attempts_try_catch_quiet; [apply attempts_addItemSteps|].
  intros ?; stage.
Qed.

Lemma addItems_ok_names (items : list ParsedLineItem) :
  forall st st',
    addItems browser fuel items st = (Ok tt, st') ->
    exists new,
      log st' = (new ++ log st)%list /\
      attempted_names new = rev (map name items).
Proof.
  induction items as [|x items IH]; intros st st' H.
  - injection H as <-. now exists [].
  - apply bind_ok in H as ([] & s1 & Hx & Hrest).
    destruct (attempts_addItem x st) as (n1 & L1 & Q1).
    rewrite Hx in L1; cbn [snd] in L1.
    apply IH in Hrest as (n2 & L2 & Q2).
    exists (n2 ++ n1)%list. split.
    + now rewrite L2, L1, app_assoc.
    + unfold attempted_names in *. rewrite flat_map_app, Q1, Q2.
      reflexivity.
Qed.

Lemma addItems_abort (items : list ParsedLineItem) :
  forall k item cause st st_k st_f,
    nth_error items k = Some item ->
    addItems browser fuel (firstn k items) st = (Ok tt, st_k) ->
    addItemSteps browser fuel item st_k = (Throw cause, st_f) ->
    addItems browser fuel items st
    = (Throw ("Failed to add " ++ name item ++ " to cart: " ++ cause), st_f).
Proof.
  induction items as [|x items IH]; intros [|k] item cause st st_k st_f Hk Hpre Hfail;
    cbn in Hk; try discriminate.
  - injection Hk as ->. injection Hpre as <-.
    unfold addItems. cbn [for_each]. unfold bind, addItem, try_catch.
    now rewrite Hfail.
  - cbn [firstn] in Hpre.
    apply bind_ok in Hpre as ([] & s1 & Hx & Hrest).
    unfold addItems. cbn [for_each]. unfold bind at 1. rewrite Hx.
    exact (IH k item cause s1 st_k st_f Hk Hrest Hfail).
Qed.

(** C3. When the items before item [k] have been added and the addition of
    item [k] fails (item discovery, add-to-cart confirmation or any other
    step of it throws), the cart builder throws "Failed to add <name> to
    cart: <cause>" naming that item, and it stops there: the state it leaves
    is the state at the failure, and the items looked up on the menu are the
    first [k + 1] items, none of the items after item [k]. *)
Theorem addItems_fails_fast (items : list ParsedLineItem) (k : nat)
    (item : ParsedLineItem) (cause : string) (st st_k st_f : State W) :
  nth_error items k = Some item ->
  addItems browser fuel (firstn k items) st = (Ok tt, st_k) ->
  addItemSteps browser fuel item st_k = (Throw cause, st_f) ->
  addItems browser fuel items st
  = (Throw ("Failed to add " ++ name item ++ " to cart: " ++ cause), st_f) /\
  exists new,
    log st_f = (new ++ log st)%list /\
    rev (attempted_names new) = map name (firstn (S k) items).
Proof.
  intros Hk Hpre Hfail.
  split; [now apply addItems_abort with (k := k) (st_k := st_k)|].
  apply addItems_ok_names in Hpre as (n1 & L1 & Q1).
  destruct (attempts_addItemSteps item st_k) as (n2 & L2 & Q2).
  rewrite Hfail in L2; cbn [snd] in L2.
  exists (n2 ++ n1)%list. split.
  - now rewrite L2, L1, app_assoc.
  - unfold attempted_names in *. rewrite flat_map_app, Q1, Q2.
    rewrite (firstn_succ _ _ _ Hk), map_app, rev_app_distr, rev_involutive.
    reflexivity.
Qed.

End CartBuilder.

Lemma addItems_fails_fast_witness :
  let items := parseOrderItems "bruschetta, 2 pizzas, wings" in
  let item := mkItem "2 pizzas" "pizzas" 2 [] in
  let st := start tt in
  let st_k := snd (addItems noPizzaBrowser 10 (firstn 1 items) st) in
  let st_f := snd (addItemSteps noPizzaBrowser 10 item st_k) in
  nth_error items 1 = Some item /\
  addItems noPizzaBrowser 10 (firstn 1 items) st = (Ok tt, st_k) /\
  addItemSteps noPizzaBrowser 10 item st_k
  = (Throw "Could not find menu item: pizzas", st_f) /\
  addItems noPizzaBrowser 10 items st
  = (Throw "Failed to add pizzas to cart: Could not find menu item: pizzas",
     st_f) /\
  exists new,
    log st_f = (new ++ log st)%list /\
    rev (attempted_names new) = ["Bruschetta"; "pizzas"].
Proof.
  intros items item st st_k st_f.
  assert (H1 : nth_error items 1 = Some item) by reflexivity.
  assert (H2 : addItems noPizzaBrowser 10 (firstn 1 items) st = (Ok tt, st_k))
    by reflexivity.
  assert (H3 : addItemSteps noPizzaBrowser 10 item st_k
               = (Throw "Could not find menu item: pizzas", st_f))
    by reflexivity.
  split; [exact H1|]. split; [exact H2|]. split; [exact H3|].
  exact (addItems_fails_fast noPizzaBrowser 10 items 1 item
           "Could not find menu item: pizzas" st st_k st_f H1 H2 H3).
Defined.

(** ** The pipeline *)

Lemma extractTotal_others (text : string) (r : OrderResult) :
  confirmationNumber (extractTotal text r) = confirmationNumber r /\
  estimatedPickupTime (extractTotal text r) = estimatedPickupTime r /\
  success (extractTotal text r) = success r /\
  error (extractTotal text r) = error r.
Proof.
  unfold extractTotal. destruct (first_match totalPatterns text); repeat split.
Qed.

Lemma extractPickupTime_others (text : string) (r : OrderResult) :
  confirmationNumber (extractPickupTime text r) = confirmationNumber r /\
  success (extractPickupTime text r) = success r /\
  error (extractPickupTime text r) = error r.
Proof.
  unfold extractPickupTime.
  destruct (first_match pickupPatterns text); destruct (falsy _); repeat split.
Qed.

Lemma extractOrderNumber_others (text : string) (r : OrderResult) :
  estimatedPickupTime (extractOrderNumber text r) = estimatedPickupTime r /\
  success (extractOrderNumber text r) = success r /\
  error (extractOrderNumber text r) = error r.
Proof.
  unfold extractOrderNumber.
  destruct (first_match orderNumberPatterns text); destruct (falsy _);
    repeat split.
Qed.

Lemma extractOrderNumber_number (text : string) (r : OrderResult) :
  confirmationNumber r = None ->
  (exists n, confirmationNumber (extractOrderNumber text r) = Some n) /\
  (first_match orderNumberPatterns text = None ->
   confirmationNumber (extractOrderNumber text r)
   = Some ORDER_PLACED_NO_NUMBER).
Proof.
  intros Hc. unfold extractOrderNumber.
  destruct (first_match orderNumberPatterns text) as [m|]; cbn.
  - split; [|discriminate]. destruct (group 1 m) as [[|a v]|]; cbn; eauto.
  - rewrite Hc. cbn. eauto.
Qed.

Lemma extractPickupTime_time (text : string) (r : OrderResult) :
  estimatedPickupTime r = None ->
  (exists t, estimatedPickupTime (extractPickupTime text r) = Some t) /\
  (first_match pickupPatterns text = None ->
   estimatedPickupTime (extractPickupTime text r) = Some DEFAULT_PICKUP_TIME).
Proof.
  intros Hp. unfold extractPickupTime.
  destruct (first_match pickupPatterns text) as [m|]; cbn.
  - split; [|discriminate]. destruct (group 1 m) as [[|a v]|]; cbn; eauto.
  - rewrite Hp. cbn. eauto.
Qed.

Lemma extractFields_fields (text : string) (r : OrderResult) :
  confirmationNumber r = None ->
  estimatedPickupTime r = None ->
  (exists n, confirmationNumber (extractFields text r) = Some n) /\
  (exists t, estimatedPickupTime (extractFields text r) = Some t) /\
  (first_match orderNumberPatterns text = None ->
   confirmationNumber (extractFields text r) = Some ORDER_PLACED_NO_NUMBER) /\
  (first_match pickupPatterns text = None ->
   estimatedPickupTime (extractFields text r) = Some DEFAULT_PICKUP_TIME).
Proof.
  intros Hc Hp. unfold extractFields.
  destruct (extractTotal_others text
              (extractPickupTime text (extractOrderNumber text r)))
    as (-> & -> & _).
  destruct (extractPickupTime_others text (extractOrderNumber text r))
    as (-> & _).
  destruct (extractOrderNumber_others text r) as (Hp' & _).
  rewrite <- Hp' in Hp.
  destruct (extractOrderNumber_number text r Hc) as [H1 H2].
  destruct (extractPickupTime_time text _ Hp) as [H3 H4].
  auto.
Qed.

Lemma extractFields_success_error (text : string) (r : OrderResult) :
  success (extractFields text r) = success r /\
  error (extractFields text r) = error r.
Proof.
  unfold extractFields.
  destruct (extractTotal_others text
              (extractPickupTime text (extractOrderNumber text r)))
    as (_ & _ & -> & ->).
  destruct (extractPickupTime_others text (extractOrderNumber text r))
    as (_ & -> & ->).
  destruct (extractOrderNumber_others text r) as (_ & -> & ->).
  split; reflexivity.
Qed.

Lemma try_catch_inv {W A} (m : M W A) (h : string -> M W A)
    (st st' : State W) (o : progress A) :
  try_catch m h st = (o, st') ->
  (exists a, m st = (Ok a, st') /\ o = Ok a) \/
  (exists e s1, m st = (Throw e, s1) /\ h e s1 = (o, st')) \/
  (m st = (Running, st') /\ o = Running).
Proof.
  unfold try_catch. destruct (m st) as [[a|e|[]] s1].
  - intros H; injection H as <- <-. left; eauto.
  - intros H. right; left; eauto.
  - intros H; injection H as <- <-. right; right; eauto.
Qed.

Section PlaceOrder.

Context {W : Type}.
Variable browser : forall T, Call T -> W -> outcome T * W.
Variable fuel : nat.

Lemma call_inv {T} (c : Call T) (st st' : State W) (a : T) :
  call browser c st = (Ok a, st') ->
  log st' = Did c (Ok a) :: log st /\ result st' = result st.
Proof.
  unfold call. destruct (browser T c (world st)) as [[a1|e1|[]] w1];
    intros H; [|discriminate H].
  injection H as <- <-. split; reflexivity.
Qed.

Lemma call_throw_inv {T} (c : Call T) (st st' : State W) (e : string) :
  call browser c st = (Throw e, st') ->
  log st' = Did c (Throw e) :: log st /\ result st' = result st.
Proof.
  unfold call. destruct (browser T c (world st)) as [[a1|e1|[]] w1];
    intros H; [discriminate H|].
  injection H as <- <-. split; reflexivity.
Qed.

Lemma call_settles {T} (c : Call T) (st st' : State W) :
  call browser c st <> (Running, st').
Proof.
  unfold call. now destruct (browser T c (world st)) as [[a|e|[]] w1].
Qed.

(** [extractConfirmationDetails] never throws; it reads the page text once,
    and fills the fields from it when the reading succeeds. *)
Lemma extractConfirmationDetails_run (st : State W) :
  match browser _ BodyText (world st) with
  | (Ok text, w1) =>
      extractConfirmationDetails browser st
      = (Ok tt, mkState w1 (Did BodyText (Ok text) :: log st)
                  (extractFields text (result st)))
  | (Throw e, w1) =>
      extractConfirmationDetails browser st
      = (Ok tt, mkState w1 (Did BodyText (Throw e) :: log st) (result st))
  | (Neither x, _) => match x with end
  end.
Proof.
  unfold extractConfirmationDetails, try_catch, bind, call, modify_result, ret.
  destruct (browser _ BodyText (world st)) as [[text|e|[]] w1]; reflexivity.
Qed.

Lemma keeps_extractConfirmationDetails {X} (f : OrderResult -> X) :
  (forall text r, f (extractFields text r) = f r) ->
  keeps f (extractConfirmationDetails browser).
Proof.
  intros Hf st. pose proof (extractConfirmationDetails_run st) as H.
  destruct (browser _ BodyText (world st)) as [[text|e|[]] w1];
    rewrite H; cbn [snd result]; auto.
Qed.

(** The [catch] block never throws; it records the message and leaves
    [success] as it was. *)
Lemma onError_run (launched : bool) (e : string) (st : State W) :
  exists st',
    onError browser launched e st = (Ok tt, st') /\
    success (result st') = success (result st) /\
    error (result st') = Some e.
Proof.
  destruct (safe_onError browser launched e st) as ([] & Hsafe).
  exists (snd (onError browser launched e st)).
  split; [rewrite <- Hsafe; now destruct (onError _ _ _ _)|].
  unfold onError.
  rewrite (bind_run_ok _ _ st tt
             (mkState (world st) (log st) (set_error (Some e) (result st))))
    by reflexivity.
  set (st0 := mkState (world st) (log st) (set_error (Some e) (result st))).
  destruct (launched && screenshotOnError CONFIG); [|now split].
  match goal with
  | |- context [try_catch ?body ?h st0] =>
      assert (Hk : keeps (fun r => (success r, error r)) (try_catch body h))
        by (stage; apply keeps_modify; reflexivity);
      specialize (Hk st0)
  end.
  cbn [result st0] in Hk. now injection Hk as -> ->.
Qed.

(** What a run of [placeOrder] that returns a result has done: either every
    stage up to the confirmation page went through, the extraction ran, and
    the browser was closed; or the result is a failure with its message. *)
Lemma placeOrder_cases (orderData : OrderData) (st st' : State W)
    (r : OrderResult) :
  placeOrder browser fuel orderData st = (Ok r, st') ->
  (exists st1 sa sb,
     result st1 = initialResult /\
     stagesBeforeExtraction browser fuel orderData st1 = (Ok tt, sa) /\
     extractConfirmationDetails browser sa = (Ok tt, sb) /\
     r = set_success true (result sb) /\
     log st' = Did Close (Ok tt) :: log sb) \/
  (success r = false /\ exists e, error r = Some e).
Proof.
  unfold placeOrder. intros H.
  apply bind_ok in H as ([] & st0 & H0 & H). injection H0 as <-.
  apply bind_ok in H as (launched & st1 & Hlaunch & H).
  apply bind_ok in H as ([] & st2 & Hbody & Hget).
  injection Hget as <- <-.
  apply try_catch_inv in Hlaunch
    as [(a & Hlaunch & Ha) | [(e & s1 & Hlaunch & Hcatch) | (_ & Hx)]];
    [| |discriminate Hx].
  - (* the browser is launched *)
    injection Ha as ->.
    apply bind_ok in Hlaunch as ([] & s1 & Hcall & Hret).
    injection Hret as <- <-.
    apply call_inv in Hcall as (_ & Hres1). cbn [result] in Hres1.
    apply bind_ok in Hbody as ([] & s3 & Hrun & Hclose).
    apply call_inv in Hclose as (Hlog & Hres).
    rewrite Hres.
    apply try_catch_inv in Hrun
      as [([] & Hrun & _) | [(e & s2 & Hrun & Hcatch) | (_ & Hx)]];
      [| |discriminate Hx].
    + left. unfold afterLaunch in Hrun.
      apply bind_ok in Hrun as ([] & sa & Hstages & Hrun).
      apply bind_ok in Hrun as ([] & sb & Hextract & Hset).
      injection Hset as <-.
      exists s1, sa, sb. repeat split; assumption.
    + right.
      destruct (onError_run true e s2) as (s3' & Hon & Hs & He).
      rewrite Hon in Hcatch. injection Hcatch as <-.
      split; [|eauto]. rewrite Hs.
      pose proof (keeps_stagesBeforeExtraction browser fuel success
                    ltac:(reflexivity) orderData s1) as Hk.
      unfold afterLaunch in Hrun.
      apply bind_throw in Hrun as [Hstages | ([] & sa & Hstages & Hrun)];
        rewrite Hstages in Hk; cbn [snd] in Hk.
      * now rewrite Hk, Hres1.
      * apply bind_throw in Hrun as [Hextract | ([] & sb & _ & Hset)];
          [|discriminate Hset].
        pose proof (keeps_extractConfirmationDetails success
                      (fun t r0 => proj1 (extractFields_success_error t r0))
                      sa) as Hk2.
        rewrite Hextract in Hk2. cbn [snd] in Hk2.
        now rewrite Hk2, Hk, Hres1.
  - (* the launch failed: [browser] is not assigned *)
    right.
    apply bind_throw in Hlaunch as [Hcall | ([] & s0 & _ & Hret)];
      [|discriminate Hret].
    apply call_throw_inv in Hcall as (_ & Hres1). cbn [result] in Hres1.
    apply bind_ok in Hcatch as ([] & s2 & Hon & Hret).
    injection Hret as <- <-. cbn iota in Hbody. injection Hbody as <-.
    destruct (onError_run false e s1) as (s2' & Hon' & Hs & He).
    rewrite Hon' in Hon. injection Hon as <-.
    split; [now rewrite Hs, Hres1 | eauto].
Qed.

(** [placeOrder] hands a result to its caller on every run that ends,
    except that an error thrown by [browser.close()] in the [finally] block
    leaves it; a run that does not end is in a quantity loop. *)
Lemma placeOrder_returns (orderData : OrderData) (st : State W) :
  (exists r st', placeOrder browser fuel orderData st = (Ok r, st')) \/
  (exists e st' older,
     placeOrder browser fuel orderData st = (Throw e, st') /\
     log st' = Did Close (Throw e) :: older) \/
  (exists st', placeOrder browser fuel orderData st = (Running, st')).
Proof.
  unfold placeOrder.
  rewrite (bind_run_ok _ _ st tt (mkState (world st) (log st) initialResult))
    by reflexivity.
  set (st0 := mkState (world st) (log st) initialResult).
  destruct (try_catch (call browser Launch;; ret true)
              (fun message => onError browser false message;; ret false) st0)
    as [[launched|e|[]] st1] eqn:Hlaunch.
  - rewrite (bind_run_ok _ _ _ _ _ Hlaunch). destruct launched.
    + destruct (try_catch (afterLaunch browser fuel orderData)
                  (onError browser true) st1) as [[[]|e|[]] st2] eqn:Hrun.
      * destruct (call browser Close st2) as [[[]|e|[]] st3] eqn:Hclose.
        -- left. exists (result st3), st3.
           rewrite (bind_run_ok _ _ st1 tt st3); [reflexivity|].
           now rewrite (bind_run_ok _ _ _ _ _ Hrun).
        -- right; left. exists e, st3, (log st2).
           apply call_throw_inv in Hclose as Hlog. destruct Hlog as [Hlog _].
           split; [|exact Hlog].
           apply bind_run_throw.
           now rewrite (bind_run_ok _ _ _ _ _ Hrun).
        -- now apply call_settles in Hclose.
      * apply try_catch_inv in Hrun
          as [(a & _ & Ha) | [(e1 & s1 & _ & Hcatch) | (_ & Hx)]];
          [discriminate Ha| |discriminate Hx].
        destruct (onError_run true e1 s1) as (s2 & Hon & _).
        rewrite Hon in Hcatch. discriminate Hcatch.
      * right; right. exists st2.
        apply bind_run_running. now apply bind_run_running.
    + left. do 2 eexists. reflexivity.
  - apply try_catch_inv in Hlaunch
      as [(a & _ & Ha) | [(e1 & s1 & _ & Hcatch) | (_ & Hx)]];
      [discriminate Ha| |discriminate Hx].
    apply bind_throw in Hcatch as [Hon | ([] & s2 & _ & Hret)];
      [|discriminate Hret].
    destruct (onError_run false e1 s1) as (s2 & Hon' & _).
    rewrite Hon' in Hon. discriminate Hon.
  - exfalso. revert Hlaunch. apply settles_run. careful.
Qed.

Lemma stages_leave_fields (orderData : OrderData) (st1 sa : State W)
    (o : progress unit) :
  result st1 = initialResult ->
  stagesBeforeExtraction browser fuel orderData st1 = (o, sa) ->
  success (result sa) = false /\ error (result sa) = None /\
  confirmationNumber (result sa) = None /\
  estimatedPickupTime (result sa) = None.
Proof.
  intros Hinit Hrun.
  pose proof (keeps_stagesBeforeExtraction browser fuel
                (fun r => (success r, error r, confirmationNumber r,
                           estimatedPickupTime r))
                ltac:(reflexivity) orderData st1) as Hk.
  rewrite Hrun, Hinit in Hk. cbn [snd] in Hk.
  injection Hk as -> -> -> ->. repeat split.
Qed.

(** C7. The result returned by [placeOrder] has its [error] field set
    exactly when [success] is false: either [success] is true and [error]
    is null, or [success] is false and [error] holds the message of the
    error that was caught. *)
Theorem placeOrder_error_iff_failure (orderData : OrderData)
    (st st' : State W) (r : OrderResult) :
  placeOrder browser fuel orderData st = (Ok r, st') ->
  (success r = true /\ error r = None) \/
  (success r = false /\ exists message, error r = Some message).
Proof.
  intros H.
  apply placeOrder_cases in H
    as [(st1 & sa & sb & Hinit & Hstages & Hextract & -> & _) | H];
    [left | right; exact H].
  split; [reflexivity|]. cbn [error set_success].
  destruct (stages_leave_fields _ _ _ _ Hinit Hstages) as (_ & He & _).
  pose proof (keeps_extractConfirmationDetails error
                (fun t r0 => proj2 (extractFields_success_error t r0)) sa)
    as Hk.
  rewrite Hextract in Hk. cbn [snd] in Hk. now rewrite Hk.
Qed.

(** X25. When [placeOrder] returns with [success] true and the text of the
    confirmation page was read, [confirmationNumber] and
    [estimatedPickupTime] are not null; [confirmationNumber] is
    'ORDER_PLACED_NO_NUMBER' if no order-number pattern matches that text,
    and [estimatedPickupTime] is '30-40 minutes' if no pickup-time pattern
    matches it. *)
Theorem page_read_gives_confirmation_fields (orderData : OrderData)
    (st st' : State W) (r : OrderResult) (text : string) :
  placeOrder browser fuel orderData st = (Ok r, st') ->
  success r = true ->
  page_text (log st') = Some text ->
  (exists n, confirmationNumber r = Some n) /\
  (exists t, estimatedPickupTime r = Some t) /\
  (first_match orderNumberPatterns text = None ->
   confirmationNumber r = Some "ORDER_PLACED_NO_NUMBER") /\
  (first_match pickupPatterns text = None ->
   estimatedPickupTime r = Some "30-40 minutes").
Proof.
  intros H Hsuccess.
  apply placeOrder_cases in H
    as [(st1 & sa & sb & Hinit & Hstages & Hextract & -> & Hlog)
       | [Hfail _]];
    [|rewrite Hfail in Hsuccess; discriminate Hsuccess].
  destruct (stages_leave_fields _ _ _ _ Hinit Hstages) as (_ & _ & Hc & Hp).
  pose proof (extractConfirmationDetails_run sa) as Hrun.
  rewrite Hlog.
  destruct (browser _ BodyText (world sa)) as [[t|e|[]] w1];
    rewrite Hrun in Hextract; injection Hextract as <-;
    cbn [page_text body_text_of log result confirmationNumber
         estimatedPickupTime set_success];
    [|discriminate].
  intros Ht. injection Ht as <-.
  exact (extractFields_fields t (result sa) Hc Hp).
Qed.

End PlaceOrder.

(** C2. The claim fails on the code.  [extractConfirmationDetails] sets the
    two placeholders inside the [try] block that starts with the reading of
    the page text; when that reading throws, the [catch] block only logs,
    the placeholders are skipped, and [placeOrder] goes on to report a
    success.  In a run where every call of the browser works but that one,
    the result has [success] true, no confirmation number and no pickup
    time. *)
Lemma unreadable_page_counterexample :
  exists r st',
    placeOrder unreadablePage 10 testOrder (start tt) = (Ok r, st') /\
    success r = true /\
    confirmationNumber r = None /\
    estimatedPickupTime r = None.
Proof.
  eexists. eexists. split; [vm_compute; reflexivity|].
  repeat split.
Qed.

Lemma placeOrder_error_iff_failure_witness :
  let run := placeOrder noPizzaBrowser 10
               (mkOrder "2 pizzas" "John Smith" "4165551234" "ASAP" None)
               (start tt) in
  let r := set_error
             (Some "Failed to add pizzas to cart: Could not find menu item: pizzas")
             (push_screenshot (mkSnapshot "99-error-state" "" "")
                (push_screenshot (mkSnapshot "01-homepage" "" "")
                   (set_errorPageHTML (Some "") initialResult))) in
  run = (Ok r, snd run) /\
  ((success r = true /\ error r = None) \/
   (success r = false /\ exists message, error r = Some message)).
Proof.
  intros run r.
  assert (H : run = (Ok r, snd run)) by (vm_compute; reflexivity).
  split; [exact H|].
  exact (placeOrder_error_iff_failure noPizzaBrowser _ _ _ _ _ H).
Defined.

Lemma page_read_gives_confirmation_fields_witness :
  let run := placeOrder (pageBrowser "we got it, see you soon") 10 testOrder
               (start tt) in
  let r := match fst run with Ok r => r | _ => initialResult end in
  run = (Ok r, snd run) /\
  success r = true /\
  page_text (log (snd run)) = Some "we got it, see you soon" /\
  confirmationNumber r = Some "ORDER_PLACED_NO_NUMBER" /\
  estimatedPickupTime r = Some "30-40 minutes".
Proof.
  intros run r.
  assert (H : run = (Ok r, snd run)) by (vm_compute; reflexivity).
  assert (Hs : success r = true) by (vm_compute; reflexivity).
  assert (Ht : page_text (log (snd run)) = Some "we got it, see you soon")
    by (vm_compute; reflexivity).
  split; [exact H|]. split; [exact Hs|]. split; [exact Ht|].
  destruct (page_read_gives_confirmation_fields
              (pageBrowser "we got it, see you soon") _ _ _ _ _ _ H Hs Ht)
    as (_ & _ & Hn & Hp).
  split; [apply Hn | apply Hp]; vm_compute; reflexivity.
Defined.

(** ** The catch-all order-number pattern *)

Lemma upper_is_word (a : ascii) : is_upper a = true -> is_word a = true.
Proof. unfold is_word. now intros ->. Qed.

Lemma lower_is_word (a : ascii) : is_lower a = true -> is_word a = true.
Proof. unfold is_word. intros ->. now rewrite orb_true_r. Qed.

(** All the letters of the word at the head of a text are lowercase exactly
    when the run of lowercase letters at its head ends the word. *)
Lemma lowercase_word (s : string) :
  str_forall is_lower (take_while is_word s)
  = negb (word_after (mkCursor None (drop_while is_lower s))).
Proof.
  induction s as [|a s IH]; [reflexivity|].
  cbn [take_while drop_while].
  destruct (is_lower a) eqn:Hl.
  - rewrite (lower_is_word a Hl). cbn [str_forall]. now rewrite Hl, IH.
  - unfold word_after; cbn [ahead].
    destruct (is_word a); cbn [str_forall negb]; [now rewrite Hl | reflexivity].
Qed.

Lemma lowercase_word_run (s : string) :
  str_forall is_lower (take_while is_word s) = true ->
  take_while is_word s = take_while is_lower s.
Proof.
  induction s as [|a s IH]; [reflexivity|].
  cbn [take_while].
  destruct (is_lower a) eqn:Hl.
  - rewrite (lower_is_word a Hl). cbn [str_forall]. rewrite Hl.
    intros H. now rewrite IH.
  - destruct (is_word a); [|reflexivity].
    cbn [str_forall]. rewrite Hl. discriminate.
Qed.

Lemma behind_after_word (s : string) :
  forall b, word_before (mkCursor b "") = true ->
            word_before (mkCursor (behind_after is_lower b s) "") = true.
Proof.
  induction s as [|a s IH]; intros b Hb; [exact Hb|].
  cbn [behind_after]. destruct (is_lower a) eqn:Hl; [|exact Hb].
  apply IH. unfold word_before; cbn [behind]. now apply lower_is_word.
Qed.

(** A match attempt of the catch-all pattern at a position: it succeeds
    exactly at the start of a word that is capitalized, and captures it. *)
Lemma capitalizedWord_at (b : option ascii) (s : string) :
  option_map snd (match_at capitalizedWord (mkCursor b s))
  = if negb (word_before (mkCursor b s)) && capitalized (take_while is_word s)
    then Some [(1, take_while is_word s)]
    else None.
Proof.
  unfold match_at, capitalizedWord, Plus.
  cbn [rmatch behind ahead].
  unfold word_after at 1. cbn [ahead].
  destruct s as [|a rest].
  { cbn [take_while capitalized]. rewrite andb_false_r.
    now destruct (word_before _). }
  cbn [take_while].
  destruct (is_word a) eqn:Hw.
  2:{ cbn [capitalized]. rewrite andb_false_r.
      destruct (word_before _); cbn [xorb]; [|reflexivity].
      destruct (is_upper a) eqn:Hu; [|reflexivity].
      now rewrite (upper_is_word a Hu) in Hw. }
  destruct (word_before _) eqn:Hb; cbn [xorb negb andb]; [reflexivity|].
  cbn [capitalized].
  destruct (is_upper a) eqn:Hu.
  2:{ now destruct (take_while is_word rest). }
  destruct rest as [|a0 rest0]; [reflexivity|].
  cbn [take_while].
  destruct (is_lower a0) eqn:Hl.
  2:{ destruct (is_word a0); [now rewrite Hl | reflexivity]. }
  rewrite (lower_is_word a0 Hl). rewrite Hl. cbn [andb].
  rewrite star_iter_class by lia.
  rewrite greedy_longest
    with (Q := fun b0 => word_before (mkCursor b0 "") = true).
  - cbn [behind ahead].
    assert (Hbehind :
              word_before
                (mkCursor (behind_after is_lower (Some a0) rest0) "") = true)
      by (apply behind_after_word; unfold word_before; cbn [behind];
          now apply lower_is_word).
    unfold word_before in Hbehind; cbn [behind] in Hbehind.
    unfold word_before at 1; cbn [behind]. rewrite Hbehind. cbn [xorb].
    rewrite lowercase_word.
    replace (word_after
               {| behind := behind_after is_lower (Some a0) rest0;
                  ahead := drop_while is_lower rest0 |})
      with (word_after (mkCursor None (drop_while is_lower rest0)))
      by reflexivity.
    destruct (word_after _) eqn:Hend; cbn [negb]; [reflexivity|].
    cbn [option_map snd]. do 3 f_equal.
    assert (Hlow : str_forall is_lower (take_while is_word rest0) = true)
      by now rewrite lowercase_word, Hend.
    rewrite (lowercase_word_run rest0 Hlow).
    pose proof (length_drop_while_le is_lower rest0) as Hle.
    cbn [length].
    replace (S (S (length rest0)) - length (drop_while is_lower rest0))
      with (S (S (length rest0 - length (drop_while is_lower rest0))))
      by lia.
    cbn [str_take]. now rewrite str_take_consumed.
  - intros x Hx. unfold word_before; cbn [behind]. now apply lower_is_word.
  - intros b0 x s0 cs Hb0 Hx. cbn [behind].
    unfold word_before in Hb0 |- *; cbn [behind] in Hb0 |- *.
    unfold word_after; cbn [ahead].
    now rewrite Hb0, (lower_is_word x Hx).
  - unfold word_before; cbn [behind]. now apply lower_is_word.
Qed.

Lemma words_from_split (s : string) :
  forall cur,
    words_from cur s
    = match cur ++ take_while is_word s with
      | "" => words_from "" (drop_while is_word s)
      | w => w :: words_from "" (drop_while is_word s)
      end.
Proof.
  induction s as [|a s IH]; intros cur.
  - cbn [take_while drop_while words_from]. rewrite append_empty.
    now destruct cur.
  - cbn [take_while drop_while words_from].
    destruct (is_word a) eqn:Hw.
    + rewrite IH, append_assoc. reflexivity.
    + rewrite append_empty. cbn [words_from]. rewrite Hw.
      now destruct cur.
Qed.

Lemma exec_from_caps (r : regex) (b : option ascii) (s : string) (i : nat) :
  option_map m_caps (exec_from r b s i)
  = match option_map snd (match_at r (mkCursor b s)) with
    | Some cs => Some cs
    | None =>
        match s with
        | "" => None
        | String a s' => option_map m_caps (exec_from r (Some a) s' (S i))
        end
    end.
Proof.
  destruct s; cbn [exec_from];
    destruct (match_at r _) as [[c' cs]|]; reflexivity.
Qed.

(** The search for the catch-all pattern finds the first capitalized word
    among the words that start at or after the position of the search. *)
Lemma capitalizedWord_scan (s : string) :
  forall b i,
    option_map m_caps (exec_from capitalizedWord b s i)
    = option_map (fun w => [(1, w)])
        (find capitalized
           (words_from ""
              (if word_before (mkCursor b s) then drop_while is_word s
               else s))).
Proof.
  induction s as [|a s IH]; intros b i;
    rewrite exec_from_caps, capitalizedWord_at.
  - cbn [take_while capitalized]. rewrite andb_false_r.
    now destruct (word_before _).
  - replace (word_before (mkCursor b (String a s)))
      with (word_before (mkCursor b "")) by reflexivity.
    specialize (IH (Some a) (S i)).
    replace (word_before (mkCursor (Some a) s)) with (is_word a) in IH
      by reflexivity.
    destruct (word_before (mkCursor b "")); cbn [negb andb].
    + rewrite IH. cbn [drop_while].
      destruct (is_word a) eqn:Hw; [reflexivity|].
      cbn [words_from]. now rewrite Hw.
    + rewrite (words_from_split (String a s) ""). cbn [take_while drop_while].
      destruct (is_word a) eqn:Hw.
      * cbn [append find].
        destruct (capitalized (String a (take_while is_word s)));
          [reflexivity | exact IH].
      * cbn [capitalized append]. rewrite IH.
        cbn [words_from]. now rewrite Hw.
Qed.

Lemma capitalizedWord_first (text word : string) :
  first_capitalized_word text = Some word ->
  exists m, exec capitalizedWord text = Some m /\ group 1 m = Some word.
Proof.
  unfold first_capitalized_word, words, exec. intros H.
  pose proof (capitalizedWord_scan text None 0) as Hscan.
  cbn [word_before behind] in Hscan. rewrite H in Hscan.
  destruct (exec_from capitalizedWord None text 0) as [m|]; [|discriminate].
  exists m. split; [reflexivity|].
  injection Hscan as Hcaps. unfold group. now rewrite Hcaps.
Qed.

Lemma capitalized_not_falsy (word : string) :
  capitalized word = true -> falsy (Some word) = false.
Proof. destruct word; [discriminate | reflexivity]. Qed.

Section CatchAll.

Context {W : Type}.
Variable browser : forall T, Call T -> W -> outcome T * W.
Variable fuel : nat.

(** C9. When the text of the confirmation page matches none of the first
    three order-number patterns and has a capitalized word in it (a word
    made of an uppercase letter followed by lowercase letters), the
    extractor sets [confirmationNumber] to the first such word of the text,
    which is not the placeholder: the catch-all pattern fires. *)
Theorem catch_all_pattern_fires (st : State W) (text word : string) (w1 : W) :
  browser _ BodyText (world st) = (Ok text, w1) ->
  exec orderNumberLabel text = None ->
  exec orderLabel text = None ->
  exec hashCode text = None ->
  first_capitalized_word text = Some word ->
  confirmationNumber (result (snd (extractConfirmationDetails browser st)))
  = Some word /\
  word <> ORDER_PLACED_NO_NUMBER.
Proof.
  intros Hread H1 H2 H3 Hword.
  pose proof (extractConfirmationDetails_run browser st) as Hrun.
  rewrite Hread in Hrun. rewrite Hrun. cbn [snd result].
  assert (Hcap : capitalized word = true).
  { unfold first_capitalized_word in Hword.
    now apply find_some in Hword as [_ Hcap]. }
  split.
  - unfold extractFields.
    destruct (extractTotal_others text
                (extractPickupTime text (extractOrderNumber text (result st))))
      as (-> & _).
    destruct (extractPickupTime_others text
                (extractOrderNumber text (result st))) as (-> & _).
    unfold extractOrderNumber, orderNumberPatterns. cbn [first_match].
    rewrite H1, H2, H3.
    destruct (capitalizedWord_first text word Hword) as (m & -> & Hgroup).
    rewrite Hgroup. cbn [confirmationNumber set_confirmationNumber].
    now rewrite (capitalized_not_falsy word Hcap).
  - intros ->. discriminate Hcap.
Qed.

End CatchAll.

Lemma catch_all_pattern_fires_witness :
  let text := "Thank you! Your food will be ready soon." in
  let st := start tt in
  pageBrowser text _ BodyText (world st) = (Ok text, tt) /\
  exec orderNumberLabel text = None /\
  exec orderLabel text = None /\
  exec hashCode text = None /\
  first_capitalized_word text = Some "Thank" /\
  confirmationNumber
    (result (snd (extractConfirmationDetails (pageBrowser text) st)))
  = Some "Thank".
Proof.
  intros text st.
  assert (H0 : pageBrowser text _ BodyText (world st) = (Ok text, tt))
    by reflexivity.
  assert (H1 : exec orderNumberLabel text = None) by (vm_compute; reflexivity).
  assert (H2 : exec orderLabel text = None) by (vm_compute; reflexivity).
  assert (H3 : exec hashCode text = None) by (vm_compute; reflexivity).
  assert (H4 : first_capitalized_word text = Some "Thank")
    by (vm_compute; reflexivity).
  repeat (split; [assumption|]).
  exact (proj1 (catch_all_pattern_fires (pageBrowser text) st text "Thank" tt
                  H0 H1 H2 H3 H4)).
Defined.

(** ** Stages that never throw, calls that are never made *)

Section BestEffort.

Context {W : Type}.
Variable browser : forall T, Call T -> W -> outcome T * W.
Variable fuel : nat.

(** X1. The best-effort steps never throw, whatever the browser does: the
    screenshot, the pickup notes, the check of the payment method, the
    extraction of the confirmation details, the quantity clicks and the
    [catch] block of [placeOrder]. *)
Theorem best_effort_steps_never_throw :
  (forall label, safe (takeScreenshot browser label)) /\
  (forall instructions, safe (addPickupNotes browser instructions)) /\
  safe (verifyPaymentMethod browser) /\
  safe (extractConfirmationDetails browser) /\
  (forall n, safe (increaseQuantity browser n)) /\
  (forall launched e, safe (onError browser launched e)).
Proof.
  repeat split.
  - apply safe_takeScreenshot.
  - intros instructions. unfold addPickupNotes. careful.
  - unfold verifyPaymentMethod. careful.
  - unfold extractConfirmationDetails. careful.
  - apply safe_increaseQuantity.
  - apply safe_onError.
Qed.

(** X2. [handleItemModal] throws only on its first question to the page:
    when the check for required selections throws, that error is thrown
    and nothing else is done; when it answers, nothing that follows throws,
    whatever happens to the default selection, to the modifications and to
    the quantity clicks.  The modal handling then ends normally, or, for a
    quantity above 2^53 only, is still in its quantity loop. *)
Theorem handleItemModal_only_first_call_is_fatal (item : ParsedLineItem)
    (st : State W) :
  match browser _ (EvaluateBool HasRequiredSelection) (world st) with
  | (Throw e, w1) =>
      handleItemModal browser fuel item st
      = (Throw e,
         mkState w1 (Did (EvaluateBool HasRequiredSelection) (Throw e)
                       :: log st) (result st))
  | (Ok _, _) =>
      fst (handleItemModal browser fuel item st) = Ok tt \/
      (loopBound (quantity item) = None /\
       fst (handleItemModal browser fuel item st) = Running)
  | (Neither x, _) => match x with end
  end.
Proof.
  unfold handleItemModal.
  destruct (browser _ (EvaluateBool HasRequiredSelection) (world st))
    as [[required|e|[]] w1] eqn:Hcall.
  - assert (Hrun : call browser (EvaluateBool HasRequiredSelection) st
                   = (Ok required,
                      mkState w1
                        (Did (EvaluateBool HasRequiredSelection) (Ok required)
                           :: log st) (result st)))
      by (unfold call; now rewrite Hcall).
    rewrite (bind_run_ok _ _ _ _ _ Hrun).
    destruct (loopBound (quantity item)) as [n|] eqn:Hbound.
    + left.
      match goal with
      | |- fst (?m ?s) = _ =>
          assert (Hsafe : safe m) by careful;
          destruct (Hsafe s) as ([] & ->)
      end.
      reflexivity.
    + repeat match goal with
             | |- context [bind ?m ?f ?s] =>
                 assert (Hm : safe m) by careful;
                 destruct (safe_run m s Hm) as ([] & ? & Hstep);
                 rewrite (bind_run_ok m f s tt _ Hstep); clear Hm Hstep
             end.
      destruct (num_ltb 1 (quantity item)); [|now left].
      match goal with
      | |- context [increaseForEver browser fuel ?s] =>
          destruct (increaseForEver_outcome browser fuel s) as [H | H]
      end;
        [left | right; split; [reflexivity|]]; exact H.
  - apply bind_run_throw. unfold call. now rewrite Hcall.
Qed.

End BestEffort.

(** ** The element locator and the add-to-cart confirmation *)

(** Runs the browser calls of the goal one after the other, on both
    answers. *)
Ltac answer_calls browser :=
  repeat (cbn [world log result fst snd settled];
          match goal with
          | |- context [browser ?T ?c ?w] =>
              destruct (browser T c w) as [[?|?|[]] ?]
          end);
  repeat match goal with x : unit |- _ => destruct x end;
  cbn [world log result fst snd settled].

Ltac cart_leaf k :=
  eexists;
  (split; [cbn [log snd]; new_entries|]);
  (split; [reflexivity|]); (split; [reflexivity|]);
  cbn [fst];
  first [ split; reflexivity
        | exists k; eexists; split; reflexivity ].

Section Locator.

Context {W : Type}.
Variable browser : forall T, Call T -> W -> outcome T * W.
Variable fuel : nat.

(** X3. [findAndClickItem] stops at the first method that works: when the
    exact-text lookup answers and the click on what it found goes through,
    these two calls are all it makes, and the other two methods are not
    tried. *)
Theorem findAndClickItem_stops_at_first_method (item : ParsedLineItem)
    (st : State W) (h : Handle) (w1 w2 : W) :
  browser _ (EvaluateHandle (FindItemExact (name item))) (world st)
  = (Ok h, w1) ->
  browser _ (ClickHandle h) w1 = (Ok tt, w2) ->
  findAndClickItem browser item st
  = (Ok tt,
     mkState w2
       (Did (ClickHandle h) (Ok tt)
          :: Did (EvaluateHandle (FindItemExact (name item))) (Ok h)
          :: log st)
       (result st)).
Proof.
  intros Hfind Hclick.
  unfold findAndClickItem, bind, try_catch, call, ret.
  rewrite Hfind. cbn [world log result settled]. rewrite Hclick.
  reflexivity.
Qed.


(** X5. [clickAddToCart] clicks the button by its text first and then by
    the five selectors, in the order of the array, and makes no other call.
    It stops at the first click that works: the clicks before it have all
    failed and none follows it.  It throws one error only, "Could not find
    Add to Cart button", and only when all six clicks have failed.  The
    result object is left as it was. *)
Theorem clickAddToCart_order (st : State W) :
  exists new,
    log (snd (clickAddToCart browser st)) = (new ++ log st)%list /\
    result (snd (clickAddToCart browser st)) = result st /\
    List.length (flat_map cart_click new) = List.length new /\
    match fst (clickAddToCart browser st) with
    | Ok _ =>
        exists k method,
          nth_error cartMethods k = Some method /\
          rev (flat_map cart_click new)
          = (map failed (firstn k cartMethods) ++ [(method, true)])%list
    | Throw e =>
        e = "Could not find Add to Cart button" /\
        rev (flat_map cart_click new) = map failed cartMethods
    | Neither _ => False
    end.
Proof.
  unfold clickAddToCart, addButtonSelectors, clickFirstSelector,
    bind, try_catch, call, ret, throw.
  answer_calls browser;
    [ cart_leaf 0 | cart_leaf 1 | cart_leaf 2 | cart_leaf 3 | cart_leaf 4
    | cart_leaf 5 | cart_leaf 5 ].
Qed.

End Locator.

Lemma findAndClickItem_stops_at_first_method_witness :
  let item := mkItem "bruschetta" "Bruschetta" 1 [] in
  let st := start tt in
  smoothBrowser _ (EvaluateHandle (FindItemExact (name item))) (world st)
  = (Ok 0, tt) /\
  smoothBrowser _ (ClickHandle 0) tt = (Ok tt, tt) /\
  findAndClickItem smoothBrowser item st
  = (Ok tt,
     mkState tt
       [Did (ClickHandle 0) (Ok tt);
        Did (EvaluateHandle (FindItemExact "Bruschetta")) (Ok 0)]
       initialResult).
Proof.
  intros item st.
  split; [reflexivity|]. split; [reflexivity|].
  exact (findAndClickItem_stops_at_first_method smoothBrowser item st 0 tt tt
           eq_refl eq_refl).
Defined.


(** ** The customization modal *)

Section Modal.

Context {W : Type}.
Variable browser : forall T, Call T -> W -> outcome T * W.
Variable fuel : nat.

Lemma silent_increaseQuantity {X} (proj : Entry -> list X) (n : nat) :
  proj (Did (Evaluate ClickPlus) (Ok tt)) = [] ->
  (forall e, proj (Did (Evaluate ClickPlus) (Throw e)) = []) ->
  (forall a, proj (Did (WaitForTimeout 500) a) = []) ->
  silent proj (increaseQuantity browser n).
Proof.
  intros Hok Hthrow Hwait.
  induction n as [|n IH]; cbn [increaseQuantity]; careful.
  - apply silent_call. intros [[]|e|[]]; auto.
  - apply silent_call. exact Hwait.
Qed.

Lemma silent_increaseForEver {X} (proj : Entry -> list X) (n : nat) :
  proj (Did (Evaluate ClickPlus) (Ok tt)) = [] ->
  (forall e, proj (Did (Evaluate ClickPlus) (Throw e)) = []) ->
  (forall a, proj (Did (WaitForTimeout 500) a) = []) ->
  silent proj (increaseForEver browser n).
Proof.
  intros Hok Hthrow Hwait.
  induction n as [|n IH]; cbn [increaseForEver];
    [intros st; now exists []|].
  careful.
  - apply silent_call. intros [[]|e|[]]; auto.
  - apply silent_call. exact Hwait.
Qed.

Lemma clicks_increaseQuantity (n : nat) :
  clicks_at_most n (increaseQuantity browser n).
Proof.
  induction n as [|n IH]; intros st.
  - exists [], 0. cbn. auto.
  - cbn [increaseQuantity]. unfold bind at 1, try_catch, bind, call, ret.
    answer_calls browser.
    + match goal with
      | |- context [increaseQuantity browser n ?s] =>
          destruct (IH s) as (new & k & Hlog & Hk & Hclicks);
          destruct (increaseQuantity browser n s) as [o s']
      end.
      cbn [snd log] in *.
      exists (new ++ [Did (WaitForTimeout 500) (Ok tt);
                      Did (Evaluate ClickPlus) (Ok tt)])%list, (S k).
      split; [now rewrite Hlog, <- app_assoc|].
      split; [lia|].
      rewrite flat_map_app, rev_app_distr. cbn [flat_map plus_click app rev].
      destruct Hclicks as [-> | [-> Hlt]]; [left | right; split; [|lia]];
        reflexivity.
    + exists [Did (WaitForTimeout 500) (Throw message);
              Did (Evaluate ClickPlus) (Ok tt)], 1.
      split; [reflexivity|]. split; [lia|]. left. reflexivity.
    + exists [Did (Evaluate ClickPlus) (Throw message)], 0.
      split; [reflexivity|]. split; [lia|]. right. split; [reflexivity|lia].
Qed.

Lemma clicks_bind_silent {A B} (n : nat) (m : M W A) (g : A -> M W B) :
  silent plus_click m -> (forall a, clicks_at_most n (g a)) ->
  clicks_at_most n (bind m g).
Proof.
  intros Hm Hg st. unfold bind. destruct (Hm st) as (n1 & L1 & Q1).
  destruct (m st) as [[a|e|x] st1]; cbn [snd] in *.
  - destruct (Hg a st1) as (n2 & k & L2 & Hk & Hclicks).
    exists (n2 ++ n1)%list, k. split; [now rewrite L2, L1, app_assoc|].
    split; [exact Hk|].
    now rewrite flat_map_app, Q1, app_nil_r.
  - exists n1, 0. split; [exact L1|]. split; [lia|]. left. now rewrite Q1.
  - exists n1, 0. split; [exact L1|]. split; [lia|]. left. now rewrite Q1.
Qed.

(** X6. For a quantity up to 2^53, the quantity loop of [handleItemModal]
    clicks "+" at most (quantity - 1) times, not at all for a quantity of 0
    or 1, and gives up at the first click that fails: the clicks it makes
    are clicks that worked, followed by at most one that failed. *)
Theorem handleItemModal_quantity_clicks (item : ParsedLineItem) (q : N) :
  quantity item = Finite q -> (q <= 2 ^ 53)%N ->
  clicks_at_most (N.to_nat (q - 1)) (handleItemModal browser fuel item).
Proof.
  intros Hq Hbound. unfold handleItemModal.
  apply clicks_bind_silent; [careful|]. intros required.
  apply clicks_bind_silent; [careful|]. intros _.
  apply clicks_bind_silent; [careful|]. intros _.
  rewrite Hq. cbn [num_ltb loopBound].
  apply N.leb_le in Hbound. rewrite Hbound.
  destruct (1 <? q)%N.
  - apply clicks_increaseQuantity.
  - intros st. exists [], 0. cbn. split; [reflexivity|]. split; [lia|].
    now left.
Qed.

Lemma loopBound_none_above_one (q : number) :
  loopBound q = None -> num_ltb 1 q = true.
Proof.
  destruct q as [n|]; [|reflexivity]. cbn [loopBound num_ltb].
  destruct (n <=? 2 ^ 53)%N eqn:Hn; [discriminate|]. intros _.
  apply N.leb_gt in Hn. apply N.ltb_lt.
  assert (1 < 2 ^ 53)%N by reflexivity. lia.
Qed.

Lemma still_clicking_bind {A B} (n : nat) (m : M W A) (g : A -> M W B)
    (st st1 : State W) (a : A) :
  m st = (Ok a, st1) -> silent plus_click m ->
  still_clicking n (g a) st1 -> still_clicking n (bind m g) st.
Proof.
  intros Hrun Hm (Hrunning & new & Hlog & Hclicks).
  destruct (Hm st) as (n1 & L1 & Q1). rewrite Hrun in L1. cbn [snd] in L1.
  unfold still_clicking. rewrite (bind_run_ok m g st a st1 Hrun).
  split; [exact Hrunning|].
  exists (new ++ n1)%list. split.
  - now rewrite Hlog, L1, app_assoc.
  - now rewrite flat_map_app, Q1, app_nil_r.
Qed.

Lemma increaseForEver_runs (n : nat) :
  (forall w, exists w', browser _ (Evaluate ClickPlus) w = (Ok tt, w')) ->
  (forall w, exists w', browser _ (WaitForTimeout 500) w = (Ok tt, w')) ->
  forall st, still_clicking n (increaseForEver browser n) st.
Proof.
  intros Hplus Hwait. induction n as [|n IH]; intros st.
  - split; [reflexivity|]. now exists [].
  - cbn [increaseForEver]. unfold still_clicking.
    unfold bind at 1 2, try_catch, bind, call, ret.
    destruct (Hplus (world st)) as (w1 & ->). cbn [settled world].
    destruct (Hwait w1) as (w2 & ->). cbn [settled world log result].
    match goal with
    | |- context [increaseForEver browser n ?s] =>
        destruct (IH s) as (Hrunning & new & Hlog & Hclicks)
    end.
    split; [exact Hrunning|].
    exists (new ++ [Did (WaitForTimeout 500) (Ok tt);
                    Did (Evaluate ClickPlus) (Ok tt)])%list.
    split.
    + rewrite Hlog. cbn [log]. now rewrite <- app_assoc.
    + rewrite flat_map_app, Hclicks. cbn [flat_map plus_click app].
      symmetry. apply repeat_cons.
Qed.

(** X27. For a quantity above 2^53 the quantity loop of [handleItemModal]
    does not end by itself: when the check for required selections answers,
    and the clicks on "+" and the waits of half a second always work, the
    modal handling is still running after any number [fuel] of iterations,
    and has then made [fuel] clicks on "+", all of which worked. *)
Theorem quantity_loop_does_not_end (item : ParsedLineItem) (st : State W) :
  loopBound (quantity item) = None ->
  (forall w, exists w', browser _ (Evaluate ClickPlus) w = (Ok tt, w')) ->
  (forall w, exists w', browser _ (WaitForTimeout 500) w = (Ok tt, w')) ->
  (forall e,
     fst (browser _ (EvaluateBool HasRequiredSelection) (world st))
     <> Throw e) ->
  fst (handleItemModal browser fuel item st) = Running /\
  exists new,
    log (snd (handleItemModal browser fuel item st)) = (new ++ log st)%list /\
    flat_map plus_click new = repeat true fuel.
Proof.
  intros Hnone Hplus Hwait Hfirst.
  change (still_clicking fuel (handleItemModal browser fuel item) st).
  unfold handleItemModal.
  rewrite Hnone, (loopBound_none_above_one _ Hnone).
  destruct (browser _ (EvaluateBool HasRequiredSelection) (world st))
    as [[required|e|[]] w1] eqn:Hcall;
    [|now destruct (Hfirst e)].
  assert (Hrun : call browser (EvaluateBool HasRequiredSelection) st
                 = (Ok required,
                    mkState w1
                      (Did (EvaluateBool HasRequiredSelection) (Ok required)
                         :: log st) (result st)))
    by (unfold call; now rewrite Hcall).
  apply (still_clicking_bind _ _ _ _ _ _ Hrun); [careful|].
  do 2 match goal with
       | |- still_clicking _ (bind ?m ?g) ?s =>
           let Hm := fresh "Hm" in
           let Hstep := fresh "Hstep" in
           assert (Hm : safe m) by careful;
           destruct (safe_run m s Hm) as (? & ? & Hstep);
           apply (still_clicking_bind _ _ _ _ _ _ Hstep); [careful|]
       end.
  now apply increaseForEver_runs.
Qed.

Lemma modifier_clicks (mods : list string) :
  forall st,
    exists new st',
      for_each
        (fun modText =>
           try_catch
             (call browser (Evaluate (ClickModifier modText)) ;;
              call browser (WaitForTimeout 500))
             (fun _ => ret tt))
        mods st = (Ok tt, st') /\
      log st' = (new ++ log st)%list /\
      rev (flat_map modifier_click new) = mods.
Proof.
  set (body := fun modText : string =>
                 try_catch
                   (call browser (Evaluate (ClickModifier modText)) ;;
                    call browser (WaitForTimeout 500))
                   (fun _ => ret tt)).
  induction mods as [|m mods IH]; intros st.
  - exists [], st. repeat split.
  - cbn [for_each]. unfold bind at 1. unfold body at 1.
    unfold try_catch, bind, call, ret.
    answer_calls browser;
      match goal with
      | |- context [for_each body mods ?s] =>
          destruct (IH s) as (new & st' & -> & Hlog & Hclicks)
      end;
      cbn [log] in Hlog.
    + exists (new ++ [Did (WaitForTimeout 500) (Ok tt);
                      Did (Evaluate (ClickModifier m)) (Ok tt)])%list, st'.
      split; [reflexivity|]. split; [now rewrite Hlog, <- app_assoc|].
      now rewrite flat_map_app, rev_app_distr, Hclicks.
    + exists (new ++ [Did (WaitForTimeout 500) (Throw message);
                      Did (Evaluate (ClickModifier m)) (Ok tt)])%list, st'.
      split; [reflexivity|]. split; [now rewrite Hlog, <- app_assoc|].
      now rewrite flat_map_app, rev_app_distr, Hclicks.
    + exists (new ++ [Did (Evaluate (ClickModifier m)) (Throw message)])%list,
        st'.
      split; [reflexivity|]. split; [now rewrite Hlog, <- app_assoc|].
      now rewrite flat_map_app, rev_app_distr, Hclicks.
Qed.

(** X7. Once the page has answered the check for required selections,
    [handleItemModal] tries every requested modification exactly once, in
    the order of the item's list, whether or not the earlier ones (or the
    default selection) worked. *)
Theorem handleItemModal_tries_every_modification (item : ParsedLineItem)
    (st : State W) (required : bool) (w1 : W) :
  browser _ (EvaluateBool HasRequiredSelection) (world st)
  = (Ok required, w1) ->
  exists new,
    log (snd (handleItemModal browser fuel item st)) = (new ++ log st)%list /\
    rev (flat_map modifier_click new) = modifications item.
Proof.
  intros Hcall. unfold handleItemModal.
  assert (Hrun : call browser (EvaluateBool HasRequiredSelection) st
                 = (Ok required,
                    mkState w1
                      (Did (EvaluateBool HasRequiredSelection) (Ok required)
                         :: log st) (result st)))
    by (unfold call; now rewrite Hcall).
  rewrite (bind_run_ok _ _ _ _ _ Hrun).
  set (s1 := mkState w1 _ (result st)).
  match goal with
  | |- context [bind ?m ?g s1] =>
      assert (Hsafe : safe m) by careful;
      assert (Hsilent : silent modifier_click m) by careful;
      destruct (Hsafe s1) as ([] & Hok);
      destruct (Hsilent s1) as (n1 & L1 & Q1);
      destruct (m s1) as [o s2] eqn:Hblock
  end.
  cbn [fst snd] in Hok, L1. subst o.
  rewrite (bind_run_ok _ _ _ _ _ Hblock).
  destruct (modifier_clicks (modifications item) s2)
    as (nm & s3 & Hmods & Lm & Qm).
  rewrite (bind_run_ok _ _ _ _ _ Hmods).
  match goal with
  | |- context [log (snd (?m s3))] =>
      assert (Hq : silent modifier_click m)
        by (careful;
            first [apply silent_increaseQuantity
                  | apply silent_increaseForEver]; intros; reflexivity);
      destruct (Hq s3) as (n3 & L3 & Q3)
  end.
  exists (n3 ++ nm ++ n1 ++ [Did (EvaluateBool HasRequiredSelection)
                               (Ok required)])%list.
  split.
  - rewrite L3, Lm, L1. subst s1. cbn [log].
    now rewrite <- !app_assoc.
  - rewrite !flat_map_app, Q3, Q1. cbn [flat_map modifier_click app].
    now rewrite app_nil_r.
Qed.

End Modal.

(** ** What the pipeline calls, and when *)

Lemma silent_clickFirstSelector {W X} (browser : forall T, Call T -> W -> outcome T * W)
    (proj : Entry -> list X) (l : list AddButtonSelector) :
  (forall s a, proj (Did (ClickSelector s) a) = []) ->
  silent proj (clickFirstSelector browser l).
Proof.
  intros Hsel. induction l as [|x l IH]; cbn [clickFirstSelector]; careful.
  apply silent_call. apply Hsel.
Qed.

#[global] Hint Extern 1 (silent _ (increaseQuantity _ _)) =>
  (apply silent_increaseQuantity; intros; reflexivity) : careful.
#[global] Hint Extern 1 (silent _ (increaseForEver _ _)) =>
  (apply silent_increaseForEver; intros; reflexivity) : careful.
#[global] Hint Extern 1 (silent _ (clickFirstSelector _ _)) =>
  (apply silent_clickFirstSelector; intros; reflexivity) : careful.

(** Opens the stages of the pipeline down to the browser calls. *)
Ltac open_stages :=
  unfold afterLaunch, onError, stagesBeforeExtraction,
    extractConfirmationDetails, takeScreenshot, addItemsToCart, addItems,
    addItem, addItemSteps, findAndClickItem, handleItemModal, clickAddToCart,
    clickCheckout, continueAsGuest, fillGuestInfo, fillField,
    submitGuestForm, addNotesIfAny, addPickupNotes, verifyPaymentMethod,
    placeOrderFinal.

Section Calls.

Context {W : Type}.
Variable browser : forall T, Call T -> W -> outcome T * W.
Variable fuel : nat.

(** X8. When [addItemsToCart] ends normally, every parsed item has been
    looked up on the menu exactly once, under its canonical name, in the
    order of the order string. *)
Theorem addItemsToCart_looks_up_every_item (orderItems : string)
    (st st' : State W) :
  addItemsToCart browser fuel orderItems st = (Ok tt, st') ->
  exists new,
    log st' = (new ++ log st)%list /\
    rev (attempted_names new) = map name (parseOrderItems orderItems).
Proof.
  unfold addItemsToCart. intros H.
  apply addItems_ok_names in H as (new & Hlog & Hnames).
  exists new. split; [exact Hlog|].
  rewrite Hnames. apply rev_involutive.
Qed.

(** X9. [placeOrder] closes the browser exactly when it has launched it
    and the run has come to its end.  When the launch throws, the launch is
    the only call made and the result is the initial one with that error.
    Otherwise, either [browser.close()] is called once, as the last call of
    the run, whatever happened in between; or the run is still in a quantity
    loop, and [browser.close()] has not been called. *)
Theorem placeOrder_closes_what_it_launched (orderData : OrderData)
    (st : State W) :
  (exists e w1,
     browser _ Launch (world st) = (Throw e, w1) /\
     placeOrder browser fuel orderData st
     = (Ok (set_error (Some e) initialResult),
        mkState w1 (Did Launch (Throw e) :: log st)
          (set_error (Some e) initialResult))) \/
  (exists w1 answer new,
     browser _ Launch (world st) = (Ok tt, w1) /\
     log (snd (placeOrder browser fuel orderData st))
     = (Did Close answer :: new ++ Did Launch (Ok tt) :: log st)%list /\
     flat_map close_call new = []) \/
  (exists w1 new,
     browser _ Launch (world st) = (Ok tt, w1) /\
     fst (placeOrder browser fuel orderData st) = Running /\
     log (snd (placeOrder browser fuel orderData st))
     = (new ++ Did Launch (Ok tt) :: log st)%list /\
     flat_map close_call new = []).
Proof.
  unfold placeOrder.
  rewrite (bind_run_ok _ _ st tt (mkState (world st) (log st) initialResult))
    by reflexivity.
  destruct (browser _ Launch (world st)) as [[[]|e|[]] w1] eqn:Hlaunch.
  - right.
    set (st1 := mkState w1 (Did Launch (Ok tt) :: log st) initialResult).
    rewrite (bind_run_ok _ _ _ true st1)
      by (unfold try_catch, bind, call, ret; cbn [world];
          now rewrite Hlaunch).
    assert (Hsilent : silent close_call
                        (try_catch (afterLaunch browser fuel orderData)
                           (onError browser true)))
      by (open_stages; careful).
    destruct (Hsilent st1) as (new & Hlog & Hnone).
    destruct (try_catch (afterLaunch browser fuel orderData)
                (onError browser true) st1) as [[[]|e|[]] s2] eqn:Hrun;
      cbn [snd] in Hlog.
    + left.
      destruct (browser _ Close (world s2)) as [answer w3] eqn:Hclose.
      exists w1, answer, new.
      split; [reflexivity|]. split; [|exact Hnone].
      unfold bind at 1. unfold bind at 1. rewrite Hrun.
      unfold call. rewrite Hclose.
      destruct answer as [[]|?|[]]; cbn [settled snd fst log get_result];
        now rewrite Hlog.
    + apply try_catch_inv in Hrun
        as [(a & _ & Ha) | [(e1 & s1 & _ & Hcatch) | (_ & Hx)]];
        [discriminate Ha| |discriminate Hx].
      destruct (onError_run browser true e1 s1) as (s2' & Hon & _).
      rewrite Hon in Hcatch. discriminate Hcatch.
    + right. exists w1, new.
      split; [reflexivity|].
      rewrite (bind_run_running _ _ st1 s2)
        by (now apply bind_run_running).
      cbn [fst snd]. auto.
  - left. exists e, w1. split; [reflexivity|].
    unfold bind, try_catch, call, ret, onError, modify_result, get_result.
    cbn [world log result]. rewrite Hlaunch. reflexivity.
Qed.

Lemma addNotesIfAny_skipped (v : option string) :
  noInstructions v = true -> addNotesIfAny browser v = ret tt.
Proof.
  unfold noInstructions, addNotesIfAny. destruct v as [text|]; [|reflexivity].
  destruct (falsy (Some text)); [reflexivity|].
  cbn [orb negb andb]. now intros ->.
Qed.

(** X10. When the special instructions are absent, empty or blank,
    [placeOrder] never looks for the notes field. *)
Theorem placeOrder_without_instructions (orderData : OrderData) :
  noInstructions (special_instructions orderData) = true ->
  silent notes_query (placeOrder browser fuel orderData).
Proof.
  intros Hnone. unfold placeOrder, afterLaunch, stagesBeforeExtraction.
  rewrite (addNotesIfAny_skipped _ Hnone).
  open_stages. careful.
Qed.

End Calls.

(** ** What a returned result holds *)

Lemma length_str_take (n : nat) (s : string) : length (str_take n s) <= n.
Proof.
  revert s; induction n as [|n IH]; intros [|a s]; cbn; try lia.
  specialize (IH s). lia.
Qed.

Lemma Subseq_refl {A} (l : list A) : Subseq l l.
Proof. induction l; constructor; assumption. Qed.

Lemma Subseq_app {A} (a b l1 l2 : list A) :
  Subseq a l1 -> Subseq b l2 -> Subseq (a ++ b) (l1 ++ l2).
Proof.
  intros Ha Hb. induction Ha as [l|x a l Ha IH|x a l Ha IH]; cbn.
  - induction l as [|y l IH]; cbn; [exact Hb | now constructor].
  - now constructor.
  - now constructor.
Qed.

Lemma Subseq_app_l {A} (a l1 l2 : list A) :
  Subseq a l1 -> Subseq a (l1 ++ l2).
Proof.
  intros Ha. rewrite <- (app_nil_r a). apply Subseq_app; [exact Ha|].
  constructor.
Qed.

Section Results.

Context {W : Type}.
Variable browser : forall T, Call T -> W -> outcome T * W.
Variable fuel : nat.

(** The three ways in which [placeOrder] comes to return a result: every
    stage went through; a stage after the launch threw; the launch threw. *)
Lemma placeOrder_runs (orderData : OrderData) (st st' : State W)
    (r : OrderResult) :
  placeOrder browser fuel orderData st = (Ok r, st') ->
  (exists w1 sa sb,
     browser _ Launch (world st) = (Ok tt, w1) /\
     stagesBeforeExtraction browser fuel orderData
       (mkState w1 (Did Launch (Ok tt) :: log st) initialResult)
     = (Ok tt, sa) /\
     extractConfirmationDetails browser sa = (Ok tt, sb) /\
     r = set_success true (result sb)) \/
  (exists w1 e sa s',
     browser _ Launch (world st) = (Ok tt, w1) /\
     stagesBeforeExtraction browser fuel orderData
       (mkState w1 (Did Launch (Ok tt) :: log st) initialResult)
     = (Throw e, sa) /\
     onError browser true e sa = (Ok tt, s') /\
     r = result s') \/
  (exists w1 e s',
     browser _ Launch (world st) = (Throw e, w1) /\
     onError browser false e
       (mkState w1 (Did Launch (Throw e) :: log st) initialResult)
     = (Ok tt, s') /\
     r = result s').
Proof.
  unfold placeOrder. intros H.
  apply bind_ok in H as ([] & st0 & H0 & H). injection H0 as <-.
  apply bind_ok in H as (launched & st1 & Hlaunch & H).
  apply bind_ok in H as ([] & st2 & Hbody & Hget).
  injection Hget as <- <-.
  apply try_catch_inv in Hlaunch
    as [(a & Hlaunch & Ha) | [(e & s1 & Hlaunch & Hcatch) | (_ & Hx)]];
    [| |discriminate Hx].
  - injection Ha as ->.
    apply bind_ok in Hlaunch as ([] & s1 & Hcall & Hret).
    injection Hret as <- <-.
    unfold call in Hcall. cbn [world log result] in Hcall.
    destruct (browser _ Launch (world st)) as [[[]|?|[]] w1];
      [|discriminate Hcall].
    injection Hcall as <-.
    apply bind_ok in Hbody as ([] & s3 & Hrun & Hclose).
    apply call_inv in Hclose as (_ & Hres). rewrite Hres.
    apply try_catch_inv in Hrun
      as [([] & Hrun & _) | [(e & s2 & Hrun & Hcatch) | (_ & Hx)]];
      [| |discriminate Hx].
    + left. unfold afterLaunch in Hrun.
      apply bind_ok in Hrun as ([] & sa & Hstages & Hrun).
      apply bind_ok in Hrun as ([] & sb & Hextract & Hset).
      injection Hset as <-.
      exists w1, sa, sb. repeat split; assumption.
    + right. left.
      destruct (onError_run browser true e s2) as (s3' & Hon & _).
      rewrite Hon in Hcatch. injection Hcatch as <-.
      unfold afterLaunch in Hrun.
      apply bind_throw in Hrun as [Hstages | ([] & sa & Hstages & Hrun)].
      * exists w1, e, s2, s3'. repeat split; assumption.
      * apply bind_throw in Hrun as [Hextract | ([] & sb & _ & Hset)];
          [|discriminate Hset].
        pose proof (extractConfirmationDetails_run browser sa) as Hnever.
        destruct (browser _ BodyText (world sa)) as [[t|e1|[]] w2];
          rewrite Hnever in Hextract; discriminate Hextract.
  - right. right.
    apply bind_throw in Hlaunch as [Hcall | ([] & s0 & _ & Hret)];
      [|discriminate Hret].
    unfold call in Hcall. cbn [world log result] in Hcall.
    destruct (browser _ Launch (world st)) as [[[]|?|[]] w1];
      [discriminate Hcall|].
    injection Hcall as -> <-.
    apply bind_ok in Hcatch as ([] & s2 & Hon & Hret).
    injection Hret as <- <-. cbn iota in Hbody. injection Hbody as <-.
    do 3 eexists. split; [reflexivity|]. split; [eassumption | reflexivity].
Qed.

(** What the [catch] block does to the result: it leaves the confirmation
    fields alone, adds at most the screenshot of the error state, and sets
    the page HTML, if at all, to the first 5000 characters of the content. *)
Lemma onError_result (launched : bool) (e : string) (st : State W) :
  let r := result st in
  let r' := result (snd (onError browser launched e st)) in
  confirmationNumber r' = confirmationNumber r /\
  estimatedPickupTime r' = estimatedPickupTime r /\
  totalAmount r' = totalAmount r /\
  (errorPageHTML r' = errorPageHTML r \/
   exists html, errorPageHTML r' = Some (substring2 0 5000 html)) /\
  exists added,
    screenshots r' = (screenshots r ++ added)%list /\
    Subseq (map snap_name added) ["99-error-state"].
Proof.
  unfold onError, takeScreenshot, bind, try_catch, call, modify_result, ret.
  destruct launched; cbn [andb screenshotOnError CONFIG negb].
  - answer_calls browser;
      repeat match goal with
             | |- context [(0 <? ?n)%nat] => destruct (0 <? n)%nat
             end;
      answer_calls browser;
      cbn [set_error set_errorPageHTML push_screenshot confirmationNumber
           estimatedPickupTime totalAmount errorPageHTML screenshots];
      (split; [reflexivity|]); (split; [reflexivity|]);
      (split; [reflexivity|]);
      (split; [first [left; reflexivity | right; eexists; reflexivity]|]);
      first [ exists []; split; [now rewrite app_nil_r | constructor]
            | eexists; split; [reflexivity | apply Subseq_refl] ].
  - cbn. repeat split; auto.
    exists []. split; [now rewrite app_nil_r | constructor].
Qed.

Lemma takeScreenshot_adds (label : string) :
  snaps [label] (takeScreenshot browser label).
Proof.
  intros st.
  unfold takeScreenshot, bind, try_catch, call, modify_result, ret.
  cbn [screenshotOnError CONFIG negb].
  answer_calls browser; cbn [push_screenshot screenshots];
    first [ exists []; split; [now rewrite app_nil_r | constructor]
          | eexists; split; [reflexivity | apply Subseq_refl] ].
Qed.

Lemma snaps_keep {A} (labels : list string) (m : M W A) :
  keeps screenshots m -> snaps labels m.
Proof.
  intros Hm st. exists []. rewrite Hm, app_nil_r. split; [reflexivity|].
  constructor.
Qed.

Lemma snaps_bind_keep {A B} (labels : list string) (m : M W A)
    (g : A -> M W B) :
  keeps screenshots m -> (forall a, snaps labels (g a)) ->
  snaps labels (bind m g).
Proof.
  intros Hm Hg st. unfold bind. specialize (Hm st).
  destruct (m st) as [[a|e|x] st1]; cbn [snd] in *.
  - destruct (Hg a st1) as (added & Hs & Hsub).
    exists added. now rewrite Hs, Hm.
  - exists []. rewrite Hm, app_nil_r. split; [reflexivity | constructor].
  - exists []. rewrite Hm, app_nil_r. split; [reflexivity | constructor].
Qed.

Lemma snaps_take_then {B} (label : string) (labels : list string)
    (g : unit -> M W B) :
  (forall a, snaps labels (g a)) ->
  snaps (label :: labels) (bind (takeScreenshot browser label) g).
Proof.
  intros Hg st. unfold bind.
  destruct (takeScreenshot_adds label st) as (a1 & H1 & S1).
  destruct (takeScreenshot browser label st) as [[[]|e|x] st1];
    cbn [snd] in *.
  - destruct (Hg tt st1) as (a2 & H2 & S2).
    exists (a1 ++ a2)%list. split; [now rewrite H2, H1, app_assoc|].
    rewrite map_app. now apply (Subseq_app _ _ [label] labels).
  - exists a1. split; [exact H1|].
    now apply (Subseq_app_l _ [label] labels).
  - exists a1. split; [exact H1|].
    now apply (Subseq_app_l _ [label] labels).
Qed.

Lemma snaps_stages (orderData : OrderData) :
  snaps stageLabels (stagesBeforeExtraction browser fuel orderData).
Proof.
  unfold stagesBeforeExtraction, stageLabels.
  repeat first
    [ apply snaps_take_then; intros _
    | apply snaps_bind_keep;
      [ unfold clickCheckout, continueAsGuest, submitGuestForm,
          addNotesIfAny, addPickupNotes, verifyPaymentMethod,
          placeOrderFinal; stage
      | intros _ ] ].
  apply takeScreenshot_adds.
Qed.

Lemma extractFields_other_fields (text : string) (r : OrderResult) :
  screenshots (extractFields text r) = screenshots r /\
  errorPageHTML (extractFields text r) = errorPageHTML r.
Proof.
  unfold extractFields, extractTotal, extractPickupTime, extractOrderNumber.
  repeat match goal with
         | |- context [first_match ?p text] => destruct (first_match p text)
         | |- context [falsy ?v] => destruct (falsy v)
         end; split; reflexivity.
Qed.

(** X11. A result with [success] false carries no confirmation data:
    [confirmationNumber], [estimatedPickupTime] and [totalAmount] are all
    null; and a result with [success] true carries no page HTML. *)
Theorem failed_order_has_no_confirmation (orderData : OrderData)
    (st st' : State W) (r : OrderResult) :
  placeOrder browser fuel orderData st = (Ok r, st') ->
  (success r = false ->
   confirmationNumber r = None /\ estimatedPickupTime r = None /\
   totalAmount r = None) /\
  (success r = true -> errorPageHTML r = None).
Proof.
  intros H.
  pose proof (keeps_stagesBeforeExtraction browser fuel
                (fun r => (totalAmount r, errorPageHTML r))
                ltac:(reflexivity) orderData) as Hkeep.
  apply placeOrder_runs in H
    as [(w1 & sa & sb & _ & Hstages & Hextract & ->)
       | [(w1 & e & sa & s' & _ & Hstages & Hon & ->)
         | (w1 & e & s' & _ & Hon & ->)]].
  - split; [discriminate|]. intros _. cbn [errorPageHTML set_success].
    pose proof (keeps_extractConfirmationDetails browser errorPageHTML
                  (fun t r0 => proj2 (extractFields_other_fields t r0)) sa)
      as Hk.
    rewrite Hextract in Hk. cbn [snd] in Hk. rewrite Hk.
    specialize (Hkeep (mkState w1 (Did Launch (Ok tt) :: log st)
                         initialResult)).
    rewrite Hstages in Hkeep. cbn [snd result] in Hkeep.
    now injection Hkeep.
  - destruct (stages_leave_fields browser fuel orderData
                (mkState w1 (Did Launch (Ok tt) :: log st) initialResult)
                sa _ eq_refl Hstages)
      as (Hs & _ & Hc & Hp).
    specialize (Hkeep (mkState w1 (Did Launch (Ok tt) :: log st)
                         initialResult)).
    rewrite Hstages in Hkeep. cbn [snd result] in Hkeep.
    injection Hkeep as Ht _.
    destruct (onError_run browser true e sa) as (s2 & Hon' & Hsucc & _).
    pose proof (onError_result true e sa) as (Hc' & Hp' & Ht' & _).
    rewrite Hon in Hon'. injection Hon' as <-.
    rewrite Hon in Hc', Hp', Ht'. cbn [snd] in Hc', Hp', Ht'.
    split; [|rewrite Hsucc, Hs; discriminate].
    intros _. now rewrite Hc', Hp', Ht', Hc, Hp, Ht.
  - destruct (onError_run browser false e
                (mkState w1 (Did Launch (Throw e) :: log st) initialResult))
      as (s2 & Hon' & Hsucc & _).
    pose proof (onError_result false e
                  (mkState w1 (Did Launch (Throw e) :: log st) initialResult))
      as (Hc' & Hp' & Ht' & _).
    rewrite Hon in Hon'. injection Hon' as <-.
    rewrite Hon in Hc', Hp', Ht'. cbn [snd result] in Hc', Hp', Ht', Hsucc.
    split; [|rewrite Hsucc; discriminate].
    intros _. now rewrite Hc', Hp', Ht'.
Qed.

Lemma stages_keep_html (orderData : OrderData)
    (s1 sa : State W) (o : progress unit) :
  stagesBeforeExtraction browser fuel orderData s1 = (o, sa) ->
  errorPageHTML (result sa) = errorPageHTML (result s1).
Proof.
  intros Hrun.
  pose proof (keeps_stagesBeforeExtraction browser fuel errorPageHTML
                ltac:(reflexivity) orderData s1) as Hk.
  now rewrite Hrun in Hk.
Qed.

(** X12. The page HTML kept in a result is at most 5000 characters long. *)
Theorem error_page_html_is_truncated (orderData : OrderData)
    (st st' : State W) (r : OrderResult) (html : string) :
  placeOrder browser fuel orderData st = (Ok r, st') ->
  errorPageHTML r = Some html ->
  (Z.of_nat (length html) <= 5000)%Z.
Proof.
  intros H Hhtml.
  assert (Hcut : forall e launched s,
             errorPageHTML (result s) = None ->
             errorPageHTML (result (snd (onError browser launched e s)))
             = Some html ->
             (Z.of_nat (length html) <= 5000)%Z).
  { intros e launched s Hnone Hsome.
    pose proof (onError_result launched e s) as (_ & _ & _ & Hh & _).
    destruct Hh as [Hh | (page & Hh)]; rewrite Hh in Hsome.
    - rewrite Hnone in Hsome. discriminate Hsome.
    - injection Hsome as <-. unfold substring2.
      pose proof (length_str_take (Z.to_nat 5000 - Z.to_nat 0)
                    (str_drop (Z.to_nat 0) page)).
      lia. }
  pose proof (stages_keep_html orderData) as Hinit.
  apply placeOrder_runs in H
    as [(w1 & sa & sb & _ & Hstages & Hextract & ->)
       | [(w1 & e & sa & s' & _ & Hstages & Hon & ->)
         | (w1 & e & s' & _ & Hon & ->)]].
  - cbn [errorPageHTML set_success] in Hhtml.
    pose proof (keeps_extractConfirmationDetails browser errorPageHTML
                  (fun t r0 => proj2 (extractFields_other_fields t r0)) sa)
      as Hk.
    rewrite Hextract in Hk. cbn [snd] in Hk.
    rewrite Hk, (Hinit _ _ _ Hstages) in Hhtml. discriminate Hhtml.
  - apply (Hcut e true sa); [exact (Hinit _ _ _ Hstages)|].
    now rewrite Hon.
  - apply (Hcut e false
             (mkState w1 (Did Launch (Throw e) :: log st) initialResult));
      [reflexivity|].
    now rewrite Hon.
Qed.

(** X13. The screenshots of a returned result are in the order of the
    stages: their names are among "01-homepage", ..., "08-confirmation",
    "99-error-state", in this order and without repetition; and the
    screenshot of the error state is not in a result with [success] true. *)
Theorem screenshots_follow_the_stages (orderData : OrderData)
    (st st' : State W) (r : OrderResult) :
  placeOrder browser fuel orderData st = (Ok r, st') ->
  Subseq (map snap_name (screenshots r))
    (stageLabels ++ ["99-error-state"]) /\
  (success r = true -> Subseq (map snap_name (screenshots r)) stageLabels).
Proof.
  intros H.
  apply placeOrder_runs in H
    as [(w1 & sa & sb & _ & Hstages & Hextract & ->)
       | [(w1 & e & sa & s' & _ & Hstages & Hon & ->)
         | (w1 & e & s' & _ & Hon & ->)]].
  - destruct (snaps_stages orderData
                (mkState w1 (Did Launch (Ok tt) :: log st) initialResult))
      as (added & Hadd & Hsub).
    rewrite Hstages in Hadd. cbn [snd result screenshots initialResult app]
      in Hadd.
    pose proof (keeps_extractConfirmationDetails browser screenshots
                  (fun t r0 => proj1 (extractFields_other_fields t r0)) sa)
      as Hk.
    rewrite Hextract in Hk. cbn [snd] in Hk.
    cbn [screenshots set_success]. rewrite Hk, Hadd.
    split; [now apply Subseq_app_l | intros _; exact Hsub].
  - destruct (snaps_stages orderData
                (mkState w1 (Did Launch (Ok tt) :: log st) initialResult))
      as (added & Hadd & Hsub).
    rewrite Hstages in Hadd. cbn [snd result screenshots initialResult app]
      in Hadd.
    destruct (stages_leave_fields browser fuel orderData
                (mkState w1 (Did Launch (Ok tt) :: log st) initialResult)
                sa _ eq_refl Hstages)
      as (Hs & _).
    destruct (onError_run browser true e sa) as (s2 & Hon' & Hsucc & _).
    pose proof (onError_result true e sa) as (_ & _ & _ & _ & a2 & Ha2 & S2).
    rewrite Hon in Hon'. injection Hon' as <-.
    rewrite Hon in Ha2. cbn [snd] in Ha2.
    split; [|rewrite Hsucc, Hs; discriminate].
    rewrite Ha2, Hadd, map_app. now apply Subseq_app.
  - destruct (onError_run browser false e
                (mkState w1 (Did Launch (Throw e) :: log st) initialResult))
      as (s2 & Hon' & Hsucc & _).
    pose proof (onError_result false e
                  (mkState w1 (Did Launch (Throw e) :: log st) initialResult))
      as (_ & _ & _ & _ & a2 & Ha2 & S2).
    rewrite Hon in Hon'. injection Hon' as <-.
    rewrite Hon in Ha2. cbn [snd result screenshots initialResult app] in Ha2.
    cbn [result] in Hsucc.
    split; [|rewrite Hsucc; discriminate].
    rewrite Ha2.
    apply (Subseq_app [] _ stageLabels ["99-error-state"]);
      [constructor | exact S2].
Qed.

(** X14. The [error] of a failed order is, word for word, the message of
    what stopped it: the error thrown by the launch of the browser, or the
    error thrown by the stages that follow it. *)
Theorem error_is_the_message_of_the_failed_stage (orderData : OrderData)
    (st st' : State W) (r : OrderResult) :
  placeOrder browser fuel orderData st = (Ok r, st') ->
  success r = false ->
  exists e w1,
    error r = Some e /\
    (browser _ Launch (world st) = (Throw e, w1) \/
     (browser _ Launch (world st) = (Ok tt, w1) /\
      fst (stagesBeforeExtraction browser fuel orderData
             (mkState w1 (Did Launch (Ok tt) :: log st) initialResult))
      = Throw e)).
Proof.
  intros H Hfail.
  apply placeOrder_runs in H
    as [(w1 & sa & sb & _ & Hstages & Hextract & ->)
       | [(w1 & e & sa & s' & Hlaunch & Hstages & Hon & ->)
         | (w1 & e & s' & Hlaunch & Hon & ->)]].
  - discriminate Hfail.
  - destruct (onError_run browser true e sa) as (s2 & Hon' & _ & He).
    rewrite Hon in Hon'. injection Hon' as <-.
    exists e, w1. split; [exact He|]. right. split; [exact Hlaunch|].
    now rewrite Hstages.
  - destruct (onError_run browser false e
                (mkState w1 (Did Launch (Throw e) :: log st) initialResult))
      as (s2 & Hon' & _ & He).
    rewrite Hon in Hon'. injection Hon' as <-.
    exists e, w1. split; [exact He|]. now left.
Qed.

End Results.

(** ** The checkout stages *)

Ltac wrapped_or_first_wait :=
  let H := fresh "H" in
  intros H; first
    [ discriminate H
    | injection H as <- <-;
      first [ left; reflexivity | right; eexists; reflexivity ] ].

Section Checkout.

Context {W : Type}.
Variable browser : forall T, Call T -> W -> outcome T * W.
Variable fuel : nat.

(** X15. The errors of the must-succeed checkout stages are wrapped with
    the name of the stage.  [placeOrderFinal] throws "Failed to place
    order: ..." only, and [fillGuestInfo], called with a customer name and
    a customer phone that are strings, "Failed to fill guest info: ..."
    only.  [clickCheckout], [continueAsGuest] and [submitGuestForm] throw
    "Failed to click checkout: ...", "Failed to continue as guest: ..." and
    "Failed to submit guest form: ...", except for an error of the
    one-second wait with which these three stages start, which is outside
    their [try] and is thrown as it is. *)
Theorem checkout_stage_errors (st st' : State W) (e : string) :
  (clickCheckout browser st = (Throw e, st') ->
   fst (browser _ (WaitForTimeout 1000) (world st)) = Throw e \/
   exists cause, e = "Failed to click checkout: " ++ cause) /\
  (continueAsGuest browser st = (Throw e, st') ->
   fst (browser _ (WaitForTimeout 1000) (world st)) = Throw e \/
   exists cause, e = "Failed to continue as guest: " ++ cause) /\
  (submitGuestForm browser st = (Throw e, st') ->
   fst (browser _ (WaitForTimeout 1000) (world st)) = Throw e \/
   exists cause, e = "Failed to submit guest form: " ++ cause) /\
  (forall customerName customerPhone,
     fillGuestInfo browser customerName customerPhone st = (Throw e, st') ->
     exists cause, e = "Failed to fill guest info: " ++ cause) /\
  (placeOrderFinal browser st = (Throw e, st') ->
   exists cause, e = "Failed to place order: " ++ cause).
Proof.
  repeat split.
  - unfold clickCheckout, bind, try_catch, call, throw.
    answer_calls browser; wrapped_or_first_wait.
  - unfold continueAsGuest, bind, try_catch, call, throw.
    answer_calls browser; wrapped_or_first_wait.
  - unfold submitGuestForm, bind, try_catch, call, throw.
    answer_calls browser; wrapped_or_first_wait.
  - intros customerName customerPhone.
    unfold fillGuestInfo, try_catch, throw.
    destruct (bind _ _ st) as [[[]|cause|x] s1]; intros H;
      [discriminate H | injection H as <- <-; eexists; reflexivity
      | discriminate H].
  - unfold placeOrderFinal, try_catch, throw.
    destruct (bind _ _ st) as [[[]|cause|x] s1]; intros H;
      [discriminate H | injection H as <- <-; eexists; reflexivity
      | discriminate H].
Qed.


Lemma guestFirstName_first_token (s : string) :
  spaced_by_spaces s = true -> guestFirstName s = first_token s.
Proof.
  intros H. apply andb_prop in H as [Hall Hfirst].
  unfold guestFirstName. rewrite split_char_head. unfold first_token.
  assert (Hdrop : drop_while is_space s = s).
  { destruct s as [|c s]; [reflexivity|]. cbn [drop_while].
    now apply negb_true_iff in Hfirst as ->. }
  rewrite Hdrop. clear Hdrop Hfirst.
  induction s as [|c s IH]; [reflexivity|].
  cbn [str_forall] in Hall. apply andb_prop in Hall as [Hc Hs].
  cbn [take_while]. rewrite (IH Hs).
  destruct (Ascii.eqb c " ") eqn:Hsp.
  - apply Ascii.eqb_eq in Hsp as ->. reflexivity.
  - rewrite orb_false_r in Hc. now rewrite Hc.
Qed.

(** X26. What a run of [fillGuestInfo] that ends normally has typed: into
    the element found for each of the four fields, in the order of the
    form, a first name, the last name "PAM" whatever the customer, the
    e-mail address of the bot, and the digits of the customer phone, in
    their order.  The first name is the first white-space-delimited token
    of the customer name when the name does not start with white space and
    has no white space but the space character. *)
Theorem guest_form_is_typed_field_by_field
    (customerName customerPhone : string) (st : State W) :
  fst (fillGuestInfo browser customerName customerPhone st) = Ok tt ->
  (spaced_by_spaces customerName = true ->
   guestFirstName customerName = first_token customerName) /\
  guestPhone customerPhone = str_filter is_digit customerPhone /\
  exists new h1 h2 h3 h4,
    log (snd (fillGuestInfo browser customerName customerPhone st))
    = (new ++ log st)%list /\
    rev (flat_map found_field new)
    = [(FirstNameInput, h1); (LastNameInput, h2); (EmailInput, h3);
       (PhoneInput, h4)] /\
    rev (flat_map typed_into new)
    = [(h1, guestFirstName customerName); (h2, "PAM");
       (h3, "yousef.alyeldin5@gmial.com");
       (h4, guestPhone customerPhone)].
Proof.
  intros H.
  split; [apply guestFirstName_first_token|].
  split; [apply guestPhone_keeps_digits|].
  revert H. unfold fillGuestInfo, fillField, bind, try_catch, call, throw.
  answer_calls browser;
    repeat match goal with
           | h : option Handle |- _ => destruct h; answer_calls browser
           end;
    cbn [fst]; intros H; try discriminate H;
    do 5 eexists;
    (split; [cbn [log snd]; new_entries|]);
    split; reflexivity.
Qed.

End Checkout.

Lemma checkout_stage_errors_witness :
  let run := clickCheckout noCheckoutBrowser (start tt) in
  let e := "Failed to click checkout: Checkout button not found" in
  run = (Throw e, snd run) /\
  (fst (noCheckoutBrowser _ (WaitForTimeout 1000) (world (start tt)))
   = Throw e \/
   exists cause, e = "Failed to click checkout: " ++ cause).
Proof.
  intros run e.
  assert (H : run = (Throw e, snd run)) by reflexivity.
  split; [exact H|].
  exact (proj1 (checkout_stage_errors noCheckoutBrowser _ _ _) H).
Defined.


(** ** More on the order parser *)

Lemma split_char_app (sep : ascii) (a b : string) :
  split_char sep (a ++ String sep b)
  = (split_char sep a ++ split_char sep b)%list.
Proof.
  induction a as [|c a IH]; cbn [append split_char].
  - now rewrite Ascii.eqb_refl.
  - destruct (Ascii.eqb c sep); rewrite IH; [reflexivity|].
    pose proof (length_split_char sep a) as Hlen.
    destruct (split_char sep a); [discriminate Hlen | reflexivity].
Qed.

(** X17. Parsing distributes over the commas of the order string: the items
    of [a,b] are the items of [a] followed by the items of [b]; so a
    trailing comma adds one item with an empty name and quantity 1. *)
Theorem parseOrderItems_app (a b : string) :
  parseOrderItems (a ++ "," ++ b)
  = (parseOrderItems a ++ parseOrderItems b)%list /\
  parseOrderItems (a ++ ",")
  = (parseOrderItems a ++ [mkItem "" "" 1 []])%list.
Proof.
  assert (H : forall x y, parseOrderItems (x ++ "," ++ y)
                          = (parseOrderItems x ++ parseOrderItems y)%list).
  { intros x y. unfold parseOrderItems, segments. cbn [append].
    now rewrite split_char_app, !map_app. }
  split; [apply H|]. apply (H a "").
Qed.

Lemma trimEnd_cons (a : ascii) (s : string) :
  trimEnd (String a s)
  = match trimEnd s with
    | "" => if is_space a then "" else String a ""
    | String b t => String a (String b t)
    end.
Proof. cbn [trimEnd]. now destruct (trimEnd s). Qed.

Lemma trimEnd_idem (s : string) : trimEnd (trimEnd s) = trimEnd s.
Proof.
  induction s as [|a s IH]; [reflexivity|].
  rewrite trimEnd_cons. destruct (trimEnd s) as [|b t] eqn:E.
  - destruct (is_space a) eqn:Ha; [reflexivity|].
    rewrite trimEnd_cons. cbn [trimEnd]. now rewrite Ha.
  - rewrite trimEnd_cons. now rewrite IH.
Qed.

Lemma trimStart_trimEnd (s : string) :
  trimStart (trimEnd (trimStart s)) = trimEnd (trimStart s).
Proof.
  induction s as [|a s IH]; [reflexivity|].
  cbn [trimStart]. destruct (is_space a) eqn:Ha; [exact IH|].
  rewrite trimEnd_cons.
  destruct (trimEnd s); [rewrite Ha|]; cbn [trimStart]; now rewrite Ha.
Qed.

Lemma trim_idem (s : string) : trim (trim s) = trim s.
Proof. unfold trim. now rewrite trimStart_trimEnd, trimEnd_idem. Qed.

Lemma count_char_trimStart (c : ascii) (s : string) :
  count_char c (trimStart s) <= count_char c s.
Proof.
  induction s as [|a s IH]; cbn [trimStart count_char]; [lia|].
  destruct (is_space a); cbn [count_char]; lia.
Qed.

Lemma count_char_trimEnd (c : ascii) (s : string) :
  count_char c (trimEnd s) <= count_char c s.
Proof.
  induction s as [|a s IH]; [cbn; lia|].
  rewrite trimEnd_cons. cbn [count_char].
  destruct (trimEnd s) as [|b t].
  - destruct (is_space a); cbn [count_char]; lia.
  - cbn [count_char] in *. lia.
Qed.

Lemma split_char_segments (sep : ascii) (s : string) :
  Forall (fun seg => count_char sep seg = 0) (split_char sep s).
Proof.
  induction s as [|a s IH]; cbn [split_char].
  - now repeat constructor.
  - destruct (Ascii.eqb a sep) eqn:Ha; [now constructor|].
    destruct (split_char sep s) as [|seg segs];
      [repeat constructor; cbn; now rewrite Ha|].
    inversion IH as [|? ? Hseg Hsegs]; subst.
    constructor; [|exact Hsegs]. cbn [count_char]. now rewrite Ha, Hseg.
Qed.

(** X18. The [raw] text of every parsed item is trimmed (trimming it again
    changes nothing) and has no comma in it; so the comma alternative of
    the pattern that separates modifications never applies. *)
Theorem raw_is_trimmed_and_comma_free (s : string) (it : ParsedLineItem) :
  In it (parseOrderItems s) ->
  trim (raw it) = raw it /\ count_char "," (raw it) = 0.
Proof.
  unfold parseOrderItems, segments. rewrite map_map. intros H.
  apply in_map_iff in H as (seg & <- & Hin).
  rewrite parseItem_raw. split; [apply trim_idem|].
  pose proof (split_char_segments "," s) as Hall.
  rewrite Forall_forall in Hall. specialize (Hall seg Hin).
  unfold trim.
  pose proof (count_char_trimEnd "," (trimStart seg)).
  pose proof (count_char_trimStart "," seg).
  lia.
Qed.

Lemma raw_is_trimmed_and_comma_free_witness :
  let it := mkItem "2 wings" "2lb Wings" 2 [] in
  In it (parseOrderItems "  2 wings  ,fries") /\
  trim (raw it) = raw it /\ count_char "," (raw it) = 0.
Proof.
  intros it.
  assert (Hin : In it (parseOrderItems "  2 wings  ,fries"))
    by (left; reflexivity).
  split; [exact Hin|].
  exact (raw_is_trimmed_and_comma_free _ it Hin).
Defined.

Lemma greedy_first (p : ascii -> bool) (k : cont) (s : string) :
  forall b cs res,
    k (mkCursor (behind_after p b s) (drop_while p s)) cs = Some res ->
    greedy p k b s cs = Some res.
Proof.
  induction s as [|a s IH]; intros b cs res; cbn [greedy behind_after drop_while].
  - auto.
  - destruct (p a); [|auto]. intros H. now rewrite (IH _ _ _ H).
Qed.

Lemma space_is_not_digit (a : ascii) : is_space a = true -> is_digit a = false.
Proof. by_cases_on_char a. Qed.

Lemma not_space_is_dot (a : ascii) : is_space a = false -> is_dot a = true.
Proof. by_cases_on_char a. Qed.

Lemma drop_while_app (p : ascii -> bool) (s : string) (a : ascii) (t : string) :
  str_forall p s = true -> p a = false ->
  drop_while p (s ++ String a t) = String a t.
Proof.
  intros Hs Ha. induction s as [|c s IH]; cbn in *; [now rewrite Ha|].
  apply andb_prop in Hs as [-> Hs]. now apply IH.
Qed.

Lemma take_while_app (p : ascii -> bool) (s : string) (a : ascii) (t : string) :
  str_forall p s = true -> p a = false ->
  take_while p (s ++ String a t) = s.
Proof.
  intros Hs Ha. induction s as [|c s IH]; cbn in *; [now rewrite Ha|].
  apply andb_prop in Hs as [-> Hs]. now rewrite IH.
Qed.

Lemma extractQuantity_shape (ds ws : string) (c : ascii)
    (rest : string) :
  ds <> "" -> str_forall is_digit ds = true ->
  ws <> "" -> str_forall is_space ws = true ->
  is_space c = false ->
  extractQuantity (ds ++ ws ++ String c rest)
  = (parseInt ds, take_while is_dot (String c rest)).
Proof.
  intros Hds Hdigits Hws Hspaces Hc.
  destruct ds as [|d ds]; [contradiction|].
  destruct ws as [|w ws]; [contradiction|].
  cbn [str_forall] in Hdigits, Hspaces.
  apply andb_prop in Hdigits as [Hd Hdigits].
  apply andb_prop in Hspaces as [Hw Hspaces].
  pose proof (space_is_not_digit w Hw) as Hwd.
  pose proof (not_space_is_dot c Hc) as Hdot.
  set (item := String d ds ++ String w ws ++ String c rest).
  assert (Htake : take_while is_digit item = String d ds).
  { unfold item. apply (take_while_app is_digit (String d ds) w);
      [cbn [str_forall]; now rewrite Hd | exact Hwd]. }
  assert (Hdrop : drop_while is_digit item = String w (ws ++ String c rest)).
  { unfold item. apply (drop_while_app is_digit (String d ds) w);
      [cbn [str_forall]; now rewrite Hd | exact Hwd]. }
  assert (Hmatch : exists c',
             match_at quantityPattern (mkCursor None item)
             = Some (c', [(2, take_while is_dot (String c rest));
                          (1, String d ds)])).
  { unfold match_at, quantityPattern, Plus.
    cbn [rmatch behind ahead].
    unfold item at 1 2. cbn [append]. rewrite Hd.
    rewrite star_iter_class by lia.
    rewrite greedy_longest with (Q := fun _ => True); auto.
    2:{ intros b x s cs0 _ Hx. cbn [ahead].
        now rewrite (digit_not_space x Hx). }
    assert (Hdrop' : drop_while is_digit (ds ++ String w (ws ++ String c rest))
                     = String w (ws ++ String c rest))
      by (now apply drop_while_app).
    rewrite Hdrop'. cbn [ahead behind]. rewrite Hw.
    rewrite star_iter_class by lia.
    eexists. apply greedy_first.
    rewrite (drop_while_app is_space ws c rest Hspaces Hc).
    cbn [ahead behind]. rewrite Hdot.
    rewrite star_iter_class by lia.
    apply greedy_first. cbn [ahead].
    do 3 f_equal.
    - f_equal.
      rewrite <- (str_take_consumed is_dot (String c rest)).
      cbn [drop_while]. now rewrite Hdot.
    - do 2 f_equal.
      change (String d (ds ++ String w (ws ++ String c rest))) with item.
      rewrite <- Htake, <- (str_take_consumed is_digit item), Hdrop.
      reflexivity. }
  destruct Hmatch as (c' & Hmatch).
  unfold extractQuantity, exec.
  assert (Hitem : item = String d (ds ++ String w (ws ++ String c rest)))
    by reflexivity.
  rewrite Hitem at 1. cbn [exec_from]. rewrite <- Hitem, Hmatch.
  reflexivity.
Qed.

(** X19. A leading integer token followed by white space is extracted as
    the quantity: for a segment made of digits, then white space, then text
    that starts with a character other than white space, the quantity is
    the double nearest to the value of the digits, which is that value when
    it is at most 2^53, and the text kept for the name is what follows the
    white space, up to the first line break. *)
Theorem leading_quantity_is_extracted (ds ws : string) (c : ascii)
    (rest : string) :
  ds <> "" -> str_forall is_digit ds = true ->
  ws <> "" -> str_forall is_space ws = true ->
  is_space c = false ->
  extractQuantity (ds ++ ws ++ String c rest)
  = (round_double (digits_value 0 ds), take_while is_dot (String c rest)) /\
  ((digits_value 0 ds <= 2 ^ 53)%N ->
   fst (extractQuantity (ds ++ ws ++ String c rest))
   = Finite (digits_value 0 ds)).
Proof.
  intros Hds Hdigits Hws Hspaces Hc.
  rewrite (extractQuantity_shape ds ws c rest Hds Hdigits Hws Hspaces Hc).
  split; [reflexivity|].
  intros Hsmall. cbn [fst]. now apply round_double_exact.
Qed.

Lemma leading_quantity_is_extracted_witness :
  "12" <> "" /\ str_forall is_digit "12" = true /\
  "  " <> "" /\ str_forall is_space "  " = true /\
  is_space "w" = false /\
  (digits_value 0 "12" <= 2 ^ 53)%N /\
  fst (extractQuantity "12  wings hot") = Finite 12.
Proof.
  assert (H1 : "12" <> "") by discriminate.
  assert (H3 : "  " <> "") by discriminate.
  assert (H5 : (digits_value 0 "12" <= 2 ^ 53)%N) by (vm_compute; discriminate).
  repeat (split; [first [assumption | reflexivity]|]).
  exact (proj2 (leading_quantity_is_extracted "12" "  " "w" "ings hot"
                  H1 eq_refl H3 eq_refl eq_refl) H5).
Defined.

Lemma count_char_app (c : ascii) (s t : string) :
  count_char c (s ++ t) = count_char c s + count_char c t.
Proof. induction s as [|a s IH]; cbn [append count_char]; lia. Qed.

Lemma count_char_str_drop (c : ascii) (n : nat) (s : string) :
  count_char c (str_drop n s) <= count_char c s.
Proof.
  revert s. induction n as [|n IH]; intros [|a s]; cbn [str_drop count_char];
    try lia.
  specialize (IH s). lia.
Qed.

Lemma count_char_str_take (c : ascii) (n : nat) (s : string) :
  count_char c (str_take n s) <= count_char c s.
Proof.
  revert s. induction n as [|n IH]; intros [|a s]; cbn [str_take count_char];
    try lia.
  specialize (IH s). lia.
Qed.

Lemma count_char_trim (c : ascii) (s : string) :
  count_char c (trim s) <= count_char c s.
Proof.
  unfold trim.
  pose proof (count_char_trimEnd c (trimStart s)).
  pose proof (count_char_trimStart c s). lia.
Qed.

Lemma split_scan_pieces (c : ascii) (r : regex) (s : string) :
  forall b skip piece,
    count_char c s = 0 -> count_char c piece = 0 ->
    Forall (fun p => count_char c p = 0) (split_scan r b s skip piece).
Proof.
  induction s as [|a s IH]; intros b skip piece Hs Hp; cbn [split_scan].
  - now constructor.
  - cbn [count_char] in Hs.
    assert (Ha : count_char c (String a "") = 0) by (cbn [count_char]; lia).
    assert (Hs' : count_char c s = 0) by lia.
    destruct skip as [|skip]; [|now apply IH].
    destruct (match_at r _) as [[c' cs]|].
    + destruct (length (String a s) - length (ahead c')).
      * destruct piece; [now apply IH|].
        constructor; [exact Hp | now apply IH].
      * constructor; [exact Hp | now apply IH].
    + apply IH; [exact Hs'|]. rewrite count_char_app. lia.
Qed.

Lemma split_regex_pieces (c : ascii) (r : regex) (s : string) :
  count_char c s = 0 ->
  Forall (fun p => count_char c p = 0) (split_regex r s).
Proof.
  intros Hs. unfold split_regex. destruct s as [|a s].
  - destruct (match_at r _); repeat constructor.
  - now apply split_scan_pieces.
Qed.

(** X20. Every modification of a parsed item is trimmed and holds no
    comma: the commas of the order text have all been used to separate the
    items, so the comma alternative of the modifications separator finds
    nothing to split. *)
Theorem modifications_are_trimmed_and_comma_free (s : string)
    (it : ParsedLineItem) (m : string) :
  In it (parseOrderItems s) -> In m (modifications it) ->
  trim m = m /\ count_char "," m = 0.
Proof.
  intros Hit Hm.
  assert (Hraw : count_char "," (raw it) = 0).
  { unfold parseOrderItems, segments in Hit. rewrite map_map in Hit.
    apply in_map_iff in Hit as (seg & <- & Hseg). rewrite parseItem_raw.
    pose proof (split_char_segments "," s) as Hall.
    rewrite Forall_forall in Hall. specialize (Hall seg Hseg).
    pose proof (count_char_trim "," seg). lia. }
  rewrite (in_parseOrderItems s it Hit), parseItem_modifications in Hm.
  destruct (extractQuantity_rest (raw it)) as (pre & post & Hrest).
  set (rest := snd (extractQuantity (raw it))) in *.
  assert (Hfree : count_char "," rest = 0).
  { rewrite Hrest, !count_char_app in Hraw. lia. }
  unfold splitWith in Hm.
  destruct (-1 <? indexOf " with " (toLowerCase rest))%Z;
    cbn [snd] in Hm; [|contradiction].
  apply in_map_iff in Hm as (piece & <- & Hpiece).
  split; [apply trim_idem|].
  assert (Hmods : count_char ","
                    (trim (substring1
                             (indexOf " with " (toLowerCase rest) + 6) rest)) = 0).
  { unfold substring1.
    pose proof (count_char_trim ","
                  (str_drop (Z.to_nat (indexOf " with " (toLowerCase rest) + 6))
                     rest)).
    pose proof (count_char_str_drop ","
                  (Z.to_nat (indexOf " with " (toLowerCase rest) + 6)) rest).
    lia. }
  pose proof (split_regex_pieces "," modsSeparator _ Hmods) as Hall.
  rewrite Forall_forall in Hall. specialize (Hall piece Hpiece).
  pose proof (count_char_trim "," piece). lia.
Qed.

Lemma modifications_are_trimmed_and_comma_free_witness :
  In (parseItem "2 burgers with cheese and bacon")
     (parseOrderItems "2 burgers with cheese and bacon, fries") /\
  In "bacon" (modifications (parseItem "2 burgers with cheese and bacon")) /\
  trim "bacon" = "bacon" /\ count_char "," "bacon" = 0.
Proof.
  assert (H1 : In (parseItem "2 burgers with cheese and bacon")
                 (parseOrderItems "2 burgers with cheese and bacon, fries"))
    by (left; reflexivity).
  assert (H2 : In "bacon"
                 (modifications (parseItem "2 burgers with cheese and bacon")))
    by (right; left; reflexivity).
  split; [exact H1|]. split; [exact H2|].
  exact (modifications_are_trimmed_and_comma_free _ _ _ H1 H2).
Defined.

(** ** The quantity of a parsed item *)

Lemma trimEnd_spaces (s : string) :
  str_forall is_space s = true -> trimEnd s = "".
Proof.
  induction s as [|a s IH]; [reflexivity|]. cbn [str_forall]. intros H.
  apply andb_prop in H as [Ha Hs]. rewrite trimEnd_cons, (IH Hs).
  now rewrite Ha.
Qed.

Lemma trimEnd_fixed_tail (a b : string) :
  trimEnd (a ++ b) = a ++ b -> b <> "" -> str_forall is_space b = false.
Proof.
  induction a as [|x a IH]; cbn [append]; intros Hfix Hb.
  - destruct (str_forall is_space b) eqn:Hall; [|reflexivity].
    rewrite (trimEnd_spaces b Hall) in Hfix. now destruct b.
  - apply IH; [|exact Hb]. rewrite trimEnd_cons in Hfix.
    destruct (trimEnd (a ++ b)) as [|y t] eqn:Ht.
    + destruct (a ++ b) eqn:Hab; [now destruct a, b|].
      destruct (is_space x); discriminate Hfix.
    + now injection Hfix.
Qed.

Lemma drop_while_all (p : ascii -> bool) (s : string) :
  drop_while p s = "" -> str_forall p s = true.
Proof.
  induction s as [|a s IH]; [reflexivity|]. cbn [drop_while str_forall].
  destruct (p a); [exact IH | discriminate].
Qed.

Lemma drop_while_head (p : ascii -> bool) (s : string) (c : ascii)
    (rest : string) :
  drop_while p s = String c rest -> p c = false.
Proof.
  induction s as [|a s IH]; [discriminate|]. cbn [drop_while].
  destruct (p a) eqn:Ha; [exact IH|]. intros H. now injection H as <- _.
Qed.

Lemma str_forall_take_while (p : ascii -> bool) (s : string) :
  str_forall p (take_while p s) = true.
Proof.
  induction s as [|a s IH]; [reflexivity|]. cbn [take_while].
  destruct (p a) eqn:Ha; [|reflexivity]. cbn [str_forall]. now rewrite Ha.
Qed.

Lemma unmatched_quantity (item : string) :
  (forall x rest, drop_while is_digit item = String x rest ->
                  is_space x = false) ->
  extractQuantity item = (Finite 1, item).
Proof.
  intros Hno. unfold extractQuantity, exec.
  destruct item as [|a rest]; [reflexivity|].
  cbn [exec_from]. rewrite quantityPattern_anchored.
  destruct (match_at quantityPattern _) as [[c' cs]|] eqn:Hm; [|reflexivity].
  apply quantityPattern_space in Hm as (x & r & Hx & Hsp).
  rewrite (Hno x r Hx) in Hsp. discriminate Hsp.
Qed.

(** The quantity of a trimmed segment: the leading integer token, as a
    double, when white space follows it, and 1 otherwise. *)
Lemma trimmed_quantity (item : string) :
  trim item = item ->
  fst (extractQuantity item)
  = match leading_count item with
    | Some n => round_double n
    | None => Finite 1
    end.
Proof.
  intros Htrim. unfold leading_count.
  destruct (take_while is_digit item) as [|d ds] eqn:Hds.
  - destruct (extractQuantity_cases item) as [-> | [Hne _]];
      [reflexivity | contradiction].
  - destruct (drop_while is_digit item) as [|w r] eqn:Hrest.
    + rewrite unmatched_quantity; [reflexivity|].
      intros x rest. rewrite Hrest. discriminate.
    + destruct (is_space w) eqn:Hw.
      * pose proof (take_drop_while is_digit item) as Hitem.
        rewrite Hds, Hrest in Hitem.
        assert (Hd : is_digit d = true).
        { pose proof (str_forall_take_while is_digit item) as H.
          rewrite Hds in H. cbn [str_forall] in H.
          now apply andb_prop in H as [H _]. }
        assert (Hend : trimEnd item = item).
        { unfold trim in Htrim. rewrite <- Hitem in Htrim |- *.
          cbn [append trimStart drop_while] in Htrim.
          now rewrite (digit_not_space d Hd) in Htrim. }
        rewrite <- Hitem in Hend.
        apply trimEnd_fixed_tail in Hend; [|discriminate].
        destruct (drop_while is_space (String w r)) as [|c rest] eqn:Htail;
          [apply drop_while_all in Htail; congruence|].
        pose proof (drop_while_head _ _ _ _ Htail) as Hc.
        pose proof (take_drop_while is_space (String w r)) as Hsplit.
        rewrite Htail in Hsplit.
        rewrite <- Hitem, <- Hsplit.
        rewrite extractQuantity_shape.
        -- reflexivity.
        -- discriminate.
        -- rewrite <- Hds. apply str_forall_take_while.
        -- cbn [take_while]. rewrite Hw. discriminate.
        -- apply str_forall_take_while.
        -- exact Hc.
      * rewrite unmatched_quantity; [reflexivity|].
        intros x rest. rewrite Hrest. intros H. now injection H as <- _.
Qed.

Lemma segments_trimmed (s seg : string) :
  In seg (segments s) -> trim seg = seg.
Proof.
  unfold segments. intros H. apply in_map_iff in H as (x & <- & _).
  apply trim_idem.
Qed.

(** C5, as stated, fails: the leading integer of a segment is taken as it
    is, so "0 burgers" gives an item of quantity 0; and a token of 310
    digits is beyond the largest double, so its item has the quantity
    [Infinity], which is no integer. *)
Lemma zero_quantity_counterexample :
  parseOrderItems "0 burgers" = [mkItem "0 burgers" "Angus Burger" 0 []] /\
  ~ (forall s it,
       In it (parseOrderItems s) -> num_leb 1 (quantity it) = true) /\
  map quantity (parseOrderItems (String "1" (str_repeat "0" 309) ++ " wings"))
  = [Infinity].
Proof.
  split; [reflexivity|]. split; [|vm_compute; reflexivity].
  intros H.
  specialize (H "0 burgers" (mkItem "0 burgers" "Angus Burger" 0 [])
                (or_introl eq_refl)).
  discriminate H.
Qed.

(** C5 (amended). Every item produced by the parser has a quantity of at
    least 1 (a positive integer, or [Infinity]), except that an item whose
    segment starts with an integer token of value zero followed by white
    space has quantity 0; and its modifications are the empty sequence when
    the segment has no " with " in it (in any case of the letters). *)
Theorem parsed_quantity_and_modifications (s : string) (it : ParsedLineItem) :
  In it (parseOrderItems s) ->
  (leading_count (raw it) = Some 0%N -> quantity it = Finite 0) /\
  (leading_count (raw it) <> Some 0%N -> num_leb 1 (quantity it) = true) /\
  (includes " with " (toLowerCase (raw it)) = false -> modifications it = []).
Proof.
  intros Hin.
  assert (Htrim : trim (raw it) = raw it).
  { unfold parseOrderItems in Hin. apply in_map_iff in Hin as (seg & <- & Hseg).
    rewrite parseItem_raw. now apply segments_trimmed with s. }
  apply in_parseOrderItems in Hin.
  remember (raw it) as item eqn:Hitem. subst it. clear Hitem.
  rewrite parseItem_quantity, parseItem_modifications.
  rewrite (trimmed_quantity item Htrim).
  split; [|split].
  - intros ->. reflexivity.
  - destruct (leading_count item) as [n|]; [|reflexivity].
    intros Hn. apply round_double_positive.
    destruct (N.eq_dec n 0) as [-> | Hpos]; [contradiction | lia].
  - intros Hw.
    destruct (extractQuantity_rest item) as (pre & post & Hparts).
    destruct (includes " with " (toLowerCase (snd (extractQuantity item))))
      eqn:Hrest.
    + apply (includes_part " with " pre _ post) in Hrest.
      rewrite <- Hparts, Hw in Hrest. discriminate Hrest.
    + unfold splitWith, indexOf.
      now rewrite (indexOf_from_includes _ _ 0%Z ltac:(lia) Hrest).
Qed.

Lemma parsed_quantity_and_modifications_witness :
  let it := mkItem "3 caesar" "Caesar Salad" 3 [] in
  In it (parseOrderItems "bruschetta, 3 caesar") /\
  (leading_count (raw it) = Some 0%N -> quantity it = Finite 0) /\
  (leading_count (raw it) <> Some 0%N -> num_leb 1 (quantity it) = true) /\
  (includes " with " (toLowerCase (raw it)) = false -> modifications it = []).
Proof.
  intros it.
  assert (Hin : In it (parseOrderItems "bruschetta, 3 caesar"))
    by (right; left; reflexivity).
  split; [exact Hin|].
  exact (parsed_quantity_and_modifications "bruschetta, 3 caesar" it Hin).
Defined.

(** ** What the patterns capture *)

Lemma str_forall_app (p : ascii -> bool) (s t : string) :
  str_forall p (s ++ t) = str_forall p s && str_forall p t.
Proof.
  induction s as [|a s IH]; cbn [append str_forall]; [reflexivity|].
  now rewrite IH, andb_assoc.
Qed.

Lemma str_forall_impl (p q : ascii -> bool) (s : string) :
  (forall a, p a = true -> q a = true) ->
  str_forall p s = true -> str_forall q s = true.
Proof.
  intros Hpq. induction s as [|a s IH]; cbn [str_forall]; [reflexivity|].
  intros H. apply andb_prop in H as [Ha Hs].
  now rewrite (Hpq a Ha), IH.
Qed.

Lemma length_append (s t : string) : length (s ++ t) = length s + length t.
Proof. induction s as [|a s IH]; cbn [append length]; lia. Qed.

Lemma str_take_app (u t : string) :
  str_take (length (u ++ t) - length t) (u ++ t) = u.
Proof.
  rewrite length_append.
  replace (length u + length t - length t) with (length u) by lia.
  induction u as [|a u IH]; cbn [append length str_take].
  - now destruct t.
  - now rewrite IH.
Qed.

Lemma spans_eps (r : regex) (c : cursor) : min_len r = 0 -> spans r c c.
Proof. intros H. exists "". rewrite H. repeat split. cbn [length]. lia. Qed.

Lemma spans_cat (r1 r2 : regex) (c c1 c' : cursor) :
  spans r1 c c1 -> spans r2 c1 c' -> spans (Cat r1 r2) c c'.
Proof.
  intros (u1 & H1 & Hp1 & Hl1) (u2 & H2 & Hp2 & Hl2).
  exists (u1 ++ u2). rewrite append_assoc, <- H2, <- H1.
  split; [reflexivity|]. split.
  - rewrite str_forall_app. apply andb_true_intro. split.
    + apply (str_forall_impl (chars_of r1)); [|exact Hp1].
      intros a Ha. cbn [chars_of]. now rewrite Ha.
    + apply (str_forall_impl (chars_of r2)); [|exact Hp2].
      intros a Ha. cbn [chars_of]. rewrite Ha. apply orb_true_r.
  - rewrite length_append. cbn [min_len]. lia.
Qed.

Lemma spans_or (r1 r2 : regex) (c c' : cursor) :
  spans r1 c c' \/ spans r2 c c' -> spans (Or r1 r2) c c'.
Proof.
  intros [(u & H & Hp & Hl) | (u & H & Hp & Hl)]; exists u;
    (split; [exact H|]); split; cbn [min_len]; try lia.
  - apply (str_forall_impl (chars_of r1)); [|exact Hp].
    intros a Ha. cbn [chars_of]. now rewrite Ha.
  - apply (str_forall_impl (chars_of r2)); [|exact Hp].
    intros a Ha. cbn [chars_of]. rewrite Ha. apply orb_true_r.
Qed.

Lemma spans_star (r : regex) (c c1 c' : cursor) :
  spans r c c1 -> spans (Star r) c1 c' -> spans (Star r) c c'.
Proof.
  intros (u1 & H1 & Hp1 & _) (u2 & H2 & Hp2 & _).
  exists (u1 ++ u2). rewrite append_assoc, <- H2, <- H1.
  split; [reflexivity|]. split; [|cbn [min_len]; lia].
  change (chars_of (Star r)) with (chars_of r) in *.
  now rewrite str_forall_app, Hp1, Hp2.
Qed.

Lemma captured_app (Q : nat -> string -> Prop) (a b : captures) :
  captured Q a -> captured Q b -> captured Q (a ++ b)%list.
Proof. unfold captured. intros Ha Hb. apply Forall_app. now split. Qed.

Lemma cap_lookup_app (n : nat) (a b : captures) :
  cap_lookup n a <> None -> cap_lookup n (a ++ b)%list <> None.
Proof.
  induction a as [|[m v] a IH]; cbn [cap_lookup app]; [congruence|].
  destruct (Nat.eqb m n); [discriminate | exact IH].
Qed.

Lemma cap_lookup_app_r (n : nat) (a b : captures) :
  cap_lookup n b <> None -> cap_lookup n (a ++ b)%list <> None.
Proof.
  intros Hb. induction a as [|[m v] a IH]; cbn [cap_lookup app]; [exact Hb|].
  destruct (Nat.eqb m n); [discriminate | exact IH].
Qed.

Section Engine.

Variable Q : nat -> string -> Prop.
Variable n : nat.

(** What a successful run of the matcher on [r] went through: the rest of
    the pattern was entered at a position [c'] reached by a match of [r],
    with new captures that all satisfy [Q]. *)
Let sound (r : regex) : Prop :=
  forall k c cs res,
    rmatch r k c cs = Some res ->
    exists c' new,
      k c' (new ++ cs)%list = Some res /\ spans r c c' /\
      captured Q new /\ (binds n r = true -> cap_lookup n new <> None).

Lemma star_iter_sound (r : regex) (IH : sound r) :
  forall fuel k c cs res,
    star_iter (rmatch r) k fuel c cs = Some res ->
    exists c' new,
      k c' (new ++ cs)%list = Some res /\ spans (Star r) c c' /\
      captured Q new.
Proof.
  induction fuel as [|fuel IHf]; intros k c cs res; cbn [star_iter].
  - intros H. exists c, []. split; [exact H|].
    split; [now apply spans_eps | constructor].
  - destruct (rmatch r _ c cs) as [res'|] eqn:Hbody.
    + intros H. injection H as ->.
      apply IH in Hbody as (c1 & new1 & Hk & Hspan & Hcap & _).
      destruct (Nat.ltb _ _); [|discriminate].
      apply IHf in Hk as (c' & new & Hk & Hspan' & Hcap').
      exists c', (new ++ new1)%list. rewrite <- app_assoc.
      split; [exact Hk|]. split; [now apply (spans_star r c c1)|].
      now apply captured_app.
    + intros H. exists c, []. split; [exact H|].
      split; [now apply spans_eps | constructor].
Qed.

Lemma rmatch_sound (r : regex) : groups_ok Q r -> sound r.
Proof.
  induction r as [|p|r1 IH1 r2 IH2|r1 IH1 r2 IH2|r1 IH1|m r1 IH1| | |];
    intros Hok k c cs res; cbn [rmatch binds].
  - intros H. exists c, []. split; [exact H|].
    split; [now apply spans_eps|]. split; [constructor | discriminate].
  - destruct c as [b [|a rest]]; cbn [ahead]; [discriminate|].
    destruct (p a) eqn:Hp; [|discriminate].
    intros H. exists (mkCursor (Some a) rest), []. split; [exact H|].
    split; [|split; [constructor | discriminate]].
    exists (String a ""). cbn [ahead append str_forall chars_of min_len length].
    rewrite Hp. repeat split. lia.
  - destruct Hok as [Hok1 Hok2]. intros H.
    apply (IH1 Hok1) in H as (c1 & new1 & H & Hspan1 & Hcap1 & Hb1).
    apply (IH2 Hok2) in H as (c' & new2 & H & Hspan2 & Hcap2 & Hb2).
    exists c', (new2 ++ new1)%list. rewrite <- app_assoc.
    split; [exact H|]. split; [now apply (spans_cat r1 r2 c c1)|].
    split; [now apply captured_app|].
    intros Hb. apply orb_prop in Hb as [Hb|Hb].
    + apply cap_lookup_app_r. now apply Hb1.
    + apply cap_lookup_app. now apply Hb2.
  - destruct Hok as [Hok1 Hok2].
    destruct (rmatch r1 k c cs) as [res'|] eqn:H1.
    + intros H. injection H as ->.
      apply (IH1 Hok1) in H1 as (c' & new & H & Hspan & Hcap & Hb).
      exists c', new. split; [exact H|].
      split; [apply spans_or; now left|]. split; [exact Hcap|].
      intros Hb'. apply andb_prop in Hb' as [Hb' _]. now apply Hb.
    + intros H.
      apply (IH2 Hok2) in H as (c' & new & H & Hspan & Hcap & Hb).
      exists c', new. split; [exact H|].
      split; [apply spans_or; now right|]. split; [exact Hcap|].
      intros Hb'. apply andb_prop in Hb' as [_ Hb']. now apply Hb.
  - intros H.
    apply (star_iter_sound r1 (IH1 Hok)) in H as (c' & new & H & Hspan & Hcap).
    exists c', new. repeat split; try assumption. discriminate.
  - destruct Hok as [Hok1 Hq]. intros H.
    apply (IH1 Hok1) in H as (c' & new & H & Hspan & Hcap & Hb).
    destruct Hspan as (u & Hu & Hp & Hl).
    rewrite Hu, <- (f_equal length Hu) in H. rewrite Hu in H at 1.
    rewrite str_take_app in H.
    exists c', ((m, u) :: new)%list. split; [exact H|].
    split; [now exists u|].
    split; [constructor; [now apply Hq | exact Hcap]|].
    intros Hb'. cbn [cap_lookup].
    destruct (Nat.eqb m n); [discriminate|]. now apply Hb.
  - destruct (behind c); [discriminate|].
    intros H. exists c, []. split; [exact H|].
    split; [now apply spans_eps|]. split; [constructor | discriminate].
  - intros H. exists c, [].
    split; [destruct (ahead c) as [|a rest];
            [exact H | destruct (is_line_terminator a);
                       [exact H | discriminate]]|].
    split; [now apply spans_eps|]. split; [constructor | discriminate].
  - destruct (xorb _ _); [|discriminate].
    intros H. exists c, []. split; [exact H|].
    split; [now apply spans_eps|]. split; [constructor | discriminate].
Qed.

Lemma cap_lookup_captured (cs : captures) (v : string) :
  captured Q cs -> cap_lookup n cs = Some v -> Q n v.
Proof.
  induction cs as [|[m u] cs IH]; cbn [cap_lookup]; [discriminate|].
  intros Hall. inversion Hall as [|? ? Hq Hrest]; subst.
  destruct (Nat.eqb m n) eqn:Hm.
  - intros H. injection H as <-. apply Nat.eqb_eq in Hm as <-. exact Hq.
  - now apply IH.
Qed.

Lemma exec_from_group (r : regex) :
  groups_ok Q r -> binds n r = true ->
  forall s b i m,
    exec_from r b s i = Some m -> exists v, group n m = Some v /\ Q n v.
Proof.
  intros Hok Hb. induction s as [|a s IH]; intros b i m; cbn [exec_from].
  - destruct (match_at r _) as [[c' cs]|] eqn:Hm; [|discriminate].
    intros H. injection H as <-.
    apply (rmatch_sound r Hok) in Hm as (c1 & new & Hk & _ & Hcap & Hn).
    injection Hk as _ <-. rewrite app_nil_r in *.
    unfold group. cbn [m_caps].
    destruct (cap_lookup n new) as [v|] eqn:Hv; [|now destruct Hn].
    exists v. split; [reflexivity|]. now apply cap_lookup_captured with new.
  - destruct (match_at r _) as [[c' cs]|] eqn:Hm; [|apply IH].
    intros H. injection H as <-.
    apply (rmatch_sound r Hok) in Hm as (c1 & new & Hk & _ & Hcap & Hn).
    injection Hk as _ <-. rewrite app_nil_r in *.
    unfold group. cbn [m_caps].
    destruct (cap_lookup n new) as [v|] eqn:Hv; [|now destruct Hn].
    exists v. split; [reflexivity|]. now apply cap_lookup_captured with new.
Qed.

Lemma first_match_group (patterns : list regex) (text : string)
    (m : rmatch_result) :
  Forall (fun r => groups_ok Q r /\ binds n r = true) patterns ->
  first_match patterns text = Some m ->
  exists v, group n m = Some v /\ Q n v.
Proof.
  induction 1 as [|r rest [Hok Hb] _ IH]; cbn [first_match]; [discriminate|].
  destruct (exec r text) as [m'|] eqn:Hm; [|exact IH].
  intros H. injection H as ->. now apply (exec_from_group r Hok Hb) in Hm.
Qed.

End Engine.

Lemma groups_ok_plain (Q : nat -> string -> Prop) (r : regex) :
  has_group r = false -> groups_ok Q r.
Proof.
  induction r; cbn [has_group groups_ok]; intros H; try exact I;
    try discriminate; try (apply orb_false_elim in H as [H1 H2]); auto.
Qed.

Lemma class_text (p q : ascii -> bool) (u : string) :
  (forall a, p a = true -> q a = true) ->
  str_forall p u = true -> 1 <= length u ->
  u <> "" /\ str_forall q u = true.
Proof.
  intros Hpq Hu Hl. split.
  - intros ->. cbn [length] in Hl. lia.
  - now apply (str_forall_impl p).
Qed.

Ltac plain_parts :=
  cbn [groups_ok];
  repeat match goal with |- _ /\ _ => split end;
  try exact I; try (apply groups_ok_plain; reflexivity).

Lemma orderNumberPatterns_capture :
  Forall (fun r => groups_ok (fun _ => is_code) r /\ binds 1 r = true)
    orderNumberPatterns.
Proof.
  unfold orderNumberPatterns, orderNumberLabel, orderLabel, hashCode,
    capitalizedWord.
  repeat apply Forall_cons; try apply Forall_nil; (split; [|reflexivity]);
    plain_parts.
  all: intros u Hu Hl; cbn [min_len Plus Nat.add] in Hl;
    (apply (class_text _ is_alnum_dash u) in Hu; [exact Hu | | lia]);
    intros a; by_cases_on_char a.
Qed.

Lemma totalPatterns_capture :
  Forall (fun r => groups_ok (fun _ => is_amount) r /\ binds 1 r = true)
    totalPatterns.
Proof.
  unfold totalPatterns.
  repeat apply Forall_cons; try apply Forall_nil; (split; [|reflexivity]);
    plain_parts.
  all: intros u Hu Hl; cbn [min_len Plus Opt Lit Nat.add Nat.min] in Hl;
    (apply (class_text _ is_amount_char u) in Hu; [exact Hu | | lia]);
    intros a; by_cases_on_char a.
Qed.

Lemma code_is_not_the_placeholder (v : string) :
  is_code v -> v <> ORDER_PLACED_NO_NUMBER.
Proof. intros [_ Hv] ->. vm_compute in Hv. discriminate. Qed.

Lemma extractFields_total (text : string) (r : OrderResult) :
  totalAmount (extractFields text r)
  = match first_match totalPatterns text with
    | Some m => Some ("$" ++ interpolate (group 1 m))
    | None => totalAmount r
    end.
Proof.
  unfold extractFields, extractTotal, extractPickupTime, extractOrderNumber.
  destruct (first_match totalPatterns text); [reflexivity|].
  repeat match goal with
         | |- context [first_match ?p text] => destruct (first_match p text)
         | |- context [falsy ?v] => destruct (falsy v)
         end; reflexivity.
Qed.

Section Scraper.

Context {W : Type}.
Variable browser : forall T, Call T -> W -> outcome T * W.
Variable fuel : nat.

(** What [placeOrder] returns has been through the scraper at most once,
    and from empty fields. *)
Lemma placeOrder_scraped (orderData : OrderData) (st st' : State W)
    (r : OrderResult) :
  placeOrder browser fuel orderData st = (Ok r, st') ->
  (confirmationNumber r = None /\ estimatedPickupTime r = None /\
   totalAmount r = None) \/
  (exists text r0,
     confirmationNumber r0 = None /\ estimatedPickupTime r0 = None /\
     totalAmount r0 = None /\ r = set_success true (extractFields text r0)).
Proof.
  intros H.
  pose proof (keeps_stagesBeforeExtraction browser fuel totalAmount
                ltac:(reflexivity) orderData) as Hkeep.
  apply placeOrder_runs in H
    as [(w1 & sa & sb & _ & Hstages & Hextract & ->)
       | [(w1 & e & sa & s' & _ & Hstages & Hon & ->)
         | (w1 & e & s' & _ & Hon & ->)]].
  - destruct (stages_leave_fields browser fuel orderData
                (mkState w1 (Did Launch (Ok tt) :: log st) initialResult)
                sa _ eq_refl Hstages)
      as (_ & _ & Hc & Hp).
    specialize (Hkeep (mkState w1 (Did Launch (Ok tt) :: log st)
                         initialResult)).
    rewrite Hstages in Hkeep. cbn [snd result] in Hkeep.
    pose proof (extractConfirmationDetails_run browser sa) as Hrun.
    destruct (browser _ BodyText (world sa)) as [[text|e|[]] w2];
      rewrite Hrun in Hextract; injection Hextract as <-; cbn [result].
    + right. exists text, (result sa). now repeat split.
    + left. cbn [set_success confirmationNumber estimatedPickupTime
                 totalAmount].
      now repeat split.
  - left.
    destruct (stages_leave_fields browser fuel orderData
                (mkState w1 (Did Launch (Ok tt) :: log st) initialResult)
                sa _ eq_refl Hstages)
      as (_ & _ & Hc & Hp).
    specialize (Hkeep (mkState w1 (Did Launch (Ok tt) :: log st)
                         initialResult)).
    rewrite Hstages in Hkeep. cbn [snd result] in Hkeep.
    pose proof (onError_result browser true e sa) as (Hc' & Hp' & Ht' & _).
    rewrite Hon in Hc', Hp', Ht'. cbn [snd] in Hc', Hp', Ht'.
    now rewrite Hc', Hp', Ht', Hc, Hp, Hkeep.
  - left.
    pose proof (onError_result browser false e
                  (mkState w1 (Did Launch (Throw e) :: log st) initialResult))
      as (Hc' & Hp' & Ht' & _).
    rewrite Hon in Hc', Hp', Ht'. cbn [snd result] in Hc', Hp', Ht'.
    now rewrite Hc', Hp', Ht'.
Qed.

(** X21. The total of a returned result, when there is one, is a dollar
    sign followed by a captured amount: a text that is not empty and is made
    of digits, commas and periods only. *)
Theorem total_amount_format (orderData : OrderData) (st st' : State W)
    (r : OrderResult) (t : string) :
  placeOrder browser fuel orderData st = (Ok r, st') ->
  totalAmount r = Some t ->
  exists v, t = "$" ++ v /\ v <> "" /\ str_forall is_amount_char v = true.
Proof.
  intros H Ht.
  apply placeOrder_scraped in H
    as [(_ & _ & Hnone) | (text & r0 & _ & _ & Hnone & ->)];
    [congruence|].
  cbn [set_success totalAmount] in Ht.
  change (totalAmount (extractFields text r0) = Some t) in Ht.
  rewrite extractFields_total in Ht.
  destruct (first_match totalPatterns text) as [m|] eqn:Hm; [|congruence].
  apply (first_match_group (fun _ => is_amount) 1 _ _ _ totalPatterns_capture)
    in Hm as (v & Hv & Hne & Hchars).
  rewrite Hv in Ht. injection Ht as <-. now exists v.
Qed.

(** X22. The order number scraped from the text of the page: the
    placeholder is stored exactly when none of the four patterns matches;
    when one matches, what is stored is the first capture of the first
    pattern that matches, which is not empty and is made of letters, digits
    and dashes. *)
Theorem placeholder_only_without_a_match (st : State W) (text : string)
    (w1 : W) :
  browser _ BodyText (world st) = (Ok text, w1) ->
  confirmationNumber (result st) = None ->
  (confirmationNumber (result (snd (extractConfirmationDetails browser st)))
   = Some ORDER_PLACED_NO_NUMBER
   <-> first_match orderNumberPatterns text = None) /\
  (forall m,
     first_match orderNumberPatterns text = Some m ->
     exists v,
       group 1 m = Some v /\
       confirmationNumber
         (result (snd (extractConfirmationDetails browser st))) = Some v /\
       v <> "" /\ str_forall is_alnum_dash v = true).
Proof.
  intros Hread Hnone.
  pose proof (extractConfirmationDetails_run browser st) as Hrun.
  rewrite Hread in Hrun. rewrite Hrun. cbn [snd result].
  unfold extractFields.
  destruct (extractTotal_others text
              (extractPickupTime text (extractOrderNumber text (result st))))
    as (-> & _).
  destruct (extractPickupTime_others text
              (extractOrderNumber text (result st))) as (-> & _).
  unfold extractOrderNumber.
  destruct (first_match orderNumberPatterns text) as [m|] eqn:Hm.
  - apply (first_match_group (fun _ => is_code) 1 _ _ _
             orderNumberPatterns_capture) in Hm as (v & Hv & Hcode).
    rewrite Hv. cbn [set_confirmationNumber confirmationNumber].
    assert (Hf : falsy (Some v) = false).
    { destruct Hcode as [Hne _]. destruct v; [contradiction | reflexivity]. }
    rewrite Hf. cbn [confirmationNumber]. split.
    + split; [|discriminate]. intros Heq. injection Heq as ->.
      now apply code_is_not_the_placeholder in Hcode.
    + intros m' Hm'. injection Hm' as <-. exists v.
      destruct Hcode as [Hne Hchars]. now repeat split.
  - rewrite Hnone. cbn [falsy set_confirmationNumber confirmationNumber].
    split; [now split | discriminate].
Qed.

End Scraper.

Lemma total_amount_format_witness :
  let run := placeOrder (pageBrowser "Order #A1B2C3 Total: $1,234.50 thanks") 10
               testOrder (start tt) in
  let r := match fst run with Ok r => r | _ => initialResult end in
  run = (Ok r, snd run) /\
  totalAmount r = Some "$1,234.50" /\
  exists v, "$1,234.50" = "$" ++ v /\ v <> "" /\
            str_forall is_amount_char v = true.
Proof.
  intros run r.
  assert (H : run = (Ok r, snd run)) by (vm_compute; reflexivity).
  assert (Ht : totalAmount r = Some "$1,234.50") by (vm_compute; reflexivity).
  split; [exact H|]. split; [exact Ht|].
  exact (total_amount_format _ _ _ _ _ _ _ H Ht).
Defined.

Lemma placeholder_only_without_a_match_witness :
  let text := "Your order #77A-21 is in" in
  let st := start tt in
  pageBrowser text _ BodyText (world st) = (Ok text, tt) /\
  confirmationNumber (result st) = None /\
  (confirmationNumber
     (result (snd (extractConfirmationDetails (pageBrowser text) st)))
   = Some ORDER_PLACED_NO_NUMBER
   <-> first_match orderNumberPatterns text = None).
Proof.
  intros text st.
  assert (H0 : pageBrowser text _ BodyText (world st) = (Ok text, tt))
    by reflexivity.
  assert (H1 : confirmationNumber (result st) = None) by reflexivity.
  split; [exact H0|]. split; [exact H1|].
  exact (proj1 (placeholder_only_without_a_match (pageBrowser text) st text tt
                  H0 H1)).
Defined.

(** ** The HTTP wrapper *)

Section Handler.

Context {W : Type}.
Variable browser : forall T, Call T -> W -> outcome T * W.
Variable fuel : nat.

(** X23. What the handler of [POST /place-order] does, for a body whose
    fields are strings or absent.  When one of [order_items],
    [customer_name] and [customer_phone] is absent or empty, it answers 400
    with the message about the missing fields, before anything is done with
    the browser.  Otherwise it runs [placeOrder] on the order made of the
    fields and their defaults: when that returns a result, it answers 200
    with this result, whether the order succeeded or not; when that throws,
    which is when closing the browser threw, it answers 500 with the
    message; and as long as that run is in a quantity loop, it has not
    answered. *)
Theorem handlePlaceOrder_answers (body : RequestBody) (st : State W) :
  (required_missing body = true /\
   handlePlaceOrder browser fuel body st
   = (Ok (mkResponse 400 (FailureBody MISSING_FIELDS)), st)) \/
  (required_missing body = false /\
   exists r st',
     placeOrder browser fuel (orderDataOf body) st = (Ok r, st') /\
     handlePlaceOrder browser fuel body st
     = (Ok (mkResponse 200 (ResultBody r)), st')) \/
  (required_missing body = false /\
   exists e st' older,
     placeOrder browser fuel (orderDataOf body) st = (Throw e, st') /\
     log st' = Did Close (Throw e) :: older /\
     handlePlaceOrder browser fuel body st
     = (Ok (mkResponse 500 (FailureBody e)), st')) \/
  (required_missing body = false /\
   exists st',
     placeOrder browser fuel (orderDataOf body) st = (Running, st') /\
     handlePlaceOrder browser fuel body st = (Running, st')).
Proof.
  unfold handlePlaceOrder, required_missing, orderDataOf.
  destruct body as [[[|a1 items]|] [[|a2 customer]|] [[|a3 phone]|]
                      pickup instructions];
    cbn [body_order_items body_customer_name body_customer_phone
         body_pickup_time body_special_instructions falsy orb or_default];
    try (left; split; reflexivity).
  set (orderData := mkOrder _ _ _ _ _).
  unfold try_catch, bind, ret.
  destruct (placeOrder_returns browser fuel orderData st)
    as [(r & st' & H) | [(e & st' & older & H & Hlog) | (st' & H)]];
    rewrite H.
  - right; left. split; [reflexivity|]. now exists r, st'.
  - right; right; left. split; [reflexivity|]. now exists e, st', older.
  - right; right; right. split; [reflexivity|]. now exists st'.
Qed.

(** X24. [pickup_time] has no effect: two requests that differ in it only
    are handled in the same way, call for call. *)
Theorem pickup_time_is_ignored (body : RequestBody) (t : option string) :
  handlePlaceOrder browser fuel (with_pickup_time t body)
  = handlePlaceOrder browser fuel body.
Proof.
  unfold handlePlaceOrder, with_pickup_time.
  destruct body as [[items|] [customer|] [phone|] pickup instructions];
    cbn [body_order_items body_customer_name body_customer_phone
         body_pickup_time body_special_instructions];
    reflexivity.
Qed.

End Handler.

(** ** Runs on the test browsers *)

Lemma handleItemModal_tries_every_modification_witness :
  let item := parseItem "burger with cheese and bacon" in
  smoothBrowser _ (EvaluateBool HasRequiredSelection) (world (start tt))
  = (Ok true, tt) /\
  exists new,
    log (snd (handleItemModal smoothBrowser 10 item (start tt)))
    = (new ++ log (start tt))%list /\
    rev (flat_map modifier_click new) = modifications item.
Proof.
  intros item.
  assert (H : smoothBrowser _ (EvaluateBool HasRequiredSelection)
                (world (start tt)) = (Ok true, tt)) by reflexivity.
  split; [exact H|].
  exact (handleItemModal_tries_every_modification smoothBrowser 10 item
           (start tt) true tt H).
Defined.

Lemma addItemsToCart_looks_up_every_item_witness :
  let run := addItemsToCart smoothBrowser 10 "bruschetta, 2 burgers" (start tt) in
  run = (Ok tt, snd run) /\
  exists new,
    log (snd run) = (new ++ log (start tt))%list /\
    rev (attempted_names new)
    = map name (parseOrderItems "bruschetta, 2 burgers").
Proof.
  intros run.
  assert (H : run = (Ok tt, snd run)) by (vm_compute; reflexivity).
  split; [exact H|].
  exact (addItemsToCart_looks_up_every_item smoothBrowser _ _ _ _ H).
Defined.

Lemma placeOrder_without_instructions_witness :
  noInstructions (special_instructions pizzaOrder) = true /\
  silent notes_query (placeOrder smoothBrowser 10 pizzaOrder).
Proof.
  assert (H : noInstructions (special_instructions pizzaOrder) = true)
    by reflexivity.
  split; [exact H|].
  exact (placeOrder_without_instructions smoothBrowser 10 pizzaOrder H).
Defined.

Lemma failed_order_has_no_confirmation_witness :
  let run := placeOrder noPizzaBrowser 10 pizzaOrder (start tt) in
  let r := match fst run with Ok r => r | _ => initialResult end in
  run = (Ok r, snd run) /\ success r = false /\
  confirmationNumber r = None /\ estimatedPickupTime r = None /\
  totalAmount r = None.
Proof.
  intros run r.
  assert (H : run = (Ok r, snd run)) by (vm_compute; reflexivity).
  assert (Hs : success r = false) by (vm_compute; reflexivity).
  split; [exact H|]. split; [exact Hs|].
  exact (proj1 (failed_order_has_no_confirmation noPizzaBrowser _ _ _ _ _ H)
           Hs).
Defined.

Lemma error_page_html_is_truncated_witness :
  let run := placeOrder noPizzaBrowser 10 pizzaOrder (start tt) in
  let r := match fst run with Ok r => r | _ => initialResult end in
  run = (Ok r, snd run) /\ errorPageHTML r = Some "" /\
  (Z.of_nat (length "") <= 5000)%Z.
Proof.
  intros run r.
  assert (H : run = (Ok r, snd run)) by (vm_compute; reflexivity).
  assert (Hh : errorPageHTML r = Some "") by (vm_compute; reflexivity).
  split; [exact H|]. split; [exact Hh|].
  exact (error_page_html_is_truncated noPizzaBrowser _ _ _ _ _ _ H Hh).
Defined.

Lemma screenshots_follow_the_stages_witness :
  let run := placeOrder noPizzaBrowser 10 pizzaOrder (start tt) in
  let r := match fst run with Ok r => r | _ => initialResult end in
  run = (Ok r, snd run) /\
  Subseq (map snap_name (screenshots r)) (stageLabels ++ ["99-error-state"]).
Proof.
  intros run r.
  assert (H : run = (Ok r, snd run)) by (vm_compute; reflexivity).
  split; [exact H|].
  exact (proj1 (screenshots_follow_the_stages noPizzaBrowser _ _ _ _ _ H)).
Defined.

Lemma error_is_the_message_of_the_failed_stage_witness :
  let run := placeOrder noPizzaBrowser 10 pizzaOrder (start tt) in
  let r := match fst run with Ok r => r | _ => initialResult end in
  run = (Ok r, snd run) /\ success r = false /\
  exists e w1,
    error r = Some e /\
    (noPizzaBrowser _ Launch (world (start tt)) = (Throw e, w1) \/
     (noPizzaBrowser _ Launch (world (start tt)) = (Ok tt, w1) /\
      fst (stagesBeforeExtraction noPizzaBrowser 10 pizzaOrder
             (mkState w1 (Did Launch (Ok tt) :: log (start tt)) initialResult))
      = Throw e)).
Proof.
  intros run r.
  assert (H : run = (Ok r, snd run)) by (vm_compute; reflexivity).
  assert (Hs : success r = false) by (vm_compute; reflexivity).
  split; [exact H|]. split; [exact Hs|].
  exact (error_is_the_message_of_the_failed_stage noPizzaBrowser _ _ _ _ _ H
           Hs).
Defined.

Lemma handleItemModal_quantity_clicks_witness :
  let item := parseItem "3 burgers" in
  quantity item = Finite 3 /\ (3 <= 2 ^ 53)%N /\
  clicks_at_most (N.to_nat (3 - 1)) (handleItemModal smoothBrowser 10 item).
Proof.
  intros item.
  assert (Hq : quantity item = Finite 3) by reflexivity.
  assert (Hbound : (3 <= 2 ^ 53)%N) by (apply N.leb_le; reflexivity).
  split; [exact Hq|]. split; [exact Hbound|].
  exact (handleItemModal_quantity_clicks smoothBrowser 10 item 3 Hq Hbound).
Defined.

Lemma quantity_loop_does_not_end_witness :
  let item := parseItem "9007199254740994 wings" in
  loopBound (quantity item) = None /\
  fst (handleItemModal smoothBrowser 10 item (start tt)) = Running /\
  exists new,
    log (snd (handleItemModal smoothBrowser 10 item (start tt)))
    = (new ++ log (start tt))%list /\
    flat_map plus_click new = repeat true 10.
Proof.
  intros item.
  assert (Hnone : loopBound (quantity item) = None) by reflexivity.
  split; [exact Hnone|].
  apply (quantity_loop_does_not_end smoothBrowser 10 item (start tt) Hnone).
  - intros []. now exists tt.
  - intros []. now exists tt.
  - intros e. discriminate.
Defined.

Lemma guest_form_is_typed_field_by_field_witness :
  let run := fillGuestInfo smoothBrowser "John Smith" "416-555-1234"
               (start tt) in
  fst run = Ok tt /\
  guestFirstName "John Smith" = "John" /\
  guestPhone "416-555-1234" = "4165551234" /\
  exists new h1 h2 h3 h4,
    log (snd run) = (new ++ log (start tt))%list /\
    rev (flat_map found_field new)
    = [(FirstNameInput, h1); (LastNameInput, h2); (EmailInput, h3);
       (PhoneInput, h4)] /\
    rev (flat_map typed_into new)
    = [(h1, "John"); (h2, "PAM"); (h3, "yousef.alyeldin5@gmial.com");
       (h4, "4165551234")].
Proof.
  intros run.
  assert (H : fst run = Ok tt) by reflexivity.
  split; [exact H|].
  destruct (guest_form_is_typed_field_by_field smoothBrowser "John Smith"
              "416-555-1234" (start tt) H) as (Hname & Hphone & Hlog).
  split; [exact (Hname eq_refl)|]. split; [exact Hphone|]. exact Hlog.
Defined.
